(** * MetaMaskSDKConnector: connection lifecycle

    A shallow embedding of the two versions of the wagmi connector for the
    MetaMask SDK that the repository carries:

    - [SignalDriven]: src/unnamed/part_000, whose [connect] fires the SDK's
      [connect()] without awaiting it and waits in [#waitForSDK];
    - [TriggerAwaited]: src/packages/connectors/src/metaMaskSDK.ts, whose
      [connect] awaits the SDK's [connect()] and then waits, when needed, for
      the legacy [authorized] signal.

    The constructor guard, [#updateProviderListeners], [getProvider],
    [disconnect], chain discovery and the [catch] block are the same text in
    both files and are embedded once.

    The wallet SDK, the provider objects, the base connector and the storage
    are collaborators: what they answer is read from an [Env] record, one per
    call of a connector operation; what the connector does to them is recorded
    in a log of [Effect]s and applied to the [World]. *)

From Stdlib Require Import ZArith List String Ascii Bool Lia.
From Stdlib Require HexadecimalString HexadecimalN.
From stdpp Require Import base option list gmap strings.

Open Scope string_scope.
Open Scope Z_scope.
Open Scope list_scope.

(* ===================================================================== *)
(** ** JavaScript values the connector handles *)
(* ===================================================================== *)

(** Strings are JavaScript strings, held as their UTF-8 bytes. *)
Definition Address := string.

(** Identity of a provider object ([SDKProvider]). *)
Definition pid := positive.

(** A JavaScript number as far as chain ids go: [NaN], a double whose value
    is an integer, or an infinity. [Num 0] stands for both zeros, which [===]
    does not tell apart. *)
Inductive number :=
  | NaN
  | Num (z : Z)
  | Infinity (negative : bool).

#[global] Instance number_eq_dec : EqDecision number.
Proof. solve_decision. Defined.

(** [a === b] on numbers: [NaN] is equal to nothing, itself included. *)
Definition strict_eq (a b : number) : bool :=
  match a, b with
  | Num x, Num y => Z.eqb x y
  | Infinity s, Infinity t => Bool.eqb s t
  | _, _ => false
  end.

(** [a !== b]. *)
Definition strict_neq (a b : number) : bool := negb (strict_eq a b).

(** Truthiness of an object reference that may be [undefined]. *)
Definition defined {A} (v : option A) : bool :=
  match v with
  | Some _ => true
  | None => false
  end.

(** Truthiness of a [string | null | undefined]: the empty string, [null]
    and [undefined] are falsy. *)
Definition truthy (v : option string) : bool :=
  match v with
  | Some (String _ _) => true
  | _ => false
  end.

(** *** [parseInt(string, 16)] *)

Definition hex_digit (c : ascii) : option Z :=
  let n := Z.of_N (N_of_ascii c) in
  if (48 <=? n) && (n <=? 57) then Some (n - 48)
  else if (97 <=? n) && (n <=? 102) then Some (n - 87)
  else if (65 <=? n) && (n <=? 70) then Some (n - 55)
  else None.

(** The members of [StrWhiteSpaceChar] of one byte: TAB, LF, VT, FF, CR,
    SP. *)
Definition is_white_space (c : ascii) : bool :=
  let n := Z.of_N (N_of_ascii c) in
  ((9 <=? n) && (n <=? 13)) || (n =? 32).

(** Those of two bytes: U+00A0 (C2 A0). *)
Definition is_white_space2 (a b : ascii) : bool :=
  (Z.of_N (N_of_ascii a) =? 194) && (Z.of_N (N_of_ascii b) =? 160).

(** Those of three bytes: U+1680 (E1 9A 80), U+2000 to U+200A (E2 80 80 to
    E2 80 8A), U+2028 and U+2029 (E2 80 A8, E2 80 A9), U+202F (E2 80 AF),
    U+205F (E2 81 9F), U+3000 (E3 80 80) and U+FEFF (EF BB BF). *)
Definition is_white_space3 (a b c : ascii) : bool :=
  let a := Z.of_N (N_of_ascii a) in
  let b := Z.of_N (N_of_ascii b) in
  let c := Z.of_N (N_of_ascii c) in
  ((a =? 225) && (b =? 154) && (c =? 128))
  || ((a =? 226) && (b =? 128)
      && (((128 <=? c) && (c <=? 138)) || (c =? 168) || (c =? 169) || (c =? 175)))
  || ((a =? 226) && (b =? 129) && (c =? 159))
  || ((a =? 227) && (b =? 128) && (c =? 128))
  || ((a =? 239) && (b =? 187) && (c =? 191)).

(** [TrimString(s, start)]. *)
Fixpoint trim_start (s : string) : string :=
  match s with
  | String a t =>
      if is_white_space a then trim_start t
      else
        match t with
        | String b u =>
            if is_white_space2 a b then trim_start u
            else
              match u with
              | String c v => if is_white_space3 a b c then trim_start v else s
              | EmptyString => s
              end
        | EmptyString => s
        end
  | EmptyString => s
  end.

(** Value of the longest prefix of hexadecimal digits; [None] when that
    prefix is empty. *)
Fixpoint hex_prefix (s : string) (acc : option Z) : option Z :=
  match s with
  | EmptyString => acc
  | String c t =>
      match hex_digit c with
      | Some d => hex_prefix t (Some (16 * default 0 acc + d))
      | None => acc
      end
  end.

(** The Number value of the integer [m >= 0]: the double nearest to it, the
    even one of two that are as near, and infinity from 2^1024 on. A double
    has 53 significant bits. *)
Definition to_double (m : Z) : number :=
  let bits := Z.log2 m + 1 in
  if bits <=? 53 then Num m
  else
    let shift := bits - 53 in
    let q := Z.shiftr m shift in
    let r := Z.land m (Z.ones shift) in
    let half := Z.shiftl 1 (shift - 1) in
    let q := if (half <? r) || ((r =? half) && Z.odd q) then q + 1 else q in
    let v := Z.shiftl q shift in
    if Z.shiftl 1 1024 <=? v then Infinity false else Num v.

Definition negate (n : number) : number :=
  match n with
  | NaN => NaN
  | Num z => Num (- z)
  | Infinity negative => Infinity (negb negative)
  end.

Definition parseInt16 (s : string) : number :=
  let s1 := trim_start s in
  let '(negative, s2) :=
    match s1 with
    | String "-" t => (true, t)
    | String "+" t => (false, t)
    | _ => (false, s1)
    end in
  let s3 :=
    match s2 with
    | String "0" (String "x" t) => t
    | String "0" (String "X" t) => t
    | _ => s2
    end in
  match hex_prefix s3 None with
  | None => NaN
  | Some v => if negative then negate (to_double v) else to_double v
  end.

(** [ToString] of a [string | null | undefined]; [None] stands for a missing
    value ([undefined]; [null] prints as ["null"], which parses to [NaN] in
    base 16 just the same). *)
Definition ToString (v : option string) : string :=
  match v with
  | Some s => s
  | None => "undefined"
  end.

(** [parseInt(v, 16)] as [connect] calls it. *)
Definition parseInt (v : option string) : number := parseInt16 (ToString v).

(** *** Errors *)

(** An error object as the [catch] block of [connect] sees it: a message and
    the [code] field when it holds a number. The two viem classes wrap their
    cause; viem gives them the codes 4001 and -32002. *)
Inductive error :=
  | ProviderRpcError (message : string) (code : option Z)
  | UserRejectedRequestError (cause : error)
  | ResourceUnavailableRpcError (cause : error).

#[global] Instance error_eq_dec : EqDecision error.
Proof. solve_decision. Defined.

Definition error_code (e : error) : option Z :=
  match e with
  | ProviderRpcError _ c => c
  | UserRejectedRequestError _ => Some 4001
  | ResourceUnavailableRpcError _ => Some (-32002)
  end.

(** [error.code === -32002]. *)
Definition code_is_32002 (e : error) : bool :=
  match error_code e with
  | Some c => c =? -32002
  | None => false
  end.

(** How a promise a collaborator returns ends. *)
Inductive Settled (A : Type) :=
  | Fulfilled (a : A)
  | Rejected (e : error)
  | Never.
Arguments Fulfilled {A} a.
Arguments Rejected {A} e.
Arguments Never {A}.

(* ===================================================================== *)
(** ** Provider objects as event emitters *)
(* ===================================================================== *)

(** The three handlers the base connector supplies, and any other function
    somebody subscribed. *)
Inductive handler :=
  | onAccountsChanged
  | onChainChanged
  | onDisconnect
  | foreign (n : nat).

#[global] Instance handler_eq_dec : EqDecision handler.
Proof. solve_decision. Defined.

Definition is_tracked (h : handler) : bool :=
  match h with
  | foreign _ => false
  | _ => true
  end.

(** The subscriptions [#updateProviderListeners] manages. *)
Definition tracked : list (string * handler) :=
  [ ("accountsChanged", onAccountsChanged);
    ("chainChanged", onChainChanged);
    ("disconnect", onDisconnect) ].

(** The listener arrays of all provider objects, by provider and event. *)
Abbreviation Emitters := (gmap (pid * string) (list handler)).

Definition listeners (em : Emitters) (p : pid) (ev : string) : list handler :=
  default [] (em !! (p, ev)).

(** [emitter.on(ev, h)]: appends, duplicates allowed. *)
Definition emitter_on (p : pid) (ev : string) (h : handler) (em : Emitters)
  : Emitters :=
  <[ (p, ev) := listeners em p ev ++ [h] ]> em.

Fixpoint remove_first (h : handler) (l : list handler) : list handler :=
  match l with
  | [] => []
  | x :: t => if decide (x = h) then t else x :: remove_first h t
  end.

(** [emitter.removeListener(ev, h)]: removes at most one instance, the most
    recently added one. *)
Definition emitter_removeListener (p : pid) (ev : string) (h : handler)
    (em : Emitters) : Emitters :=
  <[ (p, ev) := rev (remove_first h (rev (listeners em p ev))) ]> em.

(** How many times [h] is subscribed to [ev] on [p]. *)
Definition attached (em : Emitters) (p : pid) (ev : string) (h : handler) : nat :=
  count_occ handler_eq_dec (listeners em p ev) h.

(* ===================================================================== *)
(** ** The connector object and its constructor *)
(* ===================================================================== *)

Record MetaMaskSDKOptions := {
  dappMetadata : option string;
  _source : option string;
}.

(** An SDK instance is the one the caller built or the one the constructor
    built from the caller's options. *)
Inductive MetaMaskSDK :=
  | prebuilt (instance : positive)
  | new_MetaMaskSDK (sdkOptions : MetaMaskSDKOptions).

Record MetaMaskSDKConnectorOptions := {
  opt_debug : option bool;              (* part_000 only *)
  opt_sdk : option MetaMaskSDK;
  opt_sdkOptions : option MetaMaskSDKOptions;
}.

(** The options object handed to the base class: [getProvider()] returns the
    provider captured at construction. *)
Record InjectedConnectorOptions := {
  name : string;
  shimDisconnect : bool;
  options_getProvider : option pid;
}.

Record Connector := {
  this_sdk : MetaMaskSDK;                          (* #sdk *)
  this_provider : option pid;                      (* #provider *)
  this_debug : bool;                               (* #debug, part_000 only *)
  this_options : option InjectedConnectorOptions;  (* this.options *)
  this_storage : option (gmap string bool);        (* this.storage *)
  this_shimDisconnectKey : string;                 (* this.shimDisconnectKey *)
}.

(** What a constructor call does, in order. *)
Inductive ConstructorStep :=
  | construct_sdk (sdkOptions : MetaMaskSDKOptions)  (* new MetaMaskSDK(..) *)
  | call_sdk_getProvider (s : MetaMaskSDK)
  | call_super (options : InjectedConnectorOptions).

Inductive Constructed :=
  | invalid_sdk_parameters   (* Error('MetaMaskConnector invalid sdk parameters') *)
  | instance (c : Connector).

(** What [sdk.getProvider()] answers at construction, and the fields the
    base class owns once [super] returns. *)
Record Construction := {
  sdk_provider : MetaMaskSDK → option pid;
  base_storage : option (gmap string bool);
  base_shimDisconnectKey : string;
}.

(** The constructor from [sdk.getProvider()] on: the same text in both
    files (part_000 lines 51-66, metaMaskSDK.ts lines 50-64). *)
Definition construct (ce : Construction) (debug : option bool) (s : MetaMaskSDK)
    (before : list ConstructorStep) : Constructed * list ConstructorStep :=
  let sdkProvider := sdk_provider ce s in
  let options :=
    {| name := "MetaMask"; shimDisconnect := true;
       options_getProvider := sdkProvider |} in
  (instance
     {| this_sdk := s;
        this_provider := sdkProvider;
        this_debug := default false debug;
        this_options := Some options;
        this_storage := base_storage ce;
        this_shimDisconnectKey := base_shimDisconnectKey ce |},
   before ++ [call_sdk_getProvider s; call_super options]).

(** [!options_?.sdk && !options_?.sdkOptions]. [options_] is [None] when the
    caller passes no [options] (or no argument at all); an absent field is
    falsy, an object is truthy. *)
Definition invalid_parameters (options_ : option MetaMaskSDKConnectorOptions) : bool :=
  negb (defined (options_ ≫= opt_sdk))
  && negb (defined (options_ ≫= opt_sdkOptions)).

(* ===================================================================== *)
(** ** Effects, the world, the collaborators *)
(* ===================================================================== *)

Inductive Signal :=
  | PROVIDER_UPDATE   (* EventType.PROVIDER_UPDATE, on the SDK *)
  | AUTHORIZED.       (* EventType.AUTHORIZED / 'authorized', on the connection's connector *)

#[global] Instance Signal_eq_dec : EqDecision Signal.
Proof. solve_decision. Defined.

(** What an operation of the connector does, in program order: the calls on
    its collaborators, the assignments to [#provider], and four program
    points of [connect]. *)
Inductive Effect :=
  | sdk_init
  | sdk_connect
  | sdk_once (s : Signal)
  | sdk_terminate
  | console_log (message : string)
  | authorization_confirmed                     (* the authorization wait is over *)
  | enter_updateProviderListeners
  | removeListener (p : pid) (ev : string) (h : handler)
  | set_provider (p : option pid)               (* this.#provider = ... *)
  | on (p : pid) (ev : string) (h : handler)
  | request (p : pid) (method : string)
  | accounts_obtained (accounts : option (list Address))
  | parseInt_called (arg : option string)
  | switchChain_called (chainId : number)
  | storage_setItem (key : string) (value : bool)
  | storage_removeItem (key : string).

#[global] Instance Effect_eq_dec : EqDecision Effect.
Proof. solve_decision. Defined.

Record World := {
  this : Connector;
  emitters : Emitters;
  log : list Effect;
}.

(** The part of the world the listener invariant is about: the provider the
    connector holds and the listener arrays. *)
Abbreviation Bindings := (option pid * Emitters)%type.

Definition bindings (w : World) : Bindings := (this_provider (this w), emitters w).

Definition step_bindings (e : Effect) (b : Bindings) : Bindings :=
  match e with
  | removeListener p ev h => (b.1, emitter_removeListener p ev h b.2)
  | on p ev h => (b.1, emitter_on p ev h b.2)
  | set_provider p => (p, b.2)
  | _ => b
  end.

Definition step_storage (e : Effect) (st : option (gmap string bool))
  : option (gmap string bool) :=
  match e with
  | storage_setItem k v => (λ m, <[k := v]> m) <$> st
  | storage_removeItem k => (λ m, delete k m) <$> st
  | _ => st
  end.

Definition apply_effect (e : Effect) (w : World) : World :=
  let b := step_bindings e (bindings w) in
  {| this :=
       {| this_sdk := this_sdk (this w);
          this_provider := b.1;
          this_debug := this_debug (this w);
          this_options := this_options (this w);
          this_storage := step_storage e (this_storage (this w));
          this_shimDisconnectKey := this_shimDisconnectKey (this w) |};
     emitters := b.2;
     log := log w ++ [e] |}.

(** The bindings after the effects [l], from [b]. *)
Definition replay (l : list Effect) (b : Bindings) : Bindings :=
  fold_left (λ b e, step_bindings e b) l b.

(** What the collaborators answer during one call of an operation. *)
Record Env := {
  sdk_isInitialized : bool;
  sdk_init_result : Settled ();
  sdk_connect_result : Settled (option (list Address));
  sdk_getProvider : option pid;
  sdk_isExtensionActive : bool;
  (** [_getConnection()]: [None] for [undefined], [Some b] for a connection
      whose [isAuthorized()] is [b]. *)
  sdk_connection : option bool;
  (** The signals emitted, in order, from the moment the connector waits. *)
  sdk_signals : list Signal;
  provider_chainId : pid → option string;
  (** [request] by method, at the type the cast gives the result; [None] for
      [null] or [undefined]. *)
  request_eth_requestAccounts : pid → Settled (option (list Address));
  request_eth_chainId : pid → Settled (option string);
  base_switchChain : number → Settled number;    (* the [id] of the chain returned *)
  base_isChainUnsupported : number → bool;
  base_isUserRejectedRequestError : error → bool;
}.

(** *** Asynchronous operations

    An [async] function as a state transformer that returns, throws, or
    never settles. *)
Inductive Outcome (A : Type) :=
  | Returned (a : A)
  | Thrown (e : error)
  | Pending.
Arguments Returned {A} a.
Arguments Thrown {A} e.
Arguments Pending {A}.

Definition Async (A : Type) : Type := World → Outcome A * World.

Definition ret {A} (a : A) : Async A := λ w, (Returned a, w).

Definition bind {A B} (m : Async A) (k : A → Async B) : Async B :=
  λ w,
    match m w with
    | (Returned a, w') => k a w'
    | (Thrown e, w') => (Thrown e, w')
    | (Pending, w') => (Pending, w')
    end.

Notation "'let*' x ':=' m 'in' k" := (bind m (λ x, k))
  (at level 10, x name, m at level 100, k at level 200).
Notation "m ';;;' k" := (bind m (λ _, k))
  (at level 100, k at level 200, right associativity).

Definition await {A} (s : Settled A) : Async A :=
  λ w,
    match s with
    | Fulfilled a => (Returned a, w)
    | Rejected e => (Thrown e, w)
    | Never => (Pending, w)
    end.

Definition perform (e : Effect) : Async () := λ w, (Returned (), apply_effect e w).

Definition read {A} (field : Connector → A) : Async A :=
  λ w, (Returned (field (this w)), w).

Definition try_catch {A} (m : Async A) (handle : error → Async A) : Async A :=
  λ w,
    match m w with
    | (Thrown e, w') => handle e w'
    | r => r
    end.

Definition throw {A} (e : error) : Async A := λ w, (Thrown e, w).

(** [this.#provider?.m(...)] for a call [m] whose result is dropped. *)
Definition on_provider (call : pid → Effect) : Async () :=
  let* p := read this_provider in
  match p with
  | Some p => perform (call p)
  | None => ret ()
  end.

(* ===================================================================== *)
(** ** Operations both versions share *)
(* ===================================================================== *)

(** [#updateProviderListeners] (part_000 lines 72-89, metaMaskSDK.ts lines
    70-93). *)
Definition updateProviderListeners (env : Env) : Async () :=
  perform enter_updateProviderListeners ;;;
  (let* p := read this_provider in
   if defined p then
     on_provider (λ p, removeListener p "accountsChanged" onAccountsChanged) ;;;
     on_provider (λ p, removeListener p "chainChanged" onChainChanged) ;;;
     on_provider (λ p, removeListener p "disconnect" onDisconnect)
   else ret ()) ;;;
  perform (set_provider (sdk_getProvider env)) ;;;
  on_provider (λ p, on p "accountsChanged" onAccountsChanged) ;;;
  on_provider (λ p, on p "chainChanged" onChainChanged) ;;;
  on_provider (λ p, on p "disconnect" onDisconnect).

(** [if (!this.#sdk.isInitialized()) await this.#sdk.init()]. *)
Definition ensure_initialized (env : Env) : Async () :=
  if negb (sdk_isInitialized env) then
    perform sdk_init ;;; await (sdk_init_result env)
  else ret ().

(** [getProvider] (part_000 lines 128-136, metaMaskSDK.ts lines 95-103). *)
Definition getProvider (env : Env) : Async (option pid) :=
  ensure_initialized env ;;;
  (let* p := read this_provider in
   if defined p then ret ()
   else perform (set_provider (sdk_getProvider env))) ;;;
  read this_provider.

(** Modelled from the spec: the base connector's [disconnect()] is not under
    src/; section 4.5 says it "clears the persisted flag and its own listener
    state": the three handlers leave the provider the connector holds and the
    flag leaves the storage. *)
Definition super_disconnect : Async () :=
  on_provider (λ p, removeListener p "accountsChanged" onAccountsChanged) ;;;
  on_provider (λ p, removeListener p "chainChanged" onChainChanged) ;;;
  on_provider (λ p, removeListener p "disconnect" onDisconnect) ;;;
  let* key := read this_shimDisconnectKey in
  perform (storage_removeItem key).

(** [disconnect] (part_000 lines 138-141, metaMaskSDK.ts lines 105-108). *)
Definition disconnect : Async () :=
  perform sdk_terminate ;;;
  super_disconnect.

(** *** The tail of [connect]: part_000 lines 170-204, metaMaskSDK.ts lines
    146-180 *)

Record Chain := {
  id : number;
  unsupported : bool;
}.

Record ConnectResponse := {
  isConnected : bool;
  account : Address;
  chain : Chain;
  provider : option pid;
}.

(** [accounts?.[0] ?? '0x']. *)
Definition selectedAccount (accounts : option (list Address)) : Address :=
  default "0x" (accounts ≫= head).

(** [providerChainId], from the provider's field or from [eth_chainId]. *)
Definition providerChainId (env : Env) : Async (option string) :=
  let* p := read this_provider in
  let field := p ≫= provider_chainId env in
  if negb (truthy field) then
    match p with
    | Some p => perform (request p "eth_chainId") ;;; await (request_eth_chainId env p)
    | None => ret None
    end
  else ret field.

Definition reconcileChain (env : Env) (chainId : option number) : Async Chain :=
  let* v := providerChainId env in
  perform (parseInt_called v) ;;;
  let chain := {| id := parseInt v; unsupported := false |} in
  match chainId with
  | Some requested =>
      if strict_neq (id chain) requested then
        perform (switchChain_called requested) ;;;
        let* newChain := await (base_switchChain env requested) in
        let unsupported := base_isChainUnsupported env newChain in
        ret {| id := newChain; unsupported := unsupported |}
      else ret chain
  | None => ret chain
  end.

(** [if (this.options?.shimDisconnect) this.storage?.setItem(key, true)]. *)
Definition persist_shimDisconnect : Async () :=
  let* options := read this_options in
  if default false (shimDisconnect <$> options) then
    let* storage := read this_storage in
    let* key := read this_shimDisconnectKey in
    if defined storage then perform (storage_setItem key true)
    else ret ()
  else ret ().

Definition connect_tail (env : Env) (chainId : option number)
    (accounts : option (list Address)) : Async ConnectResponse :=
  let selectedAccount := selectedAccount accounts in
  let* chain := reconcileChain env chainId in
  persist_shimDisconnect ;;;
  let* provider := read this_provider in
  ret {| isConnected := true; account := selectedAccount;
         chain := chain; provider := provider |}.

(** The [catch] block of [connect] (part_000 lines 205-212, metaMaskSDK.ts
    lines 181-188): what is thrown for the caught [e]. *)
Definition classify (env : Env) (e : error) : error :=
  if base_isUserRejectedRequestError env e then UserRejectedRequestError e
  else if code_is_32002 e then ResourceUnavailableRpcError e
  else e.

Definition connect_catch {A} (env : Env) (e : error) : Async A :=
  throw (classify env e).

(* ===================================================================== *)
(** ** Promises settled by one-shot listeners *)
(* ===================================================================== *)

(** A promise with boolean payload: its settled value, and how many times
    its [resolve] function was called. *)
Record Deferred := {
  settled : option bool;
  resolve_calls : nat;
}.

Definition fresh_promise : Deferred := {| settled := None; resolve_calls := 0 |}.

(** [resolve(v)]: only the first call settles the promise. *)
Definition resolve (v : bool) (d : Deferred) : Deferred :=
  {| settled := match settled d with
                | None => Some v
                | Some old => Some old
                end;
     resolve_calls := S (resolve_calls d) |}.

(** What [await] on the promise gives. *)
Definition awaited (d : Deferred) : Settled bool :=
  match settled d with
  | Some v => Fulfilled v
  | None => Never
  end.

(** [this.#sdk._getConnection()?.isAuthorized()] as a condition. *)
Definition isAuthorized (connection : option bool) : bool := default false connection.

(* ===================================================================== *)
(** ** src/unnamed/part_000 *)
(* ===================================================================== *)

Module SignalDriven.

(** Lines 31-67. *)
Definition constructor (ce : Construction)
    (options_ : option MetaMaskSDKConnectorOptions)
  : Constructed * list ConstructorStep :=
  if invalid_parameters options_ then (invalid_sdk_parameters, [])
  else
    let debug := options_ ≫= opt_debug in
    match options_ ≫= opt_sdk with
    | None =>
        match options_ ≫= opt_sdkOptions with
        | Some o => construct ce debug (new_MetaMaskSDK o) [construct_sdk o]
        | None => (invalid_sdk_parameters, [])   (* excluded by the guard *)
        end
    | Some s => construct ce debug s []
    end.

(** The promises and one-shot listeners of [#waitForSDK] (lines 99-125). *)
Record Wait := {
  outer : Deferred;              (* the promise [#waitForSDK] returns *)
  inner : Deferred;              (* the promise of [waitForAuthorized()] *)
  once_PROVIDER_UPDATE : bool;   (* the listener is still registered *)
  once_AUTHORIZED : bool;
}.

(** The executor, run synchronously by [new Promise]. *)
Definition executor (connection : option bool) : Wait :=
  let subscribed :=
    {| outer := fresh_promise; inner := fresh_promise;
       once_PROVIDER_UPDATE := true; once_AUTHORIZED := false |} in
  if isAuthorized connection then
    {| outer := resolve true (outer subscribed);
       inner := inner subscribed;
       once_PROVIDER_UPDATE := true;
       once_AUTHORIZED := false |}
  else
    {| outer := outer subscribed;
       inner := inner subscribed;
       once_PROVIDER_UPDATE := true;
       (* [_getConnection()?.getConnector().once(..)] *)
       once_AUTHORIZED := defined connection |}.

(** One signal is emitted: a registered one-shot listener is removed and
    run; the [then] callback of [waitForAuthorized()] runs right after the
    inner promise settles. *)
Definition deliver (st : Wait) (s : Signal) : Wait :=
  match s with
  | PROVIDER_UPDATE =>
      if once_PROVIDER_UPDATE st then
        {| outer := resolve true (outer st);
           inner := inner st;
           once_PROVIDER_UPDATE := false;
           once_AUTHORIZED := once_AUTHORIZED st |}
      else st
  | AUTHORIZED =>
      if once_AUTHORIZED st then
        {| outer := resolve true (outer st);
           inner := resolve true (inner st);
           once_PROVIDER_UPDATE := once_PROVIDER_UPDATE st;
           once_AUTHORIZED := false |}
      else st
  end.

Definition wait (connection : option bool) (signals : list Signal) : Wait :=
  fold_left deliver signals (executor connection).

(** [#waitForSDK] (lines 94-126). *)
Definition waitForSDK (env : Env) : Async bool :=
  let* debug := read this_debug in
  (if debug then perform (console_log "MetaMaskSDKConnector waiting for SDK validation")
   else ret ()) ;;;
  perform (sdk_once PROVIDER_UPDATE) ;;;
  (if once_AUTHORIZED (executor (sdk_connection env))
   then perform (sdk_once AUTHORIZED) else ret ()) ;;;
  await (awaited (outer (wait (sdk_connection env) (sdk_signals env)))).

(** The [try] block of [connect] (lines 152-204). *)
Definition connect_try (env : Env) (chainId : option number)
  : Async ConnectResponse :=
  ensure_initialized env ;;;
  (* the rejection of [this.#sdk.connect()] goes to an empty [catch] *)
  perform sdk_connect ;;;
  waitForSDK env ;;;
  perform authorization_confirmed ;;;
  updateProviderListeners env ;;;
  let* accounts :=
    let* p := read this_provider in
    match p with
    | Some p =>
        perform (request p "eth_requestAccounts") ;;;
        await (request_eth_requestAccounts env p)
    | None => ret None
    end in
  perform (accounts_obtained accounts) ;;;
  connect_tail env chainId accounts.

(** [connect] (lines 143-213). *)
Definition connect (env : Env) (chainId : option number)
  : Async ConnectResponse :=
  try_catch (connect_try env chainId) (connect_catch env).

End SignalDriven.

(* ===================================================================== *)
(** ** src/packages/connectors/src/metaMaskSDK.ts *)
(* ===================================================================== *)

Module TriggerAwaited.

(** Lines 25-65: the SDK options get [_source = 'wagmi'] before the
    instance is built. *)
Definition constructor (ce : Construction)
    (options_ : option MetaMaskSDKConnectorOptions)
  : Constructed * list ConstructorStep :=
  if invalid_parameters options_ then (invalid_sdk_parameters, [])
  else
    match options_ ≫= opt_sdk with
    | Some s => construct ce None s []
    | None =>
        let o :=
          default {| dappMetadata := Some "wagmi"; _source := None |}
                  (options_ ≫= opt_sdkOptions) in
        let o := {| dappMetadata := dappMetadata o; _source := Some "wagmi" |} in
        construct ce None (new_MetaMaskSDK o) [construct_sdk o]
    end.

(** The promise of [waitForAuthorized()] (lines 133-142) and its one-shot
    listener. *)
Record Wait := {
  promise : Deferred;
  once_authorized : bool;
}.

Definition executor (connection : option bool) : Wait :=
  {| promise := fresh_promise;
     once_authorized := defined connection |}.

Definition deliver (st : Wait) (s : Signal) : Wait :=
  match s with
  | AUTHORIZED =>
      if once_authorized st then
        {| promise := resolve true (promise st); once_authorized := false |}
      else st
  | PROVIDER_UPDATE => st      (* nothing listens *)
  end.

Definition wait (connection : option bool) (signals : list Signal) : Wait :=
  fold_left deliver signals (executor connection).

(** Whether lines 129-132 decide to wait. *)
Definition must_wait (env : Env) : bool :=
  negb (sdk_isExtensionActive env) && negb (isAuthorized (sdk_connection env)).

Definition waitForAuthorized (env : Env) : Async bool :=
  (if once_authorized (executor (sdk_connection env))
   then perform (sdk_once AUTHORIZED) else ret ()) ;;;
  await (awaited (promise (wait (sdk_connection env) (sdk_signals env)))).

(** Lines 128-144. *)
Definition wait_if_unauthorized (env : Env) : Async () :=
  if must_wait env then waitForAuthorized env ;;; ret () else ret ().

(** The [try] block of [connect] (lines 119-180). *)
Definition connect_try (env : Env) (chainId : option number)
  : Async ConnectResponse :=
  ensure_initialized env ;;;
  perform sdk_connect ;;;
  let* accounts := await (sdk_connect_result env) in
  perform (accounts_obtained accounts) ;;;
  updateProviderListeners env ;;;
  wait_if_unauthorized env ;;;
  perform authorization_confirmed ;;;
  connect_tail env chainId accounts.

(** [connect] (lines 110-189). *)
Definition connect (env : Env) (chainId : option number)
  : Async ConnectResponse :=
  try_catch (connect_try env chainId) (connect_catch env).

End TriggerAwaited.

(* ===================================================================== *)
(** ** Sequences of operations *)
(* ===================================================================== *)

Inductive Version :=
  | part_000          (* [SignalDriven] *)
  | metaMaskSDK_ts.   (* [TriggerAwaited] *)

Definition connect (v : Version) : Env → option number → Async ConnectResponse :=
  match v with
  | part_000 => SignalDriven.connect
  | metaMaskSDK_ts => TriggerAwaited.connect
  end.

(** A call of a public method, with what the collaborators answer during it. *)
Inductive Operation :=
  | call_connect (env : Env) (chainId : option number)
  | call_getProvider (env : Env)
  | call_disconnect
  (** The private resync routine on its own. *)
  | call_updateProviderListeners (env : Env).

Definition run_operation (v : Version) (o : Operation) (w : World) : World :=
  match o with
  | call_connect env chainId => (connect v env chainId w).2
  | call_getProvider env => (getProvider env w).2
  | call_disconnect => (disconnect w).2
  | call_updateProviderListeners env => (updateProviderListeners env w).2
  end.

Definition run (v : Version) (ops : list Operation) (w : World) : World :=
  fold_left (λ w o, run_operation v o w) ops w.

(* ===================================================================== *)
(** ** The listener invariant *)
(* ===================================================================== *)

(** At most one set of the three tracked handlers is attached, and only to
    the provider the connector holds: a tracked handler is subscribed at most
    once to anything, and where it is subscribed it is on the held provider
    under its own event. *)
Definition single_set (b : Bindings) : Prop :=
  ∀ p ev h, is_tracked h = true →
    (attached b.2 p ev h ≤ 1)%nat ∧
    ((0 < attached b.2 p ev h)%nat → b.1 = Some p ∧ In (ev, h) tracked).

(** No tracked handler is subscribed anywhere. *)
Definition detached (em : Emitters) : Prop :=
  ∀ p ev h, is_tracked h = true → attached em p ev h = 0%nat.

(** The three handlers are attached exactly once each to [cur], under their
    own events, and nowhere else. *)
Definition bound_once (cur : option pid) (em : Emitters) : Prop :=
  ∀ p ev h, is_tracked h = true →
    attached em p ev h =
      if bool_decide (cur = Some p ∧ In (ev, h) tracked) then 1%nat else 0%nat.

(** From [w0] to [w] the connector performed the effects [delta], the
    bindings of [w] are those of [w0] after [delta], and [single_set] held
    after each one of them. *)
Definition single_set_throughout (w0 w : World) : Prop :=
  ∃ delta,
    log w = log w0 ++ delta ∧
    bindings w = replay delta (bindings w0) ∧
    ∀ past rest, delta = past ++ rest → single_set (replay past (bindings w0)).

(* ===================================================================== *)
(** ** Where the resync sits in the log of a [connect] *)
(* ===================================================================== *)

Definition is_resync (e : Effect) : bool :=
  match e with
  | enter_updateProviderListeners => true
  | _ => false
  end.

Definition is_authorization (e : Effect) : bool :=
  match e with
  | authorization_confirmed => true
  | _ => false
  end.

(** The account list is asked for or in hand. *)
Definition is_accounts (e : Effect) : bool :=
  match e with
  | accounts_obtained _ => true
  | request _ method => String.eqb method "eth_requestAccounts"
  | _ => false
  end.

(** The chain id is asked for or in hand. *)
Definition is_chainId (e : Effect) : bool :=
  match e with
  | parseInt_called _ => true
  | request _ method => String.eqb method "eth_chainId"
  | _ => false
  end.

(** The effects before and after the first one that satisfies [f]. *)
Fixpoint split_at (f : Effect → bool) (l : list Effect)
  : option (list Effect * list Effect) :=
  match l with
  | [] => None
  | e :: t =>
      if f e then Some ([], t)
      else (λ '(before, after), (e :: before, after)) <$> split_at f t
  end.

(** The resync routine is entered exactly once; every kind of effect in
    [earlier] happens, and only before that; every kind in [later] happens,
    and only after. *)
Definition resync_once_between (earlier later : list (Effect → bool))
    (l : list Effect) : bool :=
  match split_at is_resync l with
  | Some (before, after) =>
      forallb (λ e, negb (is_resync e)) after
      && forallb (λ f, existsb f before && forallb (λ e, negb (f e)) after) earlier
      && forallb (λ f, existsb f after && forallb (λ e, negb (f e)) before) later
  | None => false
  end.

(* ===================================================================== *)
(** ** The authorization wait as a race *)
(* ===================================================================== *)

(** One of the three paths has settled: the synchronous check, the
    provider-update signal, or the [authorized] signal of an existing
    connection. *)
Definition some_path_settled (connection : option bool) (signals : list Signal)
  : bool :=
  isAuthorized connection
  || bool_decide (PROVIDER_UPDATE ∈ signals)
  || (defined connection && bool_decide (AUTHORIZED ∈ signals)).

(* ===================================================================== *)
(** ** Dispatch on the version, and record updates used in statements *)
(* ===================================================================== *)

Definition constructor (v : Version)
  : Construction → option MetaMaskSDKConnectorOptions →
    Constructed * list ConstructorStep :=
  match v with
  | part_000 => SignalDriven.constructor
  | metaMaskSDK_ts => TriggerAwaited.constructor
  end.

Definition connect_try (v : Version)
  : Env → option number → Async ConnectResponse :=
  match v with
  | part_000 => SignalDriven.connect_try
  | metaMaskSDK_ts => TriggerAwaited.connect_try
  end.

(** [env] with another end for the promise of [sdk.connect()]. *)
Definition with_sdk_connect_result (env : Env)
    (s : Settled (option (list Address))) : Env :=
  {| sdk_isInitialized := sdk_isInitialized env;
     sdk_init_result := sdk_init_result env;
     sdk_connect_result := s;
     sdk_getProvider := sdk_getProvider env;
     sdk_isExtensionActive := sdk_isExtensionActive env;
     sdk_connection := sdk_connection env;
     sdk_signals := sdk_signals env;
     provider_chainId := provider_chainId env;
     request_eth_requestAccounts := request_eth_requestAccounts env;
     request_eth_chainId := request_eth_chainId env;
     base_switchChain := base_switchChain env;
     base_isChainUnsupported := base_isChainUnsupported env;
     base_isUserRejectedRequestError := base_isUserRejectedRequestError env |}.

(** Where the string handed to [parseInt] comes from, for a connector that
    holds [p]: the provider's [chainId] field when it is truthy, else what
    [eth_chainId] resolved to; nothing when no provider is held. *)
Definition obtained_from_provider (env : Env) (p : option pid)
    (s : option string) : Prop :=
  match p with
  | Some p =>
      if truthy (provider_chainId env p) then s = provider_chainId env p
      else request_eth_chainId env p = Fulfilled s
  | None => s = None
  end.

(** The account list [connect] selects from: what [eth_requestAccounts]
    resolved to on the provider held after the resync in part_000, what
    [sdk.connect()] resolved to in metaMaskSDK.ts. *)
Definition account_list (v : Version) (env : Env)
    (accounts : option (list Address)) : Prop :=
  match v with
  | part_000 =>
      match sdk_getProvider env with
      | Some p => request_eth_requestAccounts env p = Fulfilled accounts
      | None => accounts = None
      end
  | metaMaskSDK_ts => sdk_connect_result env = Fulfilled accounts
  end.

(* ===================================================================== *)
(** ** Concrete scenarios *)
(* ===================================================================== *)

(** A wallet whose SDK is initialized and hands out provider [p]; the
    connection, the signals, the account list, the provider's [chainId]
    field and the answer to [eth_chainId] vary. Switching always succeeds,
    chain 137 is not among the supported chains, and the base connector takes
    code 4001 for a user rejection. *)
Definition wallet_with (p : option pid) (connection : option bool)
    (signals : list Signal) (accounts : option (list Address))
    (field answer : option string) : Env :=
  {| sdk_isInitialized := true;
     sdk_init_result := Fulfilled ();
     sdk_connect_result := Fulfilled accounts;
     sdk_getProvider := p;
     sdk_isExtensionActive := false;
     sdk_connection := connection;
     sdk_signals := signals;
     provider_chainId := λ _, field;
     request_eth_requestAccounts := λ _, Fulfilled accounts;
     request_eth_chainId := λ _, Fulfilled answer;
     base_switchChain := λ n, Fulfilled n;
     base_isChainUnsupported := λ n, bool_decide (n = Num 137);
     base_isUserRejectedRequestError := λ e, bool_decide (error_code e = Some 4001) |}.

(** On chain 1 with two accounts, authorized through the [authorized]
    signal. *)
Definition wallet : Env :=
  wallet_with (Some 2%positive) (Some false) [AUTHORIZED]
    (Some ["0xA11ce"; "0xB0b"]) (Some "0x1") (Some "0x1").

(** The same when the only signal is the provider update. *)
Definition wallet_provider_update_only : Env :=
  wallet_with (Some 2%positive) (Some false) [PROVIDER_UPDATE]
    (Some ["0xA11ce"; "0xB0b"]) (Some "0x1") (Some "0x1").

(** The same when the connection is authorized from the start and nothing is
    emitted. *)
Definition wallet_already_authorized : Env :=
  wallet_with (Some 2%positive) (Some true) []
    (Some ["0xA11ce"; "0xB0b"]) (Some "0x1") (Some "0x1").

(** The same when the SDK hands out no provider. *)
Definition wallet_without_provider : Env :=
  wallet_with None (Some false) [AUTHORIZED]
    (Some ["0xA11ce"; "0xB0b"]) (Some "0x1") (Some "0x1").

(** The same when the provider's [chainId] field is unset and [eth_chainId]
    resolves to [null]. *)
Definition wallet_without_chainId : Env :=
  wallet_with (Some 2%positive) (Some false) [AUTHORIZED]
    (Some ["0xA11ce"; "0xB0b"]) None None.

(** The same when the wallet has no account. *)
Definition wallet_without_accounts : Env :=
  wallet_with (Some 2%positive) (Some false) [AUTHORIZED]
    (Some []) (Some "0x1") (Some "0x1").

Definition busy : error := ProviderRpcError "Request already pending" (Some (-32002)).
Definition declined : error := ProviderRpcError "User rejected the request" (Some 4001).
Definition offline : error := ProviderRpcError "socket closed" None.

(** A connector built around a caller's SDK instance whose provider is 1,
    with an empty storage, before any operation. *)
Definition fresh_connector : Connector :=
  {| this_sdk := prebuilt 1;
     this_provider := Some 1%positive;
     this_debug := false;
     this_options :=
       Some {| name := "MetaMask"; shimDisconnect := true;
               options_getProvider := Some 1%positive |};
     this_storage := Some ∅;
     this_shimDisconnectKey := "metaMaskSDK.shimDisconnect" |}.

Definition fresh_world : World :=
  {| this := fresh_connector; emitters := ∅; log := [] |}.

Definition construction : Construction :=
  {| sdk_provider := λ _, Some 1%positive;
     base_storage := Some ∅;
     base_shimDisconnectKey := "metaMaskSDK.shimDisconnect" |}.

(* ===================================================================== *)
(** ** Reasoning about operations *)
(* ===================================================================== *)

(** All the effects [l], in order. *)
Definition perform_all (l : list Effect) (w : World) : World :=
  fold_left (λ w e, apply_effect e w) l w.

(** What [#updateProviderListeners] performs for a connector that holds
    [cur] when the SDK hands out [new]. *)
Definition removals (p : pid) : list Effect :=
  [ removeListener p "accountsChanged" onAccountsChanged;
    removeListener p "chainChanged" onChainChanged;
    removeListener p "disconnect" onDisconnect ].

Definition subscriptions (p : pid) : list Effect :=
  [ on p "accountsChanged" onAccountsChanged;
    on p "chainChanged" onChainChanged;
    on p "disconnect" onDisconnect ].

Definition resync_tail (cur new : option pid) : list Effect :=
  from_option removals [] cur ++ set_provider new :: from_option subscriptions [] new.

Definition resync_effects (cur new : option pid) : list Effect :=
  enter_updateProviderListeners :: resync_tail cur new.

(** [m] preserves [P], whatever its outcome. *)
Definition keeps {A} (P : World → Prop) (m : Async A) : Prop :=
  ∀ w, P w → P (m w).2.

(** From [P], [m] returns in [Q] or ends otherwise in [X]. *)
Definition hoare {A} (P : World → Prop) (m : Async A)
    (Q : A → World → Prop) (X : World → Prop) : Prop :=
  ∀ w, P w →
    match m w with
    | (Returned a, w') => Q a w'
    | (_, w') => X w'
    end.

(** [w] is [w0] after effects that all satisfy [φ]. *)
Definition logged (φ : Effect → bool) (w0 w : World) : Prop :=
  ∃ fx, w = perform_all fx w0 ∧ forallb φ fx = true.

(** The connector holds [q]. *)
Definition holding (q : option pid) (w : World) : Prop :=
  this_provider (this w) = q.

(** *** Kinds of effects *)

Definition any_effect (e : Effect) : bool := true.

(** Effects that leave [#provider] and the listener arrays alone. *)
Definition neutral (e : Effect) : bool :=
  match e with
  | removeListener _ _ _ | on _ _ _ | set_provider _ => false
  | _ => true
  end.

(** Calls on the SDK and the console. *)
Definition quiet (e : Effect) : bool :=
  match e with
  | sdk_init | sdk_connect | sdk_once _ | console_log _ => true
  | _ => false
  end.

Definition accounts_request (e : Effect) : bool :=
  match e with
  | request _ method => String.eqb method "eth_requestAccounts"
  | _ => false
  end.

Definition chain_request (e : Effect) : bool :=
  match e with
  | request _ method => String.eqb method "eth_chainId"
  | _ => false
  end.

Definition after_parse (e : Effect) : bool :=
  match e with
  | switchChain_called _ | storage_setItem _ _ => true
  | _ => false
  end.

Definition no_storage (e : Effect) : bool :=
  match e with
  | storage_setItem _ _ | storage_removeItem _ => false
  | _ => true
  end.

Definition no_parse (e : Effect) : bool :=
  match e with
  | parseInt_called _ => false
  | _ => true
  end.

(** Everything but a call of [parseInt] on something else than [s]. *)
Definition parse_only (s : option string) (e : Effect) : bool :=
  match e with
  | parseInt_called x => bool_decide (x = s)
  | _ => true
  end.

(** The calls of [parseInt] between [w0] and [w] are on what the provider
    [p] gave. *)
Definition parses_from (env : Env) (p : option pid) (w0 w : World) : Prop :=
  ∃ fx, w = perform_all fx w0 ∧
    ∀ x, In (parseInt_called x) fx → obtained_from_provider env p x.

(** *** A session, for examples *)

Definition session : list Operation :=
  [ call_connect wallet None;
    call_getProvider wallet;
    call_disconnect;
    call_connect wallet_without_provider (Some (Num 137)) ].

(** What [connect] returns to the wallet of the examples on provider [p]. *)
Definition connected (first : Address) (chainId : number) (unsupported : bool)
    (p : option pid) : ConnectResponse :=
  {| isConnected := true; account := first;
     chain := {| id := chainId; unsupported := unsupported |};
     provider := p |}.

(* ===================================================================== *)
(** ** Initialization, as [connect] and [getProvider] go through it *)
(* ===================================================================== *)

(** How [if (!this.#sdk.isInitialized()) await this.#sdk.init()] ends: at
    once on an initialized SDK, as [init()] ends otherwise. *)
Definition init_outcome (env : Env) : Settled () :=
  if sdk_isInitialized env then Fulfilled () else sdk_init_result env.

(** The calls it makes. *)
Definition init_effects (env : Env) : list Effect :=
  if sdk_isInitialized env then [] else [sdk_init].

(** A call that ends like the promise [s] and has not produced a value. *)
Definition outcome_of {A B} (s : Settled A) (k : A → Outcome B) : Outcome B :=
  match s with
  | Fulfilled a => k a
  | Rejected e => Thrown e
  | Never => Pending
  end.

(* ===================================================================== *)
(** ** [connect] as an outcome and a list of effects

    What a call of [connect] answers and what it performs, written as
    functions of what the collaborators answer. [connect_run] below proves
    that the operations defined above compute exactly these. *)
(* ===================================================================== *)

(** *** The waits *)

(** The calls [#waitForSDK] makes before it awaits (part_000 lines 95-119). *)
Definition waitForSDK_effects (debug : bool) (connection : option bool)
  : list Effect :=
  (if debug then [console_log "MetaMaskSDKConnector waiting for SDK validation"]
   else []) ++
  [sdk_once PROVIDER_UPDATE] ++
  (if SignalDriven.once_AUTHORIZED (SignalDriven.executor connection)
   then [sdk_once AUTHORIZED] else []).

(** Whether lines 128-144 of metaMaskSDK.ts get past their wait. *)
Definition authorized_in_time (env : Env) : bool :=
  sdk_isExtensionActive env || isAuthorized (sdk_connection env)
  || (defined (sdk_connection env) && bool_decide (AUTHORIZED ∈ sdk_signals env)).

Definition wait_if_unauthorized_effects (env : Env) : list Effect :=
  if TriggerAwaited.must_wait env
     && TriggerAwaited.once_authorized (TriggerAwaited.executor (sdk_connection env))
  then [sdk_once AUTHORIZED] else [].

(** *** The account list *)

(** The promise the account list comes from, for a connector that holds
    [sdk.getProvider()] after the resync. *)
Definition accounts_source (v : Version) (env : Env)
  : Settled (option (list Address)) :=
  match v with
  | part_000 =>
      match sdk_getProvider env with
      | Some p => request_eth_requestAccounts env p
      | None => Fulfilled None
      end
  | metaMaskSDK_ts => sdk_connect_result env
  end.

(** The request for it that part_000 sends to the provider it holds. *)
Definition accounts_request_effects (p : option pid) : list Effect :=
  match p with
  | Some p => [request p "eth_requestAccounts"]
  | None => []
  end.

(** *** The tail *)

(** The promise the argument of [parseInt] comes from, for a connector that
    holds [p]. *)
Definition chainId_source (env : Env) (p : option pid) : Settled (option string) :=
  match p with
  | Some p =>
      if truthy (provider_chainId env p) then Fulfilled (provider_chainId env p)
      else request_eth_chainId env p
  | None => Fulfilled None
  end.

Definition chainId_effects (env : Env) (p : option pid) : list Effect :=
  match p with
  | Some p =>
      if truthy (provider_chainId env p) then [] else [request p "eth_chainId"]
  | None => []
  end.

(** The chain [switchChain] is called with, if it is called. *)
Definition switch_needed (chainId : option number) (s : option string)
  : option number :=
  match chainId with
  | Some requested => if strict_neq (parseInt s) requested then Some requested else None
  | None => None
  end.

Definition chain_result (env : Env) (chainId : option number) (s : option string)
  : Settled Chain :=
  match switch_needed chainId s with
  | Some requested =>
      match base_switchChain env requested with
      | Fulfilled n =>
          Fulfilled {| id := n; unsupported := base_isChainUnsupported env n |}
      | Rejected e => Rejected e
      | Never => Never
      end
  | None => Fulfilled {| id := parseInt s; unsupported := false |}
  end.

Definition chain_effects (chainId : option number) (s : option string)
  : list Effect :=
  parseInt_called s ::
  match switch_needed chainId s with
  | Some requested => [switchChain_called requested]
  | None => []
  end.

Definition persist_effects (c : Connector) : list Effect :=
  if default false (shimDisconnect <$> this_options c) && defined (this_storage c)
  then [storage_setItem (this_shimDisconnectKey c) true] else [].

Definition tail_outcome (env : Env) (chainId : option number) (p : option pid)
    (accounts : option (list Address)) : Outcome ConnectResponse :=
  outcome_of (chainId_source env p) (λ s,
    outcome_of (chain_result env chainId s) (λ chain,
      Returned {| isConnected := true; account := selectedAccount accounts;
                  chain := chain; provider := p |})).

Definition tail_effects (env : Env) (chainId : option number) (p : option pid)
    (c : Connector) : list Effect :=
  chainId_effects env p ++
  match chainId_source env p with
  | Fulfilled s =>
      chain_effects chainId s ++
      match chain_result env chainId s with
      | Fulfilled _ => persist_effects c
      | _ => []
      end
  | _ => []
  end.

(** *** The whole call *)

(** What the [catch] block makes of an outcome of the [try] block. *)
Definition caught (env : Env) {A} (o : Outcome A) : Outcome A :=
  match o with
  | Thrown e => Thrown (classify env e)
  | _ => o
  end.

Definition connect_try_outcome (v : Version) (env : Env) (chainId : option number)
  : Outcome ConnectResponse :=
  outcome_of (init_outcome env) (λ _,
    match v with
    | part_000 =>
        if some_path_settled (sdk_connection env) (sdk_signals env) then
          outcome_of (accounts_source part_000 env)
            (tail_outcome env chainId (sdk_getProvider env))
        else Pending
    | metaMaskSDK_ts =>
        outcome_of (accounts_source metaMaskSDK_ts env) (λ accounts,
          if authorized_in_time env then
            tail_outcome env chainId (sdk_getProvider env) accounts
          else Pending)
    end).

Definition connect_outcome (v : Version) (env : Env) (chainId : option number)
  : Outcome ConnectResponse :=
  caught env (connect_try_outcome v env chainId).

Definition connect_effects (v : Version) (env : Env) (chainId : option number)
    (c : Connector) : list Effect :=
  let tail := tail_effects env chainId (sdk_getProvider env) c in
  let resync := resync_effects (this_provider c) (sdk_getProvider env) in
  init_effects env ++
  match init_outcome env with
  | Fulfilled _ =>
      sdk_connect ::
      match v with
      | part_000 =>
          waitForSDK_effects (this_debug c) (sdk_connection env) ++
          if some_path_settled (sdk_connection env) (sdk_signals env) then
            authorization_confirmed :: resync ++
            accounts_request_effects (sdk_getProvider env) ++
            match accounts_source part_000 env with
            | Fulfilled accounts => accounts_obtained accounts :: tail
            | _ => []
            end
          else []
      | metaMaskSDK_ts =>
          match accounts_source metaMaskSDK_ts env with
          | Fulfilled accounts =>
              accounts_obtained accounts :: resync ++
              wait_if_unauthorized_effects env ++
              if authorized_in_time env then authorization_confirmed :: tail
              else []
          | _ => []
          end
      end
  | _ => []
  end.

(** [m] from [w] ends with [o] after performing [fx]. *)
Definition runs {A} (m : Async A) (w : World) (o : Outcome A) (fx : list Effect)
  : Prop :=
  m w = (o, perform_all fx w).

(** *** Kinds of calls *)

Definition is_sdk_init (e : Effect) : bool :=
  match e with
  | sdk_init => true
  | _ => false
  end.

(** [sdk.init()] and [sdk.connect()]. *)
Definition sdk_trigger (e : Effect) : bool :=
  match e with
  | sdk_init | sdk_connect => true
  | _ => false
  end.

Definition is_console_log (e : Effect) : bool :=
  match e with
  | console_log _ => true
  | _ => false
  end.

(** What the waits do: the console line and the one-shot subscriptions. *)
Definition wait_call (e : Effect) : bool :=
  match e with
  | console_log _ | sdk_once _ => true
  | _ => false
  end.

Definition is_sdk_once (e : Effect) : bool :=
  match e with
  | sdk_once _ => true
  | _ => false
  end.

(** What [#updateProviderListeners] does. *)
Definition resync_call (e : Effect) : bool :=
  match e with
  | enter_updateProviderListeners | removeListener _ _ _ | set_provider _
  | on _ _ _ => true
  | _ => false
  end.

Definition is_request (e : Effect) : bool :=
  match e with
  | request _ _ => true
  | _ => false
  end.

(** [parseInt] and [switchChain]. *)
Definition chain_call (e : Effect) : bool :=
  match e with
  | parseInt_called _ | switchChain_called _ => true
  | _ => false
  end.

Definition is_switchChain (e : Effect) : bool :=
  match e with
  | switchChain_called _ => true
  | _ => false
  end.

Definition is_storage_setItem (e : Effect) : bool :=
  match e with
  | storage_setItem _ _ => true
  | _ => false
  end.

(** Calls that change a listener array or [#provider]. *)
Definition rebinds (e : Effect) : bool := negb (neutral e).

(** Calls on the storage. *)
Definition on_storage (e : Effect) : bool := negb (no_storage e).

(** Whether a [connect] gets as far as the resync: initialization succeeds
    and then, in part_000, the authorization wait is over; in metaMaskSDK.ts,
    [sdk.connect()] resolves. *)
Definition reaches_resync (v : Version) (env : Env) : bool :=
  match init_outcome env with
  | Fulfilled _ =>
      match v with
      | part_000 => some_path_settled (sdk_connection env) (sdk_signals env)
      | metaMaskSDK_ts =>
          match sdk_connect_result env with
          | Fulfilled _ => true
          | _ => false
          end
      end
  | _ => false
  end.

(** *** A wallet whose user declines

    The SDK of the examples, authorized from the start, on provider 2 and
    chain 1, but the user turns the connection down: the account request and
    [sdk.connect()] are rejected with code 4001, and [switchChain] is
    rejected with code -32002. *)
Definition wallet_declining : Env :=
  {| sdk_isInitialized := true;
     sdk_init_result := Fulfilled ();
     sdk_connect_result := Rejected declined;
     sdk_getProvider := Some 2%positive;
     sdk_isExtensionActive := false;
     sdk_connection := Some true;
     sdk_signals := [];
     provider_chainId := λ _, Some "0x1";
     request_eth_requestAccounts := λ _, Rejected declined;
     request_eth_chainId := λ _, Fulfilled (Some "0x1");
     base_switchChain := λ _, Rejected busy;
     base_isChainUnsupported := λ n, bool_decide (n = Num 137);
     base_isUserRejectedRequestError := λ e, bool_decide (error_code e = Some 4001) |}.

(** *** The effects of any operation *)

Definition getProvider_effects (env : Env) (c : Connector) : list Effect :=
  init_effects env ++
  match init_outcome env, this_provider c with
  | Fulfilled _, None => [set_provider (sdk_getProvider env)]
  | _, _ => []
  end.

Definition disconnect_effects (c : Connector) : list Effect :=
  sdk_terminate ::
  from_option removals [] (this_provider c) ++
  [storage_removeItem (this_shimDisconnectKey c)].

Definition operation_effects (v : Version) (o : Operation) (c : Connector)
  : list Effect :=
  match o with
  | call_connect env chainId => connect_effects v env chainId c
  | call_getProvider env => getProvider_effects env c
  | call_disconnect => disconnect_effects c
  | call_updateProviderListeners env =>
      resync_effects (this_provider c) (sdk_getProvider env)
  end.

(** *** Listeners the connector does not manage *)

(** [h] is the handler the connector subscribes to [ev]. *)
Definition manages (ev : string) (h : handler) : bool :=
  existsb (λ t, String.eqb ev t.1 && bool_decide (h = t.2)) tracked.

(** The listeners of an event that are not the connector's, in order. *)
Definition others (ev : string) (l : list handler) : list handler :=
  List.filter (λ h, negb (manages ev h)) l.

(** Subscribing or unsubscribing, only of a handler under its own event. *)
Definition own_subscriptions (e : Effect) : bool :=
  match e with
  | on _ ev h | removeListener _ ev h => manages ev h
  | _ => true
  end.

(** *** Chain ids as wallets write them *)

(** The notation of a chain id in [eth_chainId] and in the provider's
    [chainId] field: [0x] and the hexadecimal digits of the number, lower
    case, without leading zeros (what [toString(16)] prints). *)
Definition hex (n : N) : string :=
  "0x" ++ HexadecimalString.NilEmpty.string_of_uint (N.to_hex_uint n).

(** *** Where a failure of [connect] can come from *)

(** A promise that [connect] awaits ended as [s]: one of [init()],
    [sdk.connect()] in metaMaskSDK.ts, and, on the provider the SDK hands
    out, [eth_requestAccounts] in part_000 and [eth_chainId] when the
    [chainId] field is not populated, and [switchChain] for the requested
    chain. *)
Definition awaited_ends (v : Version) (env : Env) (chainId : option number)
    (ended : ∀ A, Settled A → Prop) : Prop :=
  (sdk_isInitialized env = false ∧ ended _ (sdk_init_result env)) ∨
  (v = metaMaskSDK_ts ∧ ended _ (sdk_connect_result env)) ∨
  (∃ p, sdk_getProvider env = Some p ∧
        ((v = part_000 ∧ ended _ (request_eth_requestAccounts env p)) ∨
         (truthy (provider_chainId env p) = false ∧
          ended _ (request_eth_chainId env p)))) ∨
  (∃ requested, chainId = Some requested ∧ ended _ (base_switchChain env requested)).


(* ===================================================================== *)
(** * Proofs *)
(* ===================================================================== *)

Arguments emitter_on : simpl never.
Arguments emitter_removeListener : simpl never.

(** ** Listener counts *)

Lemma count_occ_remove_first h x l :
  count_occ handler_eq_dec (remove_first h l) x =
    (count_occ handler_eq_dec l x - (if decide (h = x) then 1 else 0))%nat.
Proof.
  induction l as [|y t IH]; simpl.
  - by destruct (decide (h = x)).
  - destruct (decide (y = h)) as [->|Hy].
    + destruct (handler_eq_dec h x) as [->|Hx].
      * rewrite decide_True by done. lia.
      * rewrite decide_False by done. lia.
    + simpl. rewrite IH.
      destruct (handler_eq_dec y x) as [->|Hx]; [|done].
      rewrite decide_False by congruence. lia.
Qed.

Lemma listeners_insert (em : Emitters) p ev l p' ev' :
  listeners (<[(p, ev) := l]> em) p' ev' =
    if decide ((p, ev) = (p', ev')) then l else listeners em p' ev'.
Proof. unfold listeners. rewrite lookup_insert. by case_decide. Qed.

Lemma attached_on (em : Emitters) p ev h p' ev' h' :
  attached (emitter_on p ev h em) p' ev' h' =
    (attached em p' ev' h' +
       (if decide ((p, ev, h) = (p', ev', h')) then 1 else 0))%nat.
Proof.
  unfold attached, emitter_on. rewrite listeners_insert.
  destruct (decide ((p, ev) = (p', ev'))) as [Heq|Hne].
  - injection Heq as -> ->. rewrite count_occ_app. simpl.
    destruct (handler_eq_dec h h') as [->|Hh].
    + by rewrite decide_True.
    + rewrite decide_False by congruence. done.
  - rewrite decide_False by congruence. lia.
Qed.

Lemma attached_removeListener (em : Emitters) p ev h p' ev' h' :
  attached (emitter_removeListener p ev h em) p' ev' h' =
    (attached em p' ev' h' -
       (if decide ((p, ev, h) = (p', ev', h')) then 1 else 0))%nat.
Proof.
  unfold attached, emitter_removeListener. rewrite listeners_insert.
  destruct (decide ((p, ev) = (p', ev'))) as [Heq|Hne].
  - injection Heq as -> ->.
    rewrite count_occ_rev, count_occ_remove_first, count_occ_rev.
    destruct (decide (h = h')) as [->|Hh].
    + by rewrite decide_True.
    + by rewrite decide_False by congruence.
  - rewrite decide_False by congruence. lia.
Qed.

(** ** The invariant along the steps of a resync *)

Lemma single_set_removeListener cur em p ev h :
  single_set (cur, em) → single_set (cur, emitter_removeListener p ev h em).
Proof.
  intros H p' ev' h' Ht. specialize (H p' ev' h' Ht). simpl in *.
  rewrite attached_removeListener. destruct H as [H1 H2].
  split; [lia|]. intros H. apply H2. lia.
Qed.

Lemma single_set_detached cur em : detached em → single_set (cur, em).
Proof. intros H p ev h Ht. simpl. rewrite (H p ev h Ht). split; lia. Qed.

Lemma single_set_None em : single_set (None, em) → detached em.
Proof.
  intros H p ev h Ht. destruct (H p ev h Ht) as [H1 H2]. simpl in *.
  destruct (attached em p ev h); [done|]. destruct H2 as [? _]; [lia|done].
Qed.

(** Once the three removals are done nothing tracked is left anywhere. *)
Lemma detached_removals p em :
  single_set (Some p, em) →
  detached
    (emitter_removeListener p "disconnect" onDisconnect
       (emitter_removeListener p "chainChanged" onChainChanged
          (emitter_removeListener p "accountsChanged" onAccountsChanged em))).
Proof.
  intros H p' ev' h' Ht. rewrite !attached_removeListener.
  destruct (H p' ev' h' Ht) as [H1 H2]. simpl in *.
  destruct (attached em p' ev' h') as [|[|n]] eqn:E; [done| |lia].
  destruct H2 as [Hp Hin]; [lia|]. simplify_eq.
  destruct Hin as [?|[?|[?|[]]]]; simplify_eq;
    repeat case_decide; simpl; congruence.
Qed.

(** The subscriptions, one after the other, from a detached state. *)
Lemma bound_once_subscriptions q em :
  detached em →
  single_set (Some q, emitter_on q "accountsChanged" onAccountsChanged em) ∧
  single_set
    (Some q,
     emitter_on q "chainChanged" onChainChanged
       (emitter_on q "accountsChanged" onAccountsChanged em)) ∧
  bound_once (Some q)
    (emitter_on q "disconnect" onDisconnect
       (emitter_on q "chainChanged" onChainChanged
          (emitter_on q "accountsChanged" onAccountsChanged em))).
Proof.
  intros H. split_and!.
  - intros p' ev' h' Ht. simpl. rewrite attached_on, (H p' ev' h' Ht).
    case_decide; simplify_eq; simpl; split; try lia; intros; split; auto.
  - intros p' ev' h' Ht. simpl. rewrite !attached_on, (H p' ev' h' Ht).
    repeat case_decide; simplify_eq; simpl; split; try lia; intros; split; auto.
  - intros p' ev' h' Ht. rewrite !attached_on, (H p' ev' h' Ht).
    case_bool_decide as Hd.
    + destruct Hd as [? [?|[?|[?|[]]]]]; simplify_eq;
        repeat case_decide; simpl; congruence.
    + repeat case_decide; simplify_eq; simpl; try done;
        exfalso; apply Hd; (split; [done|]); simpl; auto.
Qed.

Lemma bound_once_single_set cur em : bound_once cur em → single_set (cur, em).
Proof.
  intros H p ev h Ht. simpl. rewrite (H p ev h Ht).
  case_bool_decide as Hd; (split; [lia|]); intros; [done|lia].
Qed.

Lemma bound_once_None em : detached em → bound_once None em.
Proof.
  intros H p ev h Ht. rewrite (H p ev h Ht).
  case_bool_decide as Hd; [by destruct Hd|done].
Qed.

(** ** Operations as state transformers *)

Lemma keeps_ret {A} P (a : A) : keeps P (ret a).
Proof. by intros w H. Qed.

Lemma keeps_throw {A} P e : keeps P (@throw A e).
Proof. by intros w H. Qed.

Lemma keeps_await {A} P (s : Settled A) : keeps P (await s).
Proof. intros w H. unfold await. by destruct s. Qed.

Lemma keeps_read {A} P (f : Connector → A) : keeps P (read f).
Proof. by intros w H. Qed.

Lemma keeps_bind {A B} P (m : Async A) (k : A → Async B) :
  keeps P m → (∀ a, keeps P (k a)) → keeps P (bind m k).
Proof.
  intros Hm Hk w H. unfold bind. specialize (Hm w H).
  destruct (m w) as [[a| |] w']; simpl in *; auto. by apply Hk.
Qed.

Lemma keeps_try_catch {A} P (m : Async A) h :
  keeps P m → (∀ e, keeps P (h e)) → keeps P (try_catch m h).
Proof.
  intros Hm Hh w H. unfold try_catch. specialize (Hm w H).
  destruct (m w) as [[a| |] w']; simpl in *; auto. by apply Hh.
Qed.

Lemma keeps_and {A} (P Q : World → Prop) (m : Async A) :
  keeps P m → keeps Q m → keeps (λ w, P w ∧ Q w) m.
Proof. intros HP HQ w [? ?]. split; [by apply HP|by apply HQ]. Qed.

Lemma keeps_returned {A} P (m : Async A) w a w' :
  keeps P m → P w → m w = (Returned a, w') → P w'.
Proof. intros H Hw Hm. specialize (H w Hw). by rewrite Hm in H. Qed.

(** Syntax-directed proof that a program keeps an assertion, given the
    lemma for [perform]. *)
Ltac keeps_step perform_lemma :=
  first
    [ apply keeps_ret | apply keeps_throw | apply keeps_await | apply keeps_read
    | apply perform_lemma; reflexivity
    | match goal with
      | |- keeps _ (bind _ _) => apply keeps_bind; [|intros ?]
      | |- keeps _ (try_catch _ _) => apply keeps_try_catch; [|intros ?]
      | |- keeps _ (if ?b then _ else _) => destruct b
      | |- keeps _ (match ?x with _ => _ end) => destruct x
      | |- keeps _ (let _ := _ in _) => cbv zeta
      end ].

Ltac keeps_by perform_lemma := repeat keeps_step perform_lemma.

Lemma hoare_bind {A B} P (m : Async A) (k : A → Async B) R Q X :
  hoare P m R X → (∀ a, hoare (R a) (k a) Q X) → hoare P (bind m k) Q X.
Proof.
  intros Hm Hk w Hw. unfold bind. specialize (Hm w Hw).
  destruct (m w) as [[a| |] w1]; auto. by apply Hk.
Qed.

Lemma hoare_weaken {A} (P P' : World → Prop) (m : Async A)
    (Q Q' : A → World → Prop) (X X' : World → Prop) :
  hoare P' m Q' X' →
  (∀ w, P w → P' w) → (∀ a w, Q' a w → Q a w) → (∀ w, X' w → X w) →
  hoare P m Q X.
Proof.
  intros H HP HQ HX w Hw. specialize (H w (HP w Hw)).
  destruct (m w) as [[a| |] w1]; auto.
Qed.

Lemma hoare_of_keeps {A} P (m : Async A) (Q : A → World → Prop) (X : World → Prop) :
  keeps P m → (∀ a w, P w → Q a w) → (∀ w, P w → X w) → hoare P m Q X.
Proof.
  intros H HQ HX w Hw. specialize (H w Hw).
  destruct (m w) as [[a| |] w1]; simpl in *; auto.
Qed.

Lemma hoare_bind_keeps {A B} P (m : Async A) (k : A → Async B) Q (X : World → Prop) :
  keeps P m → (∀ w, P w → X w) → (∀ a, hoare P (k a) Q X) → hoare P (bind m k) Q X.
Proof.
  intros Hm HX Hk. apply hoare_bind with (R := λ _, P); [|done].
  by apply hoare_of_keeps.
Qed.

Lemma hoare_connect_catch {A} P (m : Async A) env Q (X : World → Prop) :
  hoare P m Q X → hoare P (try_catch m (connect_catch env)) Q X.
Proof.
  intros Hm w Hw. unfold try_catch. specialize (Hm w Hw).
  by destruct (m w) as [[a| e|] w1].
Qed.

(** *** Runs that returned *)

Lemma bind_returned {A B} (m : Async A) (k : A → Async B) w b w' :
  bind m k w = (Returned b, w') →
  ∃ a w1, m w = (Returned a, w1) ∧ k a w1 = (Returned b, w').
Proof.
  unfold bind. destruct (m w) as [[a| |] w1]; intros H; try discriminate. eauto.
Qed.

Lemma perform_returned e w a w' :
  perform e w = (Returned a, w') → w' = apply_effect e w.
Proof. unfold perform. congruence. Qed.

Lemma read_returned {A} (f : Connector → A) w a w' :
  read f w = (Returned a, w') → a = f (this w) ∧ w' = w.
Proof. unfold read. intros [= <- <-]. done. Qed.

Lemma ret_returned {A} (x : A) w a w' :
  ret x w = (Returned a, w') → a = x ∧ w' = w.
Proof. unfold ret. intros [= <- <-]. done. Qed.

Lemma await_returned {A} (s : Settled A) w a w' :
  await s w = (Returned a, w') → s = Fulfilled a ∧ w' = w.
Proof. unfold await. destruct s; intros [= <- <-]. done. Qed.

(** Inversion of a run that returned, down to the operations it calls. *)
Ltac returned H :=
  lazymatch type of H with
  | bind _ _ _ = (Returned _, _) =>
      let a := fresh "a" in
      let w := fresh "w" in
      let H1 := fresh H in
      apply bind_returned in H as (a & w & H1 & H);
      returned H1; returned H
  | perform _ _ = (Returned _, _) => apply perform_returned in H
  | read _ _ = (Returned _, _) => apply read_returned in H as [? H]
  | ret _ _ = (Returned _, _) => apply ret_returned in H as [? H]
  | await _ _ = (Returned _, _) => apply await_returned in H as [? H]
  | (if ?b then _ else _) _ = (Returned _, _) => destruct b eqn:?; returned H
  | (match ?x with _ => _ end) _ = (Returned _, _) => destruct x eqn:?; returned H
  | (let _ := _ in _) _ = (Returned _, _) => cbv zeta in H; returned H
  | _ => idtac
  end.

Lemma connect_returned v env chainId w r w' :
  connect v env chainId w = (Returned r, w') →
  connect_try v env chainId w = (Returned r, w').
Proof.
  destruct v; simpl; unfold SignalDriven.connect, TriggerAwaited.connect, try_catch.
  - destruct (SignalDriven.connect_try env chainId w) as [[a| e|] w1]; done.
  - destruct (TriggerAwaited.connect_try env chainId w) as [[a| e|] w1]; done.
Qed.

(** ** Effects, logs and bindings *)

Lemma perform_all_app l1 l2 w :
  perform_all (l1 ++ l2) w = perform_all l2 (perform_all l1 w).
Proof. apply fold_left_app. Qed.

Lemma replay_app l1 l2 b : replay (l1 ++ l2) b = replay l2 (replay l1 b).
Proof. apply fold_left_app. Qed.

Lemma log_perform_all l w : log (perform_all l w) = log w ++ l.
Proof.
  revert w. induction l as [|e l IH]; intros w; simpl.
  - by rewrite app_nil_r.
  - rewrite IH. simpl. by rewrite <- app_assoc.
Qed.

Lemma bindings_apply_effect e w :
  bindings (apply_effect e w) = step_bindings e (bindings w).
Proof. unfold bindings, apply_effect. simpl. by destruct (step_bindings _ _). Qed.

Lemma bindings_perform_all l w :
  bindings (perform_all l w) = replay l (bindings w).
Proof.
  revert w. induction l as [|e l IH]; intros w; [done|].
  simpl. rewrite IH, bindings_apply_effect. done.
Qed.

Lemma provider_perform_all fx w :
  this_provider (this (perform_all fx w)) = (replay fx (bindings w)).1.
Proof. by rewrite <- bindings_perform_all. Qed.

Lemma replay_neutral fx b : forallb neutral fx = true → replay fx b = b.
Proof.
  revert b. induction fx as [|e fx IH]; intros b H; [done|].
  simpl in *. apply andb_true_iff in H as [He H]. rewrite IH by done.
  by destruct e.
Qed.

Lemma storage_perform_all fx w :
  forallb no_storage fx = true →
  this_storage (this (perform_all fx w)) = this_storage (this w).
Proof.
  revert w. induction fx as [|e fx IH]; intros w H; [done|].
  simpl in *. apply andb_true_iff in H as [He H]. rewrite IH by done.
  by destruct e.
Qed.

(** Fields no effect touches. *)
Lemma perform_all_fixed fx w :
  this_options (this (perform_all fx w)) = this_options (this w) ∧
  this_shimDisconnectKey (this (perform_all fx w)) = this_shimDisconnectKey (this w).
Proof.
  revert w. induction fx as [|e fx IH]; intros w; [done|].
  simpl. destruct (IH (apply_effect e w)) as (-> & ->). done.
Qed.

Lemma forallb_impl (φ ψ : Effect → bool) l :
  (∀ e, φ e = true → ψ e = true) → forallb φ l = true → forallb ψ l = true.
Proof. rewrite !forallb_forall. auto. Qed.

Lemma logged_refl φ w : logged φ w w.
Proof. by exists []. Qed.

Lemma logged_perform φ w0 w e :
  φ e = true → logged φ w0 w → logged φ w0 (apply_effect e w).
Proof.
  intros He (fx & -> & Hfx). exists (fx ++ [e]). split.
  - by rewrite perform_all_app.
  - rewrite forallb_app, Hfx. simpl. by rewrite He.
Qed.

Lemma logged_impl (φ ψ : Effect → bool) w0 w :
  (∀ e, φ e = true → ψ e = true) → logged φ w0 w → logged ψ w0 w.
Proof.
  intros H (fx & -> & Hfx). exists fx. split; [done|]. by eapply forallb_impl.
Qed.

Lemma keeps_logged φ w0 e : φ e = true → keeps (logged φ w0) (perform e).
Proof. intros He w Hw. by apply logged_perform. Qed.

Lemma keeps_holding q e : neutral e = true → keeps (holding q) (perform e).
Proof. intros He w Hw. unfold holding in *. simpl. by destruct e. Qed.

Ltac solve_logged :=
  repeat first [ apply logged_perform; [reflexivity|] | apply logged_refl ].

(** ** [#updateProviderListeners] *)

Lemma updateProviderListeners_run env w :
  updateProviderListeners env w =
    (Returned (),
     perform_all (resync_effects (this_provider (this w)) (sdk_getProvider env)) w).
Proof.
  destruct w as [[s [p|] d o st k] em l];
    destruct (sdk_getProvider env) as [q|] eqn:E;
    unfold updateProviderListeners, bind, perform, read, on_provider, ret;
    simpl; rewrite ?E; reflexivity.
Qed.

Lemma replay_resync_effects cur new b :
  (replay (resync_effects cur new) b).1 = new.
Proof. destruct cur, new; done. Qed.

Lemma holding_updateProviderListeners env w :
  holding (sdk_getProvider env) (updateProviderListeners env w).2.
Proof.
  rewrite updateProviderListeners_run. cbn [snd]. unfold holding.
  rewrite provider_perform_all. apply replay_resync_effects.
Qed.

Lemma updateProviderListeners_returned env w a w' :
  updateProviderListeners env w = (Returned a, w') →
  w' = perform_all (resync_effects (this_provider (this w)) (sdk_getProvider env)) w ∧
  this_provider (this w') = sdk_getProvider env.
Proof.
  intros H. pose proof (holding_updateProviderListeners env w) as Hh.
  rewrite H in Hh. rewrite updateProviderListeners_run in H.
  injection H as <-. done.
Qed.

Lemma forallb_resync_tail (φ : Effect → bool) cur new :
  (∀ p ev h, φ (removeListener p ev h) = true) →
  (∀ p, φ (set_provider p) = true) →
  (∀ p ev h, φ (on p ev h) = true) →
  forallb φ (resync_tail cur new) = true.
Proof.
  intros H2 H3 H4. destruct cur, new; simpl; by rewrite ?H2, ?H3, ?H4.
Qed.

Lemma forallb_resync_effects (φ : Effect → bool) cur new :
  φ enter_updateProviderListeners = true →
  (∀ p ev h, φ (removeListener p ev h) = true) →
  (∀ p, φ (set_provider p) = true) →
  (∀ p ev h, φ (on p ev h) = true) →
  forallb φ (resync_effects cur new) = true.
Proof.
  intros H1 H2 H3 H4. unfold resync_effects. simpl.
  by rewrite H1, forallb_resync_tail.
Qed.

(** The invariant after each step of a resync. *)
Ltac prefixes H :=
  repeat match type of H with
  | _ :: _ = ?p ++ _ => destruct p; simpl in H; [|injection H as <- H]
  | [] = ?p ++ _ => symmetry in H; apply app_eq_nil in H as [-> _]
  end.

Lemma resync_prefixes cur new em past rest :
  single_set (cur, em) →
  resync_effects cur new = past ++ rest →
  single_set (replay past (cur, em)).
Proof.
  intros H Heq.
  assert (Hd : ∃ em', detached em' ∧
            replay (from_option removals [] cur) (cur, em) = (cur, em')).
  { destruct cur as [p|]; simpl.
    - eexists. split; [by apply detached_removals|done].
    - eexists. split; [by apply single_set_None|done]. }
  destruct Hd as (em' & Hd & Hem').
  pose proof (λ q, bound_once_subscriptions q em' Hd) as Hsub.
  destruct cur as [p|], new as [q|];
    unfold resync_effects, resync_tail, removals, subscriptions in Heq;
    simpl in Heq, Hem'; injection Hem' as <-.
  all: try destruct (Hsub q) as (B1 & B2 & B3%bound_once_single_set).
  all: prefixes Heq; simpl; try done.
  all: eauto using single_set_removeListener, single_set_detached.
Qed.

Lemma resync_bound_once env w :
  single_set (bindings w) →
  let w' := (updateProviderListeners env w).2 in
  this_provider (this w') = sdk_getProvider env ∧
  bound_once (sdk_getProvider env) (emitters w').
Proof.
  intros H w'. subst w'. split; [apply holding_updateProviderListeners|].
  rewrite updateProviderListeners_run. cbn [snd].
  destruct w as [[s cur d o st k] em l]. unfold bindings in H. simpl in H.
  destruct cur as [p|], (sdk_getProvider env) as [q|]; simpl.
  - apply bound_once_subscriptions. by apply detached_removals.
  - apply bound_once_None. by apply detached_removals.
  - apply bound_once_subscriptions. by apply single_set_None.
  - apply bound_once_None. by apply single_set_None.
Qed.

(** ** The invariant along sequences of operations *)

Lemma throughout_refl w0 : single_set (bindings w0) → single_set_throughout w0 w0.
Proof.
  intros H. exists []. rewrite app_nil_r. split; [done|split; [done|]].
  intros past rest Heq. symmetry in Heq. apply app_eq_nil in Heq as [-> _]. done.
Qed.

Lemma throughout_now w0 w : single_set_throughout w0 w → single_set (bindings w).
Proof.
  intros (delta & _ & -> & H). apply (H delta []). by rewrite app_nil_r.
Qed.

Lemma throughout_perform w0 w e :
  single_set_throughout w0 w →
  single_set (step_bindings e (bindings w)) →
  single_set_throughout w0 (apply_effect e w).
Proof.
  intros (delta & Hlog & Hb & Hall) He.
  exists (delta ++ [e]). split; [|split].
  - simpl. rewrite Hlog. by rewrite app_assoc.
  - rewrite bindings_apply_effect, Hb, replay_app. done.
  - intros past rest Heq.
    destruct rest as [|r rest _] using rev_ind.
    + rewrite app_nil_r in Heq. subst past. rewrite replay_app. simpl.
      by rewrite <- Hb.
    + rewrite app_assoc in Heq. apply app_inj_tail in Heq as [Heq _].
      by apply (Hall past rest).
Qed.

Lemma throughout_perform_all w0 l : ∀ w,
  single_set_throughout w0 w →
  (∀ past rest, l = past ++ rest → single_set (replay past (bindings w))) →
  single_set_throughout w0 (perform_all l w).
Proof.
  induction l as [|e l IH]; intros w Hw Hl; [done|].
  simpl. apply IH.
  - apply throughout_perform; [done|]. apply (Hl [e] l). done.
  - intros past rest ->. rewrite bindings_apply_effect.
    apply (Hl (e :: past) rest). done.
Qed.

Section Throughout.
Variable w0 : World.
Abbreviation P := (single_set_throughout w0).

Lemma keeps_neutral e : neutral e = true → keeps P (perform e).
Proof.
  intros He w Hw. unfold perform. simpl. apply throughout_perform; [done|].
  apply throughout_now in Hw. by destruct e.
Qed.

Lemma keeps_on_provider_removeListener ev h :
  keeps P (on_provider (λ p, removeListener p ev h)).
Proof.
  apply keeps_bind; [apply keeps_read|]. intros [p|]; [|apply keeps_ret].
  intros w Hw. unfold perform. simpl. apply throughout_perform; [done|].
  apply throughout_now in Hw. destruct (bindings w) as [cur em]. simpl.
  by apply single_set_removeListener.
Qed.

Lemma keeps_updateProviderListeners env : keeps P (updateProviderListeners env).
Proof.
  intros w Hw. rewrite updateProviderListeners_run. cbn [snd].
  apply throughout_perform_all; [done|].
  intros past rest Heq. apply throughout_now in Hw.
  unfold bindings in *. eapply resync_prefixes; eauto.
Qed.

(** [if (!this.#provider) this.#provider = this.#sdk.getProvider()]. *)
Lemma keeps_getProvider_refresh env :
  keeps P (let* p := read this_provider in
           if defined p then ret ()
           else perform (set_provider (sdk_getProvider env))).
Proof.
  intros w Hw. unfold bind, read. simpl.
  destruct (this_provider (this w)) as [p|] eqn:E; simpl; [done|].
  apply throughout_perform; [done|].
  apply throughout_now in Hw. unfold bindings in *. rewrite E in *. simpl.
  apply single_set_detached. by apply single_set_None.
Qed.

Ltac keeps_single_set :=
  repeat first
    [ apply keeps_on_provider_removeListener
    | apply keeps_updateProviderListeners
    | apply keeps_getProvider_refresh
    | keeps_step keeps_neutral ].

Lemma keeps_getProvider env : keeps P (getProvider env).
Proof. unfold getProvider, ensure_initialized. keeps_single_set. Qed.

Lemma keeps_disconnect : keeps P disconnect.
Proof. unfold disconnect, super_disconnect. keeps_single_set. Qed.

Lemma keeps_connect v env chainId : keeps P (connect v env chainId).
Proof.
  destruct v; simpl;
    unfold SignalDriven.connect, SignalDriven.connect_try, SignalDriven.waitForSDK,
      TriggerAwaited.connect, TriggerAwaited.connect_try,
      TriggerAwaited.wait_if_unauthorized,
      TriggerAwaited.waitForAuthorized, connect_catch, ensure_initialized,
      connect_tail, reconcileChain, providerChainId, persist_shimDisconnect;
    keeps_single_set.
Qed.

Lemma keeps_run v ops : ∀ w, P w → P (run v ops w).
Proof.
  induction ops as [|o ops IH]; intros w Hw; [done|].
  simpl. apply IH. destruct o; simpl.
  - by apply keeps_connect.
  - by apply keeps_getProvider.
  - by apply keeps_disconnect.
  - by apply keeps_updateProviderListeners.
Qed.
End Throughout.

(** ** The authorization waits *)

Lemma SignalDriven_wait_snoc connection signals s :
  SignalDriven.wait connection (signals ++ [s]) =
    SignalDriven.deliver (SignalDriven.wait connection signals) s.
Proof. unfold SignalDriven.wait. by rewrite fold_left_app. Qed.

Lemma TriggerAwaited_wait_snoc connection signals s :
  TriggerAwaited.wait connection (signals ++ [s]) =
    TriggerAwaited.deliver (TriggerAwaited.wait connection signals) s.
Proof. unfold TriggerAwaited.wait. by rewrite fold_left_app. Qed.

Lemma bool_decide_elem_snoc (x s : Signal) l :
  bool_decide (x ∈ l ++ [s]) = bool_decide (x ∈ l) || bool_decide (x = s).
Proof.
  apply eq_true_iff_eq.
  rewrite orb_true_iff, !bool_decide_eq_true, elem_of_app, list_elem_of_singleton.
  done.
Qed.

(** The state of [#waitForSDK] after any signals: the outer promise, the two
    one-shot listeners, and the number of calls of the outer [resolve]. *)
Lemma waitForSDK_state connection signals :
  let st := SignalDriven.wait connection signals in
  settled (SignalDriven.outer st) =
    (if some_path_settled connection signals then Some true else None) ∧
  SignalDriven.once_PROVIDER_UPDATE st =
    negb (bool_decide (PROVIDER_UPDATE ∈ signals)) ∧
  SignalDriven.once_AUTHORIZED st =
    negb (isAuthorized connection) && defined connection
    && negb (bool_decide (AUTHORIZED ∈ signals)) ∧
  resolve_calls (SignalDriven.outer st) =
    (Nat.b2n (isAuthorized connection)
     + Nat.b2n (bool_decide (PROVIDER_UPDATE ∈ signals))
     + Nat.b2n (negb (isAuthorized connection) && defined connection
                && bool_decide (AUTHORIZED ∈ signals)))%nat.
Proof.
  induction signals as [|s signals IH] using rev_ind.
  - unfold some_path_settled. simpl.
    destruct connection as [[|]|]; simpl; done.
  - simpl in *. rewrite SignalDriven_wait_snoc.
    destruct IH as (IH1 & IH2 & IH3 & IH4).
    unfold some_path_settled in *. rewrite !bool_decide_elem_snoc.
    destruct (SignalDriven.wait connection signals) as [[o n] i pu au].
    simpl in *. subst pu au n.
    destruct s, connection as [[|]|],
      (bool_decide (PROVIDER_UPDATE ∈ signals)),
      (bool_decide (AUTHORIZED ∈ signals)); simpl in *; subst; done.
Qed.

Lemma waitForAuthorized_state connection signals :
  let st := TriggerAwaited.wait connection signals in
  settled (TriggerAwaited.promise st) =
    (if defined connection && bool_decide (AUTHORIZED ∈ signals)
     then Some true else None) ∧
  TriggerAwaited.once_authorized st =
    defined connection && negb (bool_decide (AUTHORIZED ∈ signals)).
Proof.
  induction signals as [|s signals IH] using rev_ind.
  - simpl. destruct connection; simpl; done.
  - simpl in *. rewrite TriggerAwaited_wait_snoc.
    destruct IH as (IH1 & IH2).
    rewrite !bool_decide_elem_snoc.
    destruct (TriggerAwaited.wait connection signals) as [[o n] au].
    simpl in *. subst au.
    destruct s, connection as [[|]|],
      (bool_decide (AUTHORIZED ∈ signals)); simpl in *; subst; done.
Qed.

Lemma some_path_settled_app connection signals later :
  some_path_settled connection signals = true →
  some_path_settled connection (signals ++ later) = true.
Proof.
  unfold some_path_settled.
  rewrite !orb_true_iff, !andb_true_iff, !bool_decide_eq_true, !elem_of_app.
  tauto.
Qed.

(** ** The tail of [connect] *)

Lemma connect_tail_returned env chainId accounts w r w' :
  connect_tail env chainId accounts w = (Returned r, w') →
  ∃ s w1,
    logged chain_request w w1 ∧
    logged after_parse (apply_effect (parseInt_called s) w1) w' ∧
    obtained_from_provider env (this_provider (this w)) s ∧
    isConnected r = true ∧
    account r = selectedAccount accounts ∧
    provider r = this_provider (this w) ∧
    (chainId = None ∨ (∃ c, chainId = Some c ∧ strict_eq (parseInt s) c = true) →
       chain r = {| id := parseInt s; unsupported := false |}) ∧
    (∀ c, chainId = Some c → strict_eq (parseInt s) c = false →
       ∃ n, base_switchChain env c = Fulfilled n ∧
            chain r = {| id := n; unsupported := base_isChainUnsupported env n |}) ∧
    (default false (shimDisconnect <$> this_options (this w)) = true →
       this_storage (this w') =
         (λ m, <[this_shimDisconnectKey (this w) := true]> m) <$> this_storage (this w)).
Proof.
  intros H.
  unfold connect_tail, reconcileChain, providerChainId, persist_shimDisconnect in H.
  returned H.
  all: subst; do 2 eexists; (split; [|split]); [ | solve_logged | ]; [solve_logged | ].
  all: unfold obtained_from_provider, strict_neq in *; simpl in *.
  all: destruct (this_provider (this w)) as [q|] eqn:Hq;
       destruct (this_storage (this w)) as [m|] eqn:Hm; simpl in *; simplify_eq.
  all: repeat match goal with
       | H : negb _ = true |- _ => apply negb_true_iff in H
       | H : negb _ = false |- _ => apply negb_false_iff in H
       end.
  all: repeat match goal with
       | H : ?x = _ |- context [?x] => rewrite H
       end.
  all: split_and!; try done.
  all: try (intros [?|(c & ? & ?)]; simplify_eq; congruence).
  all: try (intros; simplify_eq; eauto; congruence).
Qed.

(** The effects of a tail that returned. *)
Lemma connect_tail_effects env chainId accounts w r w' :
  connect_tail env chainId accounts w = (Returned r, w') →
  ∃ fx1 s fx2,
    w' = perform_all (fx1 ++ [parseInt_called s] ++ fx2) w ∧
    forallb chain_request fx1 = true ∧
    forallb after_parse fx2 = true ∧
    provider r = this_provider (this w).
Proof.
  intros H. apply connect_tail_returned in H
    as (s & w1 & (fx1 & -> & H1) & (fx2 & -> & H2) & _ & _ & _ & Hp & _).
  exists fx1, s, fx2. split; [|done].
  by rewrite perform_all_app.
Qed.

(** ** Where the argument of [parseInt] comes from *)

Lemma no_parse_parses_from env p w0 w : logged no_parse w0 w → parses_from env p w0 w.
Proof.
  intros (fx & -> & Hfx). exists fx. split; [done|].
  intros x Hx. rewrite forallb_forall in Hfx. by apply Hfx in Hx.
Qed.

Lemma parse_only_parses_from env p s w0 w :
  obtained_from_provider env p s → logged (parse_only s) w0 w → parses_from env p w0 w.
Proof.
  intros Hs (fx & -> & Hfx). exists fx. split; [done|].
  intros x Hx. rewrite forallb_forall in Hfx. apply Hfx in Hx.
  simpl in Hx. apply bool_decide_eq_true in Hx. by subst.
Qed.

Lemma parses_from_trans env p w0 w1 w2 :
  logged no_parse w0 w1 → this_provider (this w1) = p →
  parses_from env (this_provider (this w1)) w1 w2 → parses_from env p w0 w2.
Proof.
  intros (fx1 & -> & H1) <- (fx2 & -> & H2). exists (fx1 ++ fx2).
  split; [by rewrite perform_all_app|].
  intros x [Hx|Hx]%in_app_or; [|by apply H2].
  rewrite forallb_forall in H1. by apply H1 in Hx.
Qed.

Lemma providerChainId_spec env w0 :
  hoare (λ w, w = w0) (providerChainId env)
    (λ s w, logged no_parse w0 w ∧
            obtained_from_provider env (this_provider (this w0)) s)
    (logged no_parse w0).
Proof.
  intros w ->. unfold providerChainId, bind, read, obtained_from_provider. simpl.
  destruct (this_provider (this w0)) as [p|]; simpl.
  - destruct (truthy (provider_chainId env p)) eqn:E; simpl.
    + split; [apply logged_refl|done].
    + unfold perform, await.
      destruct (request_eth_chainId env p); simpl; repeat split; solve_logged.
  - split; [apply logged_refl|done].
Qed.

(** Whatever the outcome of the tail. *)
Lemma connect_tail_parses env chainId accounts w0 :
  hoare (λ w, w = w0) (connect_tail env chainId accounts)
    (λ _, parses_from env (this_provider (this w0)) w0)
    (parses_from env (this_provider (this w0)) w0).
Proof.
  unfold connect_tail, reconcileChain.
  set (X := parses_from env (this_provider (this w0)) w0).
  assert (Hk : ∀ s, obtained_from_provider env (this_provider (this w0)) s →
            ∀ w, logged (parse_only s) w0 w → X w).
  { intros s Hs w Hw. by eapply parse_only_parses_from. }
  apply hoare_bind with
    (R := λ _ w, ∃ s, obtained_from_provider env (this_provider (this w0)) s ∧
                      logged (parse_only s) w0 w).
  - apply hoare_bind with
      (R := λ s w, logged no_parse w0 w ∧
                   obtained_from_provider env (this_provider (this w0)) s).
    + eapply hoare_weaken; [apply (providerChainId_spec env w0)|done|done|].
      intros w Hw. by apply no_parse_parses_from.
    + intros s. eapply hoare_weaken with (Q' := λ _ w, _) (X' := X);
        [apply hoare_of_keeps with
           (P := λ w, obtained_from_provider env (this_provider (this w0)) s ∧
                      logged (parse_only s) w0 w)
        |intros w [Hw Hs]; split; [done|];
         eapply logged_impl; [|done]; by intros []
        |done|done].
      * apply keeps_and; [by intros ??|].
        apply keeps_bind;
          [apply keeps_logged; simpl; by apply bool_decide_eq_true|intros _].
        keeps_by keeps_logged.
      * intros c w [Hs Hw]. eauto.
      * intros w [Hs Hw]. eauto.
  - intros c w (s & Hs & Hw).
    assert (keeps (logged (parse_only s) w0)
              (persist_shimDisconnect;;;
               let* provider := read this_provider in
               ret {| isConnected := true; account := selectedAccount accounts;
                      chain := c; provider := provider |})) as Hkeeps
      by (unfold persist_shimDisconnect; keeps_by keeps_logged).
    specialize (Hkeeps w Hw).
    match goal with |- match ?m with _ => _ end => destruct m as [[r| |] w1] end;
      simpl in *; eauto.
Qed.

Lemma no_parse_ensure_initialized w0 env :
  keeps (logged no_parse w0) (ensure_initialized env).
Proof. unfold ensure_initialized. keeps_by keeps_logged. Qed.

Lemma no_parse_updateProviderListeners w0 env :
  keeps (logged no_parse w0) (updateProviderListeners env).
Proof. unfold updateProviderListeners, on_provider. keeps_by keeps_logged. Qed.

Lemma no_parse_waitForSDK w0 env :
  keeps (logged no_parse w0) (SignalDriven.waitForSDK env).
Proof. unfold SignalDriven.waitForSDK. keeps_by keeps_logged. Qed.

Section Parses.
Variables (env : Env) (chainId : option number) (w0 : World).
Let q := sdk_getProvider env.
Let before_resync := logged no_parse w0.
Let after_resync := λ w, logged no_parse w0 w ∧ holding q w.
Let X := parses_from env q w0.

Lemma before_resync_X w : before_resync w → X w.
Proof. apply no_parse_parses_from. Qed.

Lemma after_resync_X w : after_resync w → X w.
Proof. intros [? _]. by apply no_parse_parses_from. Qed.

Lemma keeps_after_resync e :
  no_parse e && neutral e = true → keeps after_resync (perform e).
Proof.
  intros [??]%andb_true_iff. apply keeps_and.
  - by apply keeps_logged.
  - by apply keeps_holding.
Qed.

Lemma resync_parses :
  hoare before_resync (updateProviderListeners env) (λ _, after_resync) X.
Proof.
  intros w Hw.
  pose proof (no_parse_updateProviderListeners w0 env w Hw) as H1.
  pose proof (holding_updateProviderListeners env w) as H2.
  destruct (updateProviderListeners env w) as [[r| |] w'];
    simpl in *; try split; try done; by apply before_resync_X.
Qed.

Lemma tail_parses accounts :
  hoare after_resync (connect_tail env chainId accounts) (λ _, X) X.
Proof.
  intros w [Hw Hq].
  pose proof (connect_tail_parses env chainId accounts w w eq_refl) as H.
  destruct (connect_tail env chainId accounts w) as [[r| |] w'];
    by eapply parses_from_trans.
Qed.

Lemma SignalDriven_parses :
  hoare (λ w, w = w0) (SignalDriven.connect env chainId) (λ _, X) X.
Proof.
  apply hoare_weaken with (P' := before_resync) (Q' := λ _, X) (X' := X);
    [|intros w Hw; rewrite Hw; apply logged_refl|done|done].
  apply hoare_connect_catch. unfold SignalDriven.connect_try.
  apply hoare_bind_keeps;
    [apply no_parse_ensure_initialized|apply before_resync_X|intros _].
  apply hoare_bind_keeps; [by apply keeps_logged|apply before_resync_X|intros _].
  apply hoare_bind_keeps; [apply no_parse_waitForSDK|apply before_resync_X|intros _].
  apply hoare_bind_keeps; [by apply keeps_logged|apply before_resync_X|intros _].
  eapply hoare_bind; [apply resync_parses|intros ?; cbv beta].
  apply hoare_bind_keeps; [|apply after_resync_X|intros accounts].
  { keeps_by keeps_after_resync. }
  apply hoare_bind_keeps;
    [by apply keeps_after_resync|apply after_resync_X|intros _].
  apply tail_parses.
Qed.

Lemma TriggerAwaited_parses :
  hoare (λ w, w = w0) (TriggerAwaited.connect env chainId) (λ _, X) X.
Proof.
  apply hoare_weaken with (P' := before_resync) (Q' := λ _, X) (X' := X);
    [|intros w Hw; rewrite Hw; apply logged_refl|done|done].
  apply hoare_connect_catch. unfold TriggerAwaited.connect_try.
  apply hoare_bind_keeps;
    [apply no_parse_ensure_initialized|apply before_resync_X|intros _].
  apply hoare_bind_keeps; [by apply keeps_logged|apply before_resync_X|intros _].
  apply hoare_bind_keeps; [apply keeps_await|apply before_resync_X|intros accounts].
  apply hoare_bind_keeps; [by apply keeps_logged|apply before_resync_X|intros _].
  eapply hoare_bind; [apply resync_parses|intros ?; cbv beta].
  apply hoare_bind_keeps; [|apply after_resync_X|intros _].
  { unfold TriggerAwaited.wait_if_unauthorized, TriggerAwaited.waitForAuthorized.
    keeps_by keeps_after_resync. }
  apply hoare_bind_keeps;
    [by apply keeps_after_resync|apply after_resync_X|intros _].
  apply tail_parses.
Qed.
End Parses.

(** ** A [connect] that returned *)

Lemma quiet_ensure_initialized w0 env : keeps (logged quiet w0) (ensure_initialized env).
Proof. unfold ensure_initialized. keeps_by keeps_logged. Qed.

Lemma quiet_waitForSDK w0 env : keeps (logged quiet w0) (SignalDriven.waitForSDK env).
Proof. unfold SignalDriven.waitForSDK. keeps_by keeps_logged. Qed.

Lemma quiet_waitForAuthorized w0 env :
  keeps (logged quiet w0) (TriggerAwaited.waitForAuthorized env).
Proof. unfold TriggerAwaited.waitForAuthorized. keeps_by keeps_logged. Qed.

Lemma quiet_holding w0 w :
  logged quiet w0 w → this_provider (this w) = this_provider (this w0).
Proof.
  intros (fx & -> & Hfx). rewrite provider_perform_all, replay_neutral; [done|].
  eapply forallb_impl; [|done]. by intros [].
Qed.

(** The effects of a [connect] of part_000 that returned, up to the tail. *)
Lemma SignalDriven_connect_returned env chainId w r w' :
  SignalDriven.connect env chainId w = (Returned r, w') →
  ∃ fxq fxa accounts,
    forallb quiet fxq = true ∧
    forallb accounts_request fxa = true ∧
    account_list part_000 env accounts ∧
    connect_tail env chainId accounts
      (perform_all
         ((fxq ++ [authorization_confirmed]) ++
          resync_effects (this_provider (this w)) (sdk_getProvider env) ++
          fxa ++ [accounts_obtained accounts]) w) = (Returned r, w').
Proof.
  intros H. apply (connect_returned part_000) in H. simpl in H.
  unfold SignalDriven.connect_try in H. returned H.
  all: match goal with
       | H0 : ensure_initialized _ _ = (Returned _, ?w0) |- _ =>
           assert (logged quiet w w0) as Hq0
             by (eapply keeps_returned;
                 [apply quiet_ensure_initialized|apply logged_refl|exact H0])
       end.
  all: match goal with
       | H2 : SignalDriven.waitForSDK _ ?w1 = (Returned _, ?w2) |- _ =>
           assert (logged quiet w w2) as Hq
             by (eapply keeps_returned; [apply quiet_waitForSDK| |exact H2];
                 subst w1; by apply logged_perform)
       end.
  all: pose proof (quiet_holding _ _ Hq) as Hcur; destruct Hq as (fxq & Hw2 & Hfxq).
  all: match goal with
       | H4 : updateProviderListeners _ ?w3 = (Returned _, ?w4) |- _ =>
           apply updateProviderListeners_returned in H4 as [H4 Hp]
       end.
  all: exists fxq.
  all: lazymatch goal with
       | H : request_eth_requestAccounts _ ?p = Fulfilled ?acc |- _ =>
           exists [request p "eth_requestAccounts"], acc
       | _ => exists [], None
       end.
  all: split; [done|]; split; [done|]; split.
  all: lazymatch goal with
       | |- connect_tail _ _ _ _ = _ =>
           rewrite <- H; subst; f_equal; rewrite !perform_all_app; simpl;
           rewrite ?Hcur; reflexivity
       | |- _ =>
           simpl; rewrite <- Hp; subst;
           repeat match goal with
           | H : Some _ = this_provider _ |- _ => rewrite <- H
           | H : None = this_provider _ |- _ => rewrite <- H
           end; done
       end.
Qed.

Lemma TriggerAwaited_resynced env w a w0 accounts a' w4 :
  ensure_initialized env w = (Returned a, w0) →
  updateProviderListeners env
    (apply_effect (accounts_obtained accounts) (apply_effect sdk_connect w0))
    = (Returned a', w4) →
  ∃ fxq,
    forallb quiet fxq = true ∧
    w4 = perform_all
           ((fxq ++ [accounts_obtained accounts]) ++
            resync_effects (this_provider (this w)) (sdk_getProvider env)) w.
Proof.
  intros H0 H4.
  assert (logged quiet w (apply_effect sdk_connect w0)) as Hq
    by (apply logged_perform; [done|]; eapply keeps_returned;
        [apply quiet_ensure_initialized|apply logged_refl|exact H0]).
  pose proof (quiet_holding _ _ Hq) as Hcur. destruct Hq as (fxq & Hw1 & Hfxq).
  apply updateProviderListeners_returned in H4 as [-> _].
  exists fxq. split; [done|].
  rewrite !perform_all_app, <- Hw1.
  replace (this_provider
             (this (apply_effect (accounts_obtained accounts)
                      (apply_effect sdk_connect w0))))
    with (this_provider (this w)) by (rewrite <- Hcur; reflexivity).
  reflexivity.
Qed.

(** The effects of a [connect] of metaMaskSDK.ts that returned, up to the
    tail. *)
Lemma TriggerAwaited_connect_returned env chainId w r w' :
  TriggerAwaited.connect env chainId w = (Returned r, w') →
  ∃ fxq fxw accounts,
    forallb quiet fxq = true ∧
    forallb quiet fxw = true ∧
    account_list metaMaskSDK_ts env accounts ∧
    connect_tail env chainId accounts
      (perform_all
         ((fxq ++ [accounts_obtained accounts]) ++
          resync_effects (this_provider (this w)) (sdk_getProvider env) ++
          fxw ++ [authorization_confirmed]) w) = (Returned r, w').
Proof.
  intros H. apply (connect_returned metaMaskSDK_ts) in H. simpl in H.
  unfold TriggerAwaited.connect_try, TriggerAwaited.wait_if_unauthorized in H.
  returned H.
  all: subst.
  all: match goal with
       | H0 : ensure_initialized _ _ = _,
         H4 : updateProviderListeners _ _ = _ |- _ =>
           destruct (TriggerAwaited_resynced _ _ _ _ _ _ _ H0 H4) as (fxq & Hfxq & ->)
       end.
  all: exists fxq.
  all: lazymatch goal with
       | H : TriggerAwaited.waitForAuthorized _ ?w4 = (Returned _, ?w5) |- _ =>
           assert (logged quiet w4 w5) as (fxw & Hw5 & Hfxw)
             by (eapply keeps_returned;
                 [apply quiet_waitForAuthorized|apply logged_refl|exact H]);
           exists fxw; rewrite Hw5 in *
       | _ => exists []
       end.
  all: eexists; split; [done|]; split; [done|]; split; [simpl; eassumption|].
  all: rewrite <- H; f_equal; rewrite !perform_all_app; reflexivity.
Qed.

(** Proofs of [forallb] and [existsb] over the parts of such a log. *)
Ltac class_of_request :=
  let H := fresh in
  intros [] H; try done; simpl in *;
  apply String.eqb_eq in H; subst; done.

Ltac forallb_parts :=
  rewrite ?forallb_app;
  repeat first
    [ reflexivity
    | apply forallb_resync_effects; done
    | apply forallb_resync_tail; done
    | eapply forallb_impl; [|eassumption]; first [by intros [] | class_of_request]
    | apply andb_true_intro; split ].

Ltac existsb_parts :=
  rewrite ?existsb_app; cbn [existsb is_authorization is_accounts is_chainId orb];
  rewrite ?orb_true_r; reflexivity.

(** What both versions have established when the tail starts. *)
Lemma connect_returned_tail v env chainId w r w' :
  connect v env chainId w = (Returned r, w') →
  ∃ fx accounts,
    account_list v env accounts ∧
    this_provider (this (perform_all fx w)) = sdk_getProvider env ∧
    this_storage (this (perform_all fx w)) = this_storage (this w) ∧
    connect_tail env chainId accounts (perform_all fx w) = (Returned r, w').
Proof.
  intros H. destruct v; simpl in H.
  - apply SignalDriven_connect_returned in H
      as (fxq & fxa & accounts & Hq & Ha & Hacc & H).
    eexists _, accounts. split; [done|]. split; [|split; [|exact H]].
    + rewrite provider_perform_all. do 2 rewrite replay_app.
      rewrite (replay_neutral (fxa ++ _)) by forallb_parts.
      apply replay_resync_effects.
    + apply storage_perform_all. forallb_parts.
  - apply TriggerAwaited_connect_returned in H
      as (fxq & fxw & accounts & Hq & Hw & Hacc & H).
    eexists _, accounts. split; [done|]. split; [|split; [|exact H]].
    + rewrite provider_perform_all. do 2 rewrite replay_app.
      rewrite (replay_neutral (fxw ++ _)) by forallb_parts.
      apply replay_resync_effects.
    + apply storage_perform_all. forallb_parts.
Qed.

(** ** Where the resync sits *)

Lemma split_at_app_l f l1 l :
  forallb (λ e, negb (f e)) l1 = true →
  split_at f (l1 ++ l) = (λ '(before, after), (l1 ++ before, after)) <$> split_at f l.
Proof.
  intros H. induction l1 as [|e l1 IH]; simpl in *.
  - by destruct (split_at f l) as [[??]|].
  - apply andb_true_iff in H as [He H]. apply negb_true_iff in He.
    rewrite He, IH by done. by destruct (split_at f l) as [[??]|].
Qed.

Lemma split_at_resync l1 cur new l2 :
  forallb (λ e, negb (is_resync e)) l1 = true →
  split_at is_resync (l1 ++ resync_effects cur new ++ l2) =
    Some (l1, resync_tail cur new ++ l2).
Proof.
  intros H. rewrite split_at_app_l by done.
  unfold resync_effects. simpl. by rewrite app_nil_r.
Qed.

Lemma provider_after_resync env fx w fx' :
  forallb neutral fx' = true →
  this_provider
    (this (perform_all
             (fx ++ resync_effects (this_provider (this w)) (sdk_getProvider env) ++ fx') w))
  = sdk_getProvider env.
Proof.
  intros Hfx'. rewrite provider_perform_all, !replay_app.
  rewrite (replay_neutral fx') by done. apply replay_resync_effects.
Qed.

Lemma bound_once_after_resync env fx w fx' :
  forallb neutral fx = true → forallb neutral fx' = true →
  single_set (bindings w) →
  bound_once (sdk_getProvider env)
    (emitters
       (perform_all
          (fx ++ resync_effects (this_provider (this w)) (sdk_getProvider env) ++ fx') w)).
Proof.
  intros Hfx Hfx' Hw. rewrite !perform_all_app.
  set (wq := perform_all fx w).
  assert (Hq : bindings wq = bindings w)
    by (unfold wq; rewrite bindings_perform_all; by apply replay_neutral).
  assert (Hcur : this_provider (this w) = this_provider (this wq))
    by (change (this_provider (this ?w)) with (bindings w).1; by rewrite Hq).
  rewrite Hcur.
  pose proof (resync_bound_once env wq) as H. rewrite Hq in H.
  destruct (H Hw) as [_ Hb]. rewrite updateProviderListeners_run in Hb.
  cbn [snd] in Hb.
  change (emitters ?w) with (bindings w).2.
  rewrite bindings_perform_all, replay_neutral by done.
  exact Hb.
Qed.

(** The log of a [connect] that returned, in three parts around the resync. *)
Lemma connect_returned_log v env chainId w r w' :
  connect v env chainId w = (Returned r, w') →
  ∃ before after,
    w' = perform_all
           (before ++ resync_effects (this_provider (this w)) (sdk_getProvider env) ++ after) w ∧
    provider r = sdk_getProvider env ∧
    forallb neutral before = true ∧ forallb neutral after = true ∧
    forallb (λ e, negb (is_resync e)) before = true ∧
    forallb (λ e, negb (is_resync e)) after = true ∧
    forallb (λ e, negb (is_chainId e)) before = true ∧
    existsb is_chainId after = true ∧
    match v with
    | part_000 =>
        existsb is_authorization before = true ∧
        forallb (λ e, negb (is_authorization e)) after = true ∧
        forallb (λ e, negb (is_accounts e)) before = true ∧
        existsb is_accounts after = true
    | metaMaskSDK_ts =>
        existsb is_accounts before = true ∧
        forallb (λ e, negb (is_accounts e)) after = true ∧
        forallb (λ e, negb (is_authorization e)) before = true ∧
        existsb is_authorization after = true
    end.
Proof.
  intros H. destruct v; simpl in H.
  - apply SignalDriven_connect_returned in H
      as (fxq & fxa & accounts & Hq & Ha & Hacc & H).
    apply connect_tail_effects in H as (fx1 & s & fx2 & -> & H1 & H2 & Hp).
    exists (fxq ++ [authorization_confirmed]),
      ((fxa ++ [accounts_obtained accounts]) ++ fx1 ++ [parseInt_called s] ++ fx2).
    split; [by rewrite <- perform_all_app, <- !app_assoc|].
    split; [rewrite Hp; apply provider_after_resync; forallb_parts|].
    split_and!; first [solve [forallb_parts] | solve [existsb_parts]].
  - apply TriggerAwaited_connect_returned in H
      as (fxq & fxw & accounts & Hq & Hw & Hacc & H).
    apply connect_tail_effects in H as (fx1 & s & fx2 & -> & H1 & H2 & Hp).
    exists (fxq ++ [accounts_obtained accounts]),
      ((fxw ++ [authorization_confirmed]) ++ fx1 ++ [parseInt_called s] ++ fx2).
    split; [by rewrite <- perform_all_app, <- !app_assoc|].
    split; [rewrite Hp; apply provider_after_resync; forallb_parts|].
    split_and!; first [solve [forallb_parts] | solve [existsb_parts]].
Qed.

(** ** Fields the operations never write *)

Lemma any_effect_connect v w0 env chainId :
  keeps (logged any_effect w0) (connect v env chainId).
Proof.
  destruct v; simpl;
    unfold SignalDriven.connect, SignalDriven.connect_try, SignalDriven.waitForSDK,
      TriggerAwaited.connect, TriggerAwaited.connect_try,
      TriggerAwaited.wait_if_unauthorized,
      TriggerAwaited.waitForAuthorized, connect_catch,
      ensure_initialized, updateProviderListeners, on_provider,
      connect_tail, reconcileChain, providerChainId, persist_shimDisconnect;
    keeps_by keeps_logged.
Qed.

Lemma any_effect_run v w0 ops : ∀ w,
  logged any_effect w0 w → logged any_effect w0 (run v ops w).
Proof.
  induction ops as [|o ops IH]; intros w Hw; [done|].
  simpl. apply IH. destruct o as [env chainId|env| |env]; simpl.
  - by apply any_effect_connect.
  - revert w Hw. fold (keeps (logged any_effect w0) (getProvider env)).
    unfold getProvider, ensure_initialized. keeps_by keeps_logged.
  - revert w Hw. fold (keeps (logged any_effect w0) disconnect).
    unfold disconnect, super_disconnect, on_provider. keeps_by keeps_logged.
  - revert w Hw. fold (keeps (logged any_effect w0) (updateProviderListeners env)).
    unfold updateProviderListeners, on_provider. keeps_by keeps_logged.
Qed.

Lemma constructor_instance v ce options_ c steps :
  constructor v ce options_ = (instance c, steps) →
  ∃ debug s before, construct ce debug s before = (instance c, steps).
Proof.
  destruct v; simpl; unfold SignalDriven.constructor, TriggerAwaited.constructor;
    destruct (invalid_parameters options_); try discriminate;
    destruct (options_ ≫= opt_sdk); eauto;
    destruct (options_ ≫= opt_sdkOptions); try discriminate; simpl; eauto.
Qed.

(* ===================================================================== *)
(** * The scenarios of the specification *)
(* ===================================================================== *)

Example parseInt_examples :
  parseInt (Some "0x1") = Num 1 ∧
  parseInt (Some "0x89") = Num 137 ∧
  parseInt (Some "0XaA36a7") = Num 11155111 ∧
  parseInt (Some EmptyString) = NaN ∧
  parseInt (Some "0x") = NaN ∧
  parseInt None = NaN.
Proof. vm_compute. auto 10. Qed.

(** The parse gives a double: 2^53 + 1 and 2^53 + 3 lie half way between two
    doubles and go to the even one. White space of more than one byte is
    trimmed as well (U+00A0, then U+FEFF and a space); a lone byte C2 is no
    white space. *)
Example parseInt_rounds_and_trims :
  parseInt (Some "0x20000000000001") = Num 9007199254740992 ∧
  parseInt (Some "0x20000000000003") = Num 9007199254740996 ∧
  parseInt (Some "0x20000000000002") = Num 9007199254740994 ∧
  parseInt (Some (String "194" (String "160" "0x10"))) = Num 16 ∧
  parseInt (Some (String "239" (String "187" (String "191" " -0x1f")))) = Num (-31) ∧
  parseInt (Some (String "194" "0x10")) = NaN.
Proof. vm_compute. auto 10. Qed.

(** A provider on chain 0x20000000000001 and a caller who asks for 2^53: the
    ids are equal as doubles, so nothing is switched. *)
Example scenario_rounded_chain_id (v : Version) :
  let env :=
    wallet_with (Some 2%positive) (Some true) [] (Some ["0xA11ce"])
      (Some "0x20000000000001") None in
  (connect v env (Some (Num 9007199254740992)) fresh_world).1 =
    Returned (connected "0xA11ce" (Num 9007199254740992) false (Some 2%positive)) ∧
  existsb (λ e, bool_decide (e = switchChain_called (Num 9007199254740992)))
    (log (connect v env (Some (Num 9007199254740992)) fresh_world).2) = false.
Proof. destruct v; vm_compute; auto. Qed.

(** Scenario 1: already authorized synchronously, chain ["0x1"], no chain id
    requested. *)
Example scenario_1 (v : Version) :
  (connect v wallet_already_authorized None fresh_world).1 =
    Returned (connected "0xA11ce" (Num 1) false (Some 2%positive)).
Proof. destruct v; vm_compute; reflexivity. Qed.

(** Scenario 2: authorized through a signal only, chain 137 requested on
    chain 1, the switch gives 137, which is unsupported. *)
Example scenario_2 :
  (connect part_000 wallet_provider_update_only (Some (Num 137)) fresh_world).1 =
    Returned (connected "0xA11ce" (Num 137) true (Some 2%positive)) ∧
  (connect metaMaskSDK_ts wallet (Some (Num 137)) fresh_world).1 =
    Returned (connected "0xA11ce" (Num 137) true (Some 2%positive)).
Proof. vm_compute. auto. Qed.

(** Scenario 3: construction with neither [sdk] nor [sdkOptions]. *)
Example scenario_3 (v : Version) :
  constructor v construction None = (invalid_sdk_parameters, []) ∧
  constructor v construction
    (Some {| opt_debug := Some true; opt_sdk := None; opt_sdkOptions := None |})
  = (invalid_sdk_parameters, []).
Proof. destruct v; split; reflexivity. Qed.

(** Scenario 4: the account list is empty. *)
Example scenario_4 (v : Version) :
  (connect v wallet_without_accounts None fresh_world).1 =
    Returned (connected "0x" (Num 1) false (Some 2%positive)).
Proof. destruct v; vm_compute; reflexivity. Qed.

(* ===================================================================== *)
(** * The claims *)
(* ===================================================================== *)

(** Claim C1. Start from a world in which the connector's three handlers are
    subscribed nowhere, and run any sequence of [connect], [getProvider],
    [disconnect] and resync calls, in either version. After every single
    effect of the run, and at its end, the tracked handlers are attached at
    most once each, under their own events, and only to the provider the
    connector holds at that moment. Two resyncs in a row then leave the
    connector holding the provider the SDK handed out last, with each of the
    three handlers attached to it exactly once and to nothing else (when the
    SDK hands out no provider there is nothing to attach to, and none is
    attached). *)
Theorem listeners_single_set (v : Version) (ops : list Operation) (w0 : World) :
  detached (emitters w0) →
  single_set_throughout w0 (run v ops w0) ∧
  single_set (bindings (run v ops w0)) ∧
  ∀ env1 env2,
    let w2 := run v (ops ++ [call_updateProviderListeners env1;
                             call_updateProviderListeners env2]) w0 in
    this_provider (this w2) = sdk_getProvider env2 ∧
    bound_once (sdk_getProvider env2) (emitters w2).
Proof.
  intros H0.
  assert (Hw : single_set_throughout w0 (run v ops w0)).
  { apply keeps_run, throughout_refl. by apply single_set_detached. }
  split; [done|]. split; [by eapply throughout_now|].
  intros env1 env2 w2. subst w2. unfold run. rewrite fold_left_app. simpl.
  apply resync_bound_once. apply throughout_now with (w0 := w0).
  by apply keeps_updateProviderListeners.
Qed.

Lemma listeners_single_set_witness :
  detached (emitters fresh_world) ∧
  single_set_throughout fresh_world (run part_000 session fresh_world) ∧
  single_set (bindings (run part_000 session fresh_world)) ∧
  ∀ env1 env2,
    let w2 := run part_000 (session ++ [call_updateProviderListeners env1;
                                        call_updateProviderListeners env2])
                fresh_world in
    this_provider (this w2) = sdk_getProvider env2 ∧
    bound_once (sdk_getProvider env2) (emitters w2).
Proof.
  split.
  - intros p ev h _. reflexivity.
  - apply (listeners_single_set part_000 session fresh_world).
    intros p ev h _. reflexivity.
Defined.

(** Claim C2, amended. In a [connect] that returns, the resync routine is
    entered exactly once, before the chain id is asked for or parsed, and
    the connector then holds, and returns, the provider the SDK handed out at
    that moment, with the handlers bound to it. In part_000 the resync comes
    after the authorization wait and before the account list is asked for; in
    metaMaskSDK.ts it comes after the account list is in hand (from the
    awaited [sdk.connect()]) and before the authorization wait is over. *)
Theorem resync_placement (v : Version) (env : Env) (chainId : option number)
    (w : World) (r : ConnectResponse) (w' : World) :
  connect v env chainId w = (Returned r, w') →
  ∃ fx,
    log w' = log w ++ fx ∧
    match v with
    | part_000 =>
        resync_once_between [is_authorization] [is_accounts; is_chainId] fx = true
    | metaMaskSDK_ts =>
        resync_once_between [is_accounts] [is_authorization; is_chainId] fx = true
    end ∧
    this_provider (this w') = sdk_getProvider env ∧
    provider r = sdk_getProvider env ∧
    (single_set (bindings w) → bound_once (sdk_getProvider env) (emitters w')).
Proof.
  intros H.
  apply connect_returned_log in H
    as (before & after & -> & Hp & Hn1 & Hn2 & Hr1 & Hr2 & Hc1 & Hc2 & Hv).
  eexists. split; [apply log_perform_all|].
  split; [|split; [by apply provider_after_resync|split; [done|]]].
  - unfold resync_once_between. rewrite split_at_resync by done.
    assert (Hr3 : ∀ l, forallb (λ e, negb (is_resync e)) l = true →
                       forallb (λ e, negb (is_resync e))
                         (resync_tail (this_provider (this w)) (sdk_getProvider env) ++ l)
                       = true)
      by (intros l Hl; rewrite forallb_app, Hl, forallb_resync_tail; done).
    assert (Ht : ∀ (f : Effect → bool) l,
              (∀ p ev h, f (removeListener p ev h) = false) →
              (∀ p, f (set_provider p) = false) →
              (∀ p ev h, f (on p ev h) = false) →
              forallb (λ e, negb (f e))
                (resync_tail (this_provider (this w)) (sdk_getProvider env) ++ l)
              = forallb (λ e, negb (f e)) l).
    { intros f l F1 F2 F3. rewrite forallb_app, forallb_resync_tail; [done|..];
        intros; by rewrite ?F1, ?F2, ?F3. }
    destruct v; destruct Hv as (V1 & V2 & V3 & V4); cbn [forallb];
      rewrite Hr3, !existsb_app, ?Ht, ?V1, ?V2, ?V3, ?V4, ?Hc1, ?Hc2, ?orb_true_r;
      done.
  - intros Hw. by apply bound_once_after_resync.
Qed.

Lemma resync_placement_witness :
  connect part_000 wallet None fresh_world =
    (Returned (connected "0xA11ce" (Num 1) false (Some 2%positive)),
     (connect part_000 wallet None fresh_world).2) ∧
  ∃ fx,
    log (connect part_000 wallet None fresh_world).2 = log fresh_world ++ fx ∧
    resync_once_between [is_authorization] [is_accounts; is_chainId] fx = true ∧
    this_provider (this (connect part_000 wallet None fresh_world).2) =
      sdk_getProvider wallet ∧
    provider (connected "0xA11ce" (Num 1) false (Some 2%positive)) =
      sdk_getProvider wallet ∧
    (single_set (bindings fresh_world) →
     bound_once (sdk_getProvider wallet)
       (emitters (connect part_000 wallet None fresh_world).2)).
Proof.
  split.
  - vm_compute. reflexivity.
  - apply (resync_placement part_000 wallet None fresh_world).
    vm_compute. reflexivity.
Defined.

(** Claim C2 as stated fails on metaMaskSDK.ts: in this [connect], which
    returns, the resync is entered after the account list is in hand and
    before the authorization wait is over. *)
Lemma resync_before_authorization_in_metaMaskSDK_ts :
  (connect metaMaskSDK_ts wallet None fresh_world).1 =
    Returned (connected "0xA11ce" (Num 1) false (Some 2%positive)) ∧
  log (connect metaMaskSDK_ts wallet None fresh_world).2 =
    [ sdk_connect;
      accounts_obtained (Some ["0xA11ce"; "0xB0b"]);
      enter_updateProviderListeners;
      removeListener 1%positive "accountsChanged" onAccountsChanged;
      removeListener 1%positive "chainChanged" onChainChanged;
      removeListener 1%positive "disconnect" onDisconnect;
      set_provider (Some 2%positive);
      on 2%positive "accountsChanged" onAccountsChanged;
      on 2%positive "chainChanged" onChainChanged;
      on 2%positive "disconnect" onDisconnect;
      sdk_once AUTHORIZED;
      authorization_confirmed;
      parseInt_called (Some "0x1");
      storage_setItem "metaMaskSDK.shimDisconnect" true ] ∧
  resync_once_between [is_authorization] [is_accounts; is_chainId]
    (log (connect metaMaskSDK_ts wallet None fresh_world).2) = false.
Proof. vm_compute. auto. Qed.

(** Claim C3, amended. [#waitForSDK] of part_000 subscribes to the
    provider-update signal whatever the synchronous check says, resolves at
    once when the connection is already authorized, and otherwise subscribes
    to the [authorized] signal of the connection when there is one. After any
    signals its promise is settled exactly when one of these paths has
    settled, always with [true]; later signals leave it as it is, and its
    [resolve] is called at most twice. The wait of metaMaskSDK.ts does not
    listen to the provider update: it is over at once when the extension is
    active or the connection is authorized, and otherwise when a connection
    exists and emits [authorized]. *)
Theorem authorization_wait :
  (∀ connection signals,
     SignalDriven.once_PROVIDER_UPDATE (SignalDriven.executor connection) = true ∧
     settled (SignalDriven.outer (SignalDriven.executor connection)) =
       (if isAuthorized connection then Some true else None) ∧
     SignalDriven.once_AUTHORIZED (SignalDriven.executor connection) =
       negb (isAuthorized connection) && defined connection ∧
     settled (SignalDriven.outer (SignalDriven.wait connection signals)) =
       (if some_path_settled connection signals then Some true else None) ∧
     (∀ later,
        settled (SignalDriven.outer (SignalDriven.wait connection signals)) = Some true →
        settled (SignalDriven.outer (SignalDriven.wait connection (signals ++ later)))
          = Some true) ∧
     (resolve_calls (SignalDriven.outer (SignalDriven.wait connection signals)) ≤ 2)%nat) ∧
  (∀ env w,
     (SignalDriven.waitForSDK env w).1 =
       if some_path_settled (sdk_connection env) (sdk_signals env)
       then Returned true else Pending) ∧
  (∀ env w,
     (TriggerAwaited.wait_if_unauthorized env w).1 =
       if sdk_isExtensionActive env || isAuthorized (sdk_connection env)
          || (defined (sdk_connection env)
              && bool_decide (AUTHORIZED ∈ sdk_signals env))
       then Returned () else Pending).
Proof.
  split_and!.
  - intros connection signals.
    destruct (waitForSDK_state connection signals) as (H1 & H2 & H3 & H4).
    split_and!.
    + unfold SignalDriven.executor. by destruct (isAuthorized connection).
    + unfold SignalDriven.executor. by destruct (isAuthorized connection).
    + unfold SignalDriven.executor. by destruct (isAuthorized connection).
    + exact H1.
    + intros later Hs.
      destruct (waitForSDK_state connection (signals ++ later)) as (H1' & _).
      rewrite H1'. rewrite H1 in Hs.
      destruct (some_path_settled connection signals) eqn:E; [|done].
      by rewrite some_path_settled_app.
    + rewrite H4.
      destruct (isAuthorized connection), (defined connection),
        (bool_decide (PROVIDER_UPDATE ∈ signals)),
        (bool_decide (AUTHORIZED ∈ signals)); simpl; lia.
  - intros env w.
    destruct (waitForSDK_state (sdk_connection env) (sdk_signals env)) as (H1 & _).
    unfold SignalDriven.waitForSDK, bind, read, perform, ret, await, awaited.
    rewrite H1.
    destruct (this_debug (this w)),
      (SignalDriven.once_AUTHORIZED (SignalDriven.executor (sdk_connection env))),
      (some_path_settled (sdk_connection env) (sdk_signals env)); done.
  - intros env w.
    destruct (waitForAuthorized_state (sdk_connection env) (sdk_signals env))
      as (Hp & _).
    unfold TriggerAwaited.wait_if_unauthorized, TriggerAwaited.must_wait,
      TriggerAwaited.waitForAuthorized, bind, read, perform, ret, await, awaited.
    rewrite Hp.
    destruct (sdk_isExtensionActive env), (sdk_connection env) as [[|]|];
      simpl; try done.
    by destruct (bool_decide (AUTHORIZED ∈ sdk_signals env)).
Qed.

Lemma authorization_wait_witness :
  settled (SignalDriven.outer
             (SignalDriven.wait (Some false) [AUTHORIZED; PROVIDER_UPDATE; AUTHORIZED]))
    = Some true ∧
  (resolve_calls
     (SignalDriven.outer
        (SignalDriven.wait (Some false) [AUTHORIZED; PROVIDER_UPDATE; AUTHORIZED]))
   ≤ 2)%nat.
Proof.
  destruct authorization_wait as (H & _ & _).
  destruct (H (Some false) [AUTHORIZED; PROVIDER_UPDATE; AUTHORIZED])
    as (_ & _ & _ & H4 & _ & H6).
  split; [exact H4|exact H6].
Defined.

(** Claim C3 as stated fails on metaMaskSDK.ts: the provider update is
    emitted, which settles one of the paths of the claim, and the wait is not
    over; [connect] stays pending. *)
Lemma provider_update_unheard_in_metaMaskSDK_ts :
  some_path_settled (sdk_connection wallet_provider_update_only)
    (sdk_signals wallet_provider_update_only) = true ∧
  (TriggerAwaited.wait_if_unauthorized wallet_provider_update_only fresh_world).1
    = Pending ∧
  (connect metaMaskSDK_ts wallet_provider_update_only None fresh_world).1 = Pending ∧
  (connect part_000 wallet_provider_update_only None fresh_world).1 =
    Returned (connected "0xA11ce" (Num 1) false (Some 2%positive)).
Proof. vm_compute. auto. Qed.

(** Claim C4, amended. In part_000 the way the promise of [sdk.connect()]
    ends has no influence on [connect]: whether it is fulfilled, rejected or
    never settles, [connect] goes on to the authorization wait and ends the
    same way in the same world. In metaMaskSDK.ts the promise is awaited:
    once the SDK is initialized its rejection goes to the [catch] block, and
    [connect] throws the classified error without waiting for authorization
    or touching the listeners. *)
Theorem trigger_rejection (env : Env) (chainId : option number) (w : World) :
  (∀ s, SignalDriven.connect (with_sdk_connect_result env s) chainId w =
        SignalDriven.connect env chainId w) ∧
  (∀ e, sdk_connect_result env = Rejected e →
        sdk_isInitialized env = true ∨ sdk_init_result env = Fulfilled () →
        TriggerAwaited.connect env chainId w =
          (Thrown (classify env e),
           perform_all
             ((if sdk_isInitialized env then [] else [sdk_init]) ++ [sdk_connect]) w)).
Proof.
  split.
  - reflexivity.
  - intros e He Hinit.
    unfold TriggerAwaited.connect, try_catch, TriggerAwaited.connect_try,
      ensure_initialized, bind, perform, await, connect_catch, throw.
    rewrite He.
    destruct (sdk_isInitialized env); simpl; [done|].
    destruct Hinit as [? | Hi]; [done|by rewrite Hi].
Qed.

Lemma trigger_rejection_witness :
  SignalDriven.connect (with_sdk_connect_result wallet (Rejected offline)) None fresh_world
    = SignalDriven.connect wallet None fresh_world ∧
  TriggerAwaited.connect (with_sdk_connect_result wallet (Rejected busy)) None fresh_world
    = (Thrown (ResourceUnavailableRpcError busy),
       perform_all [sdk_connect] fresh_world).
Proof.
  split.
  - exact (proj1 (trigger_rejection wallet None fresh_world) (Rejected offline)).
  - exact (proj2 (trigger_rejection (with_sdk_connect_result wallet (Rejected busy))
                    None fresh_world)
             busy eq_refl (or_introl eq_refl)).
Defined.

(** Claim C4 as stated fails on metaMaskSDK.ts: with everything else equal,
    the rejection of the trigger alone turns a [connect] that returns into
    one that throws. *)
Lemma trigger_rejection_fails_connect_in_metaMaskSDK_ts :
  (connect metaMaskSDK_ts wallet None fresh_world).1 =
    Returned (connected "0xA11ce" (Num 1) false (Some 2%positive)) ∧
  (connect metaMaskSDK_ts (with_sdk_connect_result wallet (Rejected offline))
     None fresh_world).1 = Thrown offline ∧
  log (connect metaMaskSDK_ts (with_sdk_connect_result wallet (Rejected offline))
         None fresh_world).2 = [sdk_connect].
Proof. vm_compute. auto. Qed.

(** Claim C5. Whatever step of the [try] block of [connect] throws, and only
    then, [connect] throws, and what it throws is the classification of that
    very error, computed once by the [catch] block: the user-rejection error
    around it when the base connector's predicate holds for it (whatever its
    code), else the resource-unavailable error around it when its code is
    -32002, else the error itself. A rejected [sdk.init()] is one such
    step. *)
Theorem connect_error_classification (v : Version) (env : Env)
    (chainId : option number) (w : World) :
  (∀ e w1, connect_try v env chainId w = (Thrown e, w1) →
     connect v env chainId w = (Thrown (classify env e), w1)) ∧
  (∀ t w1, connect v env chainId w = (Thrown t, w1) →
     ∃ e, connect_try v env chainId w = (Thrown e, w1) ∧ t = classify env e) ∧
  (∀ e, base_isUserRejectedRequestError env e = true →
     classify env e = UserRejectedRequestError e) ∧
  (∀ e, base_isUserRejectedRequestError env e = false →
     error_code e = Some (-32002) →
     classify env e = ResourceUnavailableRpcError e) ∧
  (∀ e, base_isUserRejectedRequestError env e = false →
     error_code e ≠ Some (-32002) →
     classify env e = e) ∧
  (∀ e, sdk_isInitialized env = false → sdk_init_result env = Rejected e →
     connect v env chainId w = (Thrown (classify env e), apply_effect sdk_init w)).
Proof.
  split_and!.
  - intros e w1 H. destruct v; simpl in *;
      unfold SignalDriven.connect, TriggerAwaited.connect, try_catch; by rewrite H.
  - intros t w1 H. destruct v; simpl in *;
      unfold SignalDriven.connect, TriggerAwaited.connect, try_catch in H.
    + destruct (SignalDriven.connect_try env chainId w) as [[a|e|] w2];
        try discriminate. injection H as <- <-. eauto.
    + destruct (TriggerAwaited.connect_try env chainId w) as [[a|e|] w2];
        try discriminate. injection H as <- <-. eauto.
  - intros e H. unfold classify. by rewrite H.
  - intros e H1 H2. unfold classify, code_is_32002. by rewrite H1, H2.
  - intros e H1 H2. unfold classify, code_is_32002. rewrite H1.
    destruct (error_code e) as [c|]; [|done].
    destruct (Z.eqb_spec c (-32002)); [|done]. by subst.
  - intros e H1 H2. destruct v; simpl;
      unfold SignalDriven.connect, TriggerAwaited.connect, try_catch,
        SignalDriven.connect_try, TriggerAwaited.connect_try,
        ensure_initialized, bind, perform, await, connect_catch, throw;
      by rewrite H1, H2.
Qed.

Lemma connect_error_classification_witness :
  connect metaMaskSDK_ts (with_sdk_connect_result wallet (Rejected declined))
    None fresh_world
  = (Thrown (UserRejectedRequestError declined), perform_all [sdk_connect] fresh_world).
Proof.
  refine (proj1 (connect_error_classification metaMaskSDK_ts
                   (with_sdk_connect_result wallet (Rejected declined))
                   None fresh_world)
            declined (perform_all [sdk_connect] fresh_world) _).
  vm_compute. reflexivity.
Defined.

(** Claim C6. In a [connect] that returns, let [s] be the string obtained
    from the provider the connector holds after the resync (its [chainId]
    field when truthy, else what [eth_chainId] resolved to). Without a
    requested chain id, or with one strictly equal to [parseInt(s, 16)], the
    chain returned has that parse as id and is not unsupported. With a
    requested id that differs, the chain returned has the id [switchChain]
    resolved to, and is unsupported exactly when [isChainUnsupported] says so
    of that id. *)
Theorem chain_of_connect (v : Version) (env : Env) (chainId : option number)
    (w : World) (r : ConnectResponse) (w' : World) :
  connect v env chainId w = (Returned r, w') →
  ∃ s,
    obtained_from_provider env (sdk_getProvider env) s ∧
    (chainId = None ∨ (∃ c, chainId = Some c ∧ strict_eq (parseInt s) c = true) →
       chain r = {| id := parseInt s; unsupported := false |}) ∧
    (∀ c, chainId = Some c → strict_eq (parseInt s) c = false →
       ∃ n, base_switchChain env c = Fulfilled n ∧
            chain r = {| id := n; unsupported := base_isChainUnsupported env n |}).
Proof.
  intros H.
  apply connect_returned_tail in H as (fx & accounts & _ & Hp & _ & H).
  apply connect_tail_returned in H
    as (s & w1 & _ & _ & Hs & _ & _ & _ & H1 & H2 & _).
  rewrite Hp in Hs. eauto.
Qed.

Lemma chain_of_connect_witness :
  connect metaMaskSDK_ts wallet (Some (Num 137)) fresh_world =
    (Returned (connected "0xA11ce" (Num 137) true (Some 2%positive)),
     (connect metaMaskSDK_ts wallet (Some (Num 137)) fresh_world).2) ∧
  ∃ s,
    obtained_from_provider wallet (sdk_getProvider wallet) s ∧
    (Some (Num 137) = None ∨
     (∃ c, Some (Num 137) = Some c ∧ strict_eq (parseInt s) c = true) →
       chain (connected "0xA11ce" (Num 137) true (Some 2%positive)) =
         {| id := parseInt s; unsupported := false |}) ∧
    (∀ c, Some (Num 137) = Some c → strict_eq (parseInt s) c = false →
       ∃ n, base_switchChain wallet c = Fulfilled n ∧
            chain (connected "0xA11ce" (Num 137) true (Some 2%positive)) =
              {| id := n; unsupported := base_isChainUnsupported wallet n |}).
Proof.
  split.
  - vm_compute. reflexivity.
  - apply (chain_of_connect metaMaskSDK_ts wallet (Some (Num 137)) fresh_world
             (connected "0xA11ce" (Num 137) true (Some 2%positive))
             (connect metaMaskSDK_ts wallet (Some (Num 137)) fresh_world).2).
    vm_compute. reflexivity.
Defined.

(** Claim C7. In a [connect] that returns, the account returned is the
    element at index 0 of the account list, and ['0x'] when that list is
    empty or absent. The list is what [eth_requestAccounts] resolved to on
    the provider held after the resync in part_000 (absent when no provider
    is held), and what the awaited [sdk.connect()] resolved to in
    metaMaskSDK.ts. *)
Theorem account_of_connect (v : Version) (env : Env) (chainId : option number)
    (w : World) (r : ConnectResponse) (w' : World) :
  connect v env chainId w = (Returned r, w') →
  ∃ accounts,
    account_list v env accounts ∧
    account r = match accounts with
                | Some (first :: _) => first
                | _ => "0x"
                end.
Proof.
  intros H.
  apply connect_returned_tail in H as (fx & accounts & Hacc & _ & _ & H).
  apply connect_tail_returned in H
    as (s & w1 & _ & _ & _ & _ & Ha & _).
  exists accounts. split; [done|]. rewrite Ha.
  by destruct accounts as [[|]|].
Qed.

Lemma account_of_connect_witness :
  connect part_000 wallet_without_provider None fresh_world =
    (Returned (connected "0x" NaN false None),
     (connect part_000 wallet_without_provider None fresh_world).2) ∧
  ∃ accounts,
    account_list part_000 wallet_without_provider accounts ∧
    account (connected "0x" NaN false None) =
      match accounts with
      | Some (first :: _) => first
      | _ => "0x"
      end.
Proof.
  split.
  - vm_compute. reflexivity.
  - apply (account_of_connect part_000 wallet_without_provider None fresh_world
             (connected "0x" NaN false None)
             (connect part_000 wallet_without_provider None fresh_world).2).
    vm_compute. reflexivity.
Defined.

(** Claim C8, amended. In every [connect], however it ends, each call of
    [parseInt] is on the [chainId] field of the provider held after the
    resync when that field is truthy, and otherwise on whatever the
    [eth_chainId] request to that provider resolved to, unchecked; when no
    provider is held, neither source exists and [parseInt] is called on a
    missing value. *)
Theorem parse_argument_source (v : Version) (env : Env) (chainId : option number)
    (w : World) (o : Outcome ConnectResponse) (w' : World) :
  connect v env chainId w = (o, w') →
  ∃ fx, log w' = log w ++ fx ∧
    ∀ x, In (parseInt_called x) fx →
      match sdk_getProvider env with
      | Some p =>
          if truthy (provider_chainId env p) then x = provider_chainId env p
          else request_eth_chainId env p = Fulfilled x
      | None => x = None
      end.
Proof.
  intros H.
  assert (parses_from env (sdk_getProvider env) w w') as (fx & -> & Hfx).
  { destruct v; simpl in H.
    - pose proof (SignalDriven_parses env chainId w w eq_refl) as Hh.
      rewrite H in Hh. by destruct o.
    - pose proof (TriggerAwaited_parses env chainId w w eq_refl) as Hh.
      rewrite H in Hh. by destruct o. }
  exists fx. split; [apply log_perform_all|]. exact Hfx.
Qed.

Lemma parse_argument_source_witness :
  connect metaMaskSDK_ts wallet None fresh_world =
    (Returned (connected "0xA11ce" (Num 1) false (Some 2%positive)),
     (connect metaMaskSDK_ts wallet None fresh_world).2) ∧
  ∃ fx,
    log (connect metaMaskSDK_ts wallet None fresh_world).2 = log fresh_world ++ fx ∧
    ∀ x, In (parseInt_called x) fx →
      match sdk_getProvider wallet with
      | Some p =>
          if truthy (provider_chainId wallet p) then x = provider_chainId wallet p
          else request_eth_chainId wallet p = Fulfilled x
      | None => x = None
      end.
Proof.
  split.
  - vm_compute. reflexivity.
  - apply (parse_argument_source metaMaskSDK_ts wallet None fresh_world
             (Returned (connected "0xA11ce" (Num 1) false (Some 2%positive)))
             (connect metaMaskSDK_ts wallet None fresh_world).2).
    vm_compute. reflexivity.
Defined.

(** Claim C8 as stated fails when the SDK hands out no provider: [connect]
    reaches chain discovery, neither the field nor the request gives a value,
    and [parseInt] is called on the missing value; the chain id returned is
    [NaN]. It fails as well with a provider whose field is unset and whose
    answer to [eth_chainId] is [null]. *)
Lemma parse_of_missing_value :
  (connect part_000 wallet_without_provider None fresh_world).1 =
    Returned (connected "0x" NaN false None) ∧
  log (connect part_000 wallet_without_provider None fresh_world).2 =
    [ sdk_connect;
      sdk_once PROVIDER_UPDATE;
      sdk_once AUTHORIZED;
      authorization_confirmed;
      enter_updateProviderListeners;
      removeListener 1%positive "accountsChanged" onAccountsChanged;
      removeListener 1%positive "chainChanged" onChainChanged;
      removeListener 1%positive "disconnect" onDisconnect;
      set_provider None;
      accounts_obtained None;
      parseInt_called None;
      storage_setItem "metaMaskSDK.shimDisconnect" true ] ∧
  (connect metaMaskSDK_ts wallet_without_provider None fresh_world).1 =
    Returned (connected "0xA11ce" NaN false None) ∧
  In (parseInt_called None)
    (log (connect metaMaskSDK_ts wallet_without_provider None fresh_world).2) ∧
  (connect metaMaskSDK_ts wallet_without_chainId None fresh_world).1 =
    Returned (connected "0xA11ce" NaN false (Some 2%positive)) ∧
  In (parseInt_called None)
    (log (connect metaMaskSDK_ts wallet_without_chainId None fresh_world).2).
Proof. vm_compute. auto 30. Qed.

(** Claim C9. In both versions, a constructor call with neither [sdk] nor
    [sdkOptions] (nor any [options] at all) ends with the error
    ['MetaMaskConnector invalid sdk parameters'] before it has done anything:
    no SDK instance is built, no provider is asked for, [super] is not called.
    With at least one of the two it builds a connector. *)
Theorem constructor_guard (v : Version) (ce : Construction)
    (options_ : option MetaMaskSDKConnectorOptions) :
  (options_ ≫= opt_sdk = None ∧ options_ ≫= opt_sdkOptions = None →
     constructor v ce options_ = (invalid_sdk_parameters, [])) ∧
  (options_ ≫= opt_sdk ≠ None ∨ options_ ≫= opt_sdkOptions ≠ None →
     ∃ c steps, constructor v ce options_ = (instance c, steps)).
Proof.
  split.
  - intros [H1 H2].
    destruct v; simpl; unfold SignalDriven.constructor, TriggerAwaited.constructor,
      invalid_parameters; by rewrite H1, H2.
  - intros H.
    destruct v; simpl; unfold SignalDriven.constructor, TriggerAwaited.constructor,
      invalid_parameters, construct;
      destruct (options_ ≫= opt_sdk), (options_ ≫= opt_sdkOptions); simpl; eauto;
      by destruct H.
Qed.

Lemma constructor_guard_witness :
  constructor metaMaskSDK_ts construction
    (Some {| opt_debug := Some true; opt_sdk := None; opt_sdkOptions := None |})
  = (invalid_sdk_parameters, []) ∧
  ∃ c steps,
    constructor metaMaskSDK_ts construction
      (Some {| opt_debug := None; opt_sdk := None;
               opt_sdkOptions := Some {| dappMetadata := Some "dapp"; _source := None |} |})
    = (instance c, steps).
Proof.
  split.
  - apply (proj1 (constructor_guard metaMaskSDK_ts construction
                    (Some {| opt_debug := Some true; opt_sdk := None;
                             opt_sdkOptions := None |}))).
    split; reflexivity.
  - apply (proj2 (constructor_guard metaMaskSDK_ts construction
                    (Some {| opt_debug := None; opt_sdk := None;
                             opt_sdkOptions :=
                               Some {| dappMetadata := Some "dapp"; _source := None |} |}))).
    right. discriminate.
Defined.

(** Claim C10. Whatever options the caller passes, a constructor call that
    builds a connector hands [super] an options object whose [shimDisconnect]
    is [true], and that is what [this.options] holds. No operation writes
    [this.options], so in every later [connect] that returns, the storage the
    connector has ends up with the same entries except that the
    shim-disconnect key maps to [true] (a connector without a storage object
    stays without one). *)
Theorem shimDisconnect_always_persisted (v : Version) (ce : Construction)
    (options_ : option MetaMaskSDKConnectorOptions) (c : Connector)
    (steps : list ConstructorStep) :
  constructor v ce options_ = (instance c, steps) →
  shimDisconnect <$> this_options c = Some true ∧
  (∃ options, In (call_super options) steps ∧ shimDisconnect options = true) ∧
  ∀ ops em l env chainId r w',
    connect v env chainId (run v ops {| this := c; emitters := em; log := l |})
      = (Returned r, w') →
    this_storage (this w') =
      (λ m, <[this_shimDisconnectKey c := true]> m) <$>
        this_storage (this (run v ops {| this := c; emitters := em; log := l |})).
Proof.
  intros Hc.
  assert (Hopt : shimDisconnect <$> this_options c = Some true ∧
                 ∃ options, In (call_super options) steps ∧ shimDisconnect options = true).
  { apply constructor_instance in Hc as (debug & s & before & Hc).
    unfold construct in Hc. injection Hc as <- <-. simpl. split; [done|].
    eexists. split; [apply in_or_app; right; simpl; right; left; reflexivity|done]. }
  destruct Hopt as [Hopt Hsuper]. split; [done|]. split; [done|].
  intros ops em l env chainId r w' H.
  set (w := run v ops {| this := c; emitters := em; log := l |}) in *.
  assert (logged any_effect {| this := c; emitters := em; log := l |} w)
    as (fx0 & Hw & _) by (apply any_effect_run, logged_refl).
  destruct (perform_all_fixed fx0 {| this := c; emitters := em; log := l |})
    as (Ho & Hk). rewrite <- Hw in Ho, Hk. simpl in Ho, Hk.
  apply connect_returned_tail in H as (fx & accounts & _ & _ & Hst & H).
  apply connect_tail_returned in H
    as (s & w1 & _ & _ & _ & _ & _ & _ & _ & _ & H).
  destruct (perform_all_fixed fx w) as (Ho' & Hk').
  rewrite Ho', Hk', Hst, Ho, Hk in H. apply H.
  destruct (this_options c); simpl in *; by simplify_eq.
Qed.

Lemma shimDisconnect_always_persisted_witness :
  constructor part_000 construction
    (Some {| opt_debug := None; opt_sdk := Some (prebuilt 1); opt_sdkOptions := None |})
  = (instance fresh_connector,
     [ call_sdk_getProvider (prebuilt 1);
       call_super {| name := "MetaMask"; shimDisconnect := true;
                     options_getProvider := Some 1%positive |} ]) ∧
  shimDisconnect <$> this_options fresh_connector = Some true ∧
  this_storage (this (connect part_000 wallet (Some (Num 137)) fresh_world).2) =
    (λ m, <["metaMaskSDK.shimDisconnect" := true]> m) <$> Some ∅.
Proof.
  split; [reflexivity|].
  destruct (shimDisconnect_always_persisted part_000 construction
              (Some {| opt_debug := None; opt_sdk := Some (prebuilt 1);
                       opt_sdkOptions := None |})
              fresh_connector
              [ call_sdk_getProvider (prebuilt 1);
                call_super {| name := "MetaMask"; shimDisconnect := true;
                              options_getProvider := Some 1%positive |} ]
              eq_refl) as (H1 & _ & H3).
  split; [exact H1|].
  apply (H3 [] ∅ [] wallet (Some (Num 137))
           (connected "0xA11ce" (Num 137) true (Some 2%positive))).
  vm_compute. reflexivity.
Defined.

(* ===================================================================== *)
(** * Further properties of the operations *)
(* ===================================================================== *)

(** ** Initialization and [getProvider] *)

Lemma ensure_initialized_run env w :
  ensure_initialized env w =
    (outcome_of (init_outcome env) Returned, perform_all (init_effects env) w).
Proof.
  unfold ensure_initialized, init_outcome, init_effects, outcome_of, bind, perform, await.
  destruct (sdk_isInitialized env); simpl; [done|].
  by destruct (sdk_init_result env) as [[]| |].
Qed.

Lemma getProvider_run env w :
  getProvider env w =
    (outcome_of (init_outcome env)
       (λ _, Returned (match this_provider (this w) with
                       | Some p => Some p
                       | None => sdk_getProvider env
                       end)),
     perform_all
       (init_effects env ++
        match init_outcome env, this_provider (this w) with
        | Fulfilled _, None => [set_provider (sdk_getProvider env)]
        | _, _ => []
        end) w).
Proof.
  unfold getProvider, bind. rewrite ensure_initialized_run.
  assert (Hp : this_provider (this (perform_all (init_effects env) w))
               = this_provider (this w)).
  { rewrite provider_perform_all, replay_neutral; [done|].
    unfold init_effects. by destruct (sdk_isInitialized env). }
  rewrite perform_all_app.
  destruct (init_outcome env) as [[]|e|]; simpl; try by rewrite app_nil_r || done.
  unfold read, perform, ret. simpl. rewrite Hp.
  destruct (this_provider (this w)) as [p|] eqn:E; simpl.
  - by rewrite Hp.
  - done.
Qed.

(** Effects that are calls of [sdk.init()]. *)
Lemma init_effects_neutral env : forallb neutral (init_effects env) = true.
Proof. unfold init_effects. by destruct (sdk_isInitialized env). Qed.

Lemma init_effects_no_storage env : forallb no_storage (init_effects env) = true.
Proof. unfold init_effects. by destruct (sdk_isInitialized env). Qed.

Lemma emitters_perform_all fx w :
  emitters (perform_all fx w) = (replay fx (bindings w)).2.
Proof. by rewrite <- bindings_perform_all. Qed.

Lemma run_cons v o ops w : run v (o :: ops) w = run v ops (run_operation v o w).
Proof. done. Qed.

Lemma run_app v ops1 ops2 w : run v (ops1 ++ ops2) w = run v ops2 (run v ops1 w).
Proof. apply fold_left_app. Qed.

(** A [getProvider] on a connector that holds a provider only initializes. *)
Lemma getProvider_held env w p :
  this_provider (this w) = Some p →
  getProvider env w =
    (outcome_of (init_outcome env) (λ _, Returned (Some p)),
     perform_all (init_effects env) w).
Proof.
  intros Hp. rewrite getProvider_run, Hp. f_equal.
  destruct (init_outcome env); by rewrite app_nil_r.
Qed.

Lemma In_init_effects env e : In e (init_effects env) → e = sdk_init.
Proof.
  unfold init_effects. destruct (sdk_isInitialized env); simpl; [done|].
  by intros [<-|[]].
Qed.

(** X1. Once the connector holds a provider, calls of [getProvider] keep
    returning that provider, whatever the SDK would hand out by then: across
    any number of calls the only thing done is [sdk.init()] on an SDK that is
    not initialized, so the provider held, the listeners and the storage stay
    as they were, and a further call returns the provider when its
    initialization succeeds and ends as [init()] ends otherwise, with the
    rejection passed on as it is. *)
Theorem getProvider_keeps_held_provider (v : Version) (envs : list Env)
    (w : World) (p : pid) :
  this_provider (this w) = Some p →
  ∃ fx,
    run v (call_getProvider <$> envs) w = perform_all fx w ∧
    (∀ e, In e fx → e = sdk_init) ∧
    bindings (perform_all fx w) = bindings w ∧
    this_storage (this (perform_all fx w)) = this_storage (this w) ∧
    ∀ env,
      (getProvider env (perform_all fx w)).1 =
        match init_outcome env with
        | Fulfilled _ => Returned (Some p)
        | Rejected e => Thrown e
        | Never => Pending
        end.
Proof.
  intros Hp.
  assert (Hrun : ∃ fx, run v (call_getProvider <$> envs) w = perform_all fx w ∧
                       ∀ e, In e fx → e = sdk_init).
  { revert w Hp. induction envs as [|env envs IH]; intros w Hp.
    - by exists [].
    - rewrite fmap_cons, run_cons. cbn [run_operation].
      rewrite (getProvider_held env w p Hp). cbn [snd].
      destruct (IH (perform_all (init_effects env) w)) as (fx & Hfx & Hin).
      + rewrite provider_perform_all, replay_neutral; [done|].
        apply init_effects_neutral.
      + exists (init_effects env ++ fx). split.
        * rewrite Hfx. by rewrite perform_all_app.
        * intros e [He|He]%in_app_or; [by eapply In_init_effects|auto]. }
  destruct Hrun as (fx & Hfx & Hin). exists fx.
  assert (Hn : forallb neutral fx = true).
  { apply forallb_forall. by intros e ->%Hin. }
  assert (Hb : bindings (perform_all fx w) = bindings w).
  { rewrite bindings_perform_all. by apply replay_neutral. }
  split_and!; try done.
  - apply storage_perform_all. apply forallb_forall. by intros e ->%Hin.
  - intros env. rewrite (getProvider_held env _ p).
    + simpl. by destruct (init_outcome env).
    + change (this_provider (this (perform_all fx w))) with (bindings (perform_all fx w)).1.
      by rewrite Hb.
Qed.

Lemma getProvider_keeps_held_provider_witness :
  this_provider (this fresh_world) = Some 1%positive ∧
  ∃ fx,
    run part_000 (call_getProvider <$> [wallet; wallet_without_provider]) fresh_world
      = perform_all fx fresh_world ∧
    (∀ e, In e fx → e = sdk_init) ∧
    bindings (perform_all fx fresh_world) = bindings fresh_world ∧
    this_storage (this (perform_all fx fresh_world)) = this_storage (this fresh_world) ∧
    ∀ env,
      (getProvider env (perform_all fx fresh_world)).1 =
        match init_outcome env with
        | Fulfilled _ => Returned (Some 1%positive)
        | Rejected e => Thrown e
        | Never => Pending
        end.
Proof.
  split; [reflexivity|].
  apply (getProvider_keeps_held_provider part_000 [wallet; wallet_without_provider]
           fresh_world 1%positive).
  reflexivity.
Defined.

(** The provider a [connect] that returned leaves in [#provider] is the one
    it returned. *)
Lemma connect_returned_holds v env chainId w r w' :
  connect v env chainId w = (Returned r, w') →
  this_provider (this w') = provider r ∧ provider r = sdk_getProvider env.
Proof.
  intros H. apply connect_returned_log in H
    as (before & after & -> & Hr & _ & Hafter & _).
  split; [|done]. rewrite Hr. by apply provider_after_resync.
Qed.

(** X2. After a [connect] that returned, [getProvider] gives the provider
    that [connect] returned, without consulting the SDK again and without
    touching the listeners; only when [connect] returned no provider does it
    adopt what the SDK hands out at that moment. *)
Theorem getProvider_after_connect (v : Version) (env : Env)
    (chainId : option number) (w : World) (r : ConnectResponse) (w' : World)
    (env' : Env) :
  connect v env chainId w = (Returned r, w') →
  init_outcome env' = Fulfilled () →
  (getProvider env' w').1 =
    Returned (match provider r with
              | Some p => Some p
              | None => sdk_getProvider env'
              end) ∧
  (provider r ≠ None →
     (getProvider env' w').2 = perform_all (init_effects env') w' ∧
     bindings (getProvider env' w').2 = bindings w').
Proof.
  intros H Hinit. apply connect_returned_holds in H as [Hp _].
  rewrite getProvider_run, Hinit, Hp. simpl. split; [done|].
  intros Hr. destruct (provider r) as [p|]; [|done].
  rewrite app_nil_r. split; [done|].
  rewrite bindings_perform_all. apply replay_neutral, init_effects_neutral.
Qed.

Lemma getProvider_after_connect_witness :
  (getProvider wallet_without_provider
     (connect metaMaskSDK_ts wallet None fresh_world).2).1 =
    Returned (Some 2%positive) ∧
  (provider (connected "0xA11ce" (Num 1) false (Some 2%positive)) ≠ None →
     (getProvider wallet_without_provider
        (connect metaMaskSDK_ts wallet None fresh_world).2).2 =
       perform_all (init_effects wallet_without_provider)
         (connect metaMaskSDK_ts wallet None fresh_world).2 ∧
     bindings (getProvider wallet_without_provider
                 (connect metaMaskSDK_ts wallet None fresh_world).2).2 =
       bindings (connect metaMaskSDK_ts wallet None fresh_world).2).
Proof.
  apply (getProvider_after_connect metaMaskSDK_ts wallet None fresh_world
           (connected "0xA11ce" (Num 1) false (Some 2%positive))
           (connect metaMaskSDK_ts wallet None fresh_world).2
           wallet_without_provider).
  - vm_compute. reflexivity.
  - reflexivity.
Defined.

(** What [disconnect] performs on a connector that holds [cur]. *)
Lemma disconnect_run w :
  disconnect w =
    (Returned (),
     perform_all
       (sdk_terminate ::
        from_option removals [] (this_provider (this w)) ++
        [storage_removeItem (this_shimDisconnectKey (this w))]) w).
Proof.
  destruct w as [[s [p|] d o st k] em l];
    unfold disconnect, super_disconnect, bind, perform, read, on_provider, ret;
    reflexivity.
Qed.




(** ** The constructor *)

(** X4. Which SDK the connector keeps: an instance the caller supplies always
    wins, also when SDK options are supplied with it, and then no SDK is
    built; otherwise SDK options are present and exactly one SDK is built
    from them, as they are in part_000 and with [_source] overwritten by
    ['wagmi'] in metaMaskSDK.ts, whose fallback [dappMetadata] (lines 42-45)
    is never used. In both cases [getProvider()] is asked once, of the SDK
    kept, before [super] is called. *)
Theorem constructor_sdk_choice (v : Version) (ce : Construction)
    (options_ : option MetaMaskSDKConnectorOptions) (c : Connector)
    (steps : list ConstructorStep) :
  constructor v ce options_ = (instance c, steps) →
  ∃ options,
    match options_ ≫= opt_sdk with
    | Some s =>
        this_sdk c = s ∧
        steps = [call_sdk_getProvider s; call_super options]
    | None =>
        ∃ o, options_ ≫= opt_sdkOptions = Some o ∧
          let built :=
            match v with
            | part_000 => o
            | metaMaskSDK_ts =>
                {| dappMetadata := dappMetadata o; _source := Some "wagmi" |}
            end in
          this_sdk c = new_MetaMaskSDK built ∧
          steps = [construct_sdk built;
                   call_sdk_getProvider (new_MetaMaskSDK built);
                   call_super options]
    end.
Proof.
  destruct v; simpl;
    unfold SignalDriven.constructor, TriggerAwaited.constructor,
      invalid_parameters, construct.
  all: destruct (options_ ≫= opt_sdk) as [s|] eqn:Es;
       destruct (options_ ≫= opt_sdkOptions) as [o|] eqn:Eo; simpl.
  all: intros [= <- <-]; eexists; simpl; eauto.
Qed.

Lemma constructor_sdk_choice_witness :
  ∃ options,
    ∃ o, Some {| dappMetadata := Some "dapp"; _source := Some "dapp" |} = Some o ∧
      let built := {| dappMetadata := dappMetadata o; _source := Some "wagmi" |} in
      new_MetaMaskSDK {| dappMetadata := Some "dapp"; _source := Some "wagmi" |}
        = new_MetaMaskSDK built ∧
      [construct_sdk {| dappMetadata := Some "dapp"; _source := Some "wagmi" |};
       call_sdk_getProvider
         (new_MetaMaskSDK {| dappMetadata := Some "dapp"; _source := Some "wagmi" |});
       call_super {| name := "MetaMask"; shimDisconnect := true;
                     options_getProvider := Some 1%positive |}]
        = [construct_sdk built;
           call_sdk_getProvider (new_MetaMaskSDK built);
           call_super options].
Proof.
  exact (constructor_sdk_choice metaMaskSDK_ts construction
           (Some {| opt_debug := None; opt_sdk := None;
                    opt_sdkOptions :=
                      Some {| dappMetadata := Some "dapp"; _source := Some "dapp" |} |})
           _ _ eq_refl).
Defined.

Lemma run_options v ops w :
  this_options (this (run v ops w)) = this_options (this w).
Proof.
  destruct (any_effect_run v w ops w (logged_refl _ _)) as (fx & -> & _).
  apply perform_all_fixed.
Qed.

Lemma connect_options v env chainId w :
  this_options (this (connect v env chainId w).2) = this_options (this w).
Proof.
  destruct (any_effect_connect v w env chainId w (logged_refl _ _)) as (fx & -> & _).
  apply perform_all_fixed.
Qed.

(** X5. The provider is captured once: after construction the connector
    holds what [sdk.getProvider()] answered then, and the [getProvider] of
    the options handed to the base class returns that same provider. No
    operation changes what the options return, whereas a [connect] that
    returns replaces the provider the connector holds by the one the SDK
    hands out during it: after any operations and such a [connect], the
    options still return the provider captured at construction and the
    connector holds the SDK's current one. *)
Theorem constructor_captures_provider (v : Version) (ce : Construction)
    (options_ : option MetaMaskSDKConnectorOptions) (c : Connector)
    (steps : list ConstructorStep) :
  constructor v ce options_ = (instance c, steps) →
  this_provider c = sdk_provider ce (this_sdk c) ∧
  options_getProvider <$> this_options c = Some (sdk_provider ce (this_sdk c)) ∧
  (∃ options,
     In (call_super options) steps ∧
     options_getProvider options = sdk_provider ce (this_sdk c)) ∧
  ∀ ops em l env chainId r w',
    connect v env chainId (run v ops {| this := c; emitters := em; log := l |})
      = (Returned r, w') →
    options_getProvider <$> this_options (this w')
      = Some (sdk_provider ce (this_sdk c)) ∧
    this_provider (this w') = sdk_getProvider env ∧
    provider r = sdk_getProvider env.
Proof.
  intros H. apply constructor_instance in H as (debug & s & before & H).
  unfold construct in H. injection H as <- <-. simpl.
  split_and!; try done.
  - eexists. split; [apply in_or_app; right; right; left; reflexivity|done].
  - intros ops em l env chainId r w' H.
    pose proof (connect_returned_holds _ _ _ _ _ _ H) as [Hp Hr].
    split_and!; [|congruence|done].
    pose proof (connect_options v env chainId
                  (run v ops {| this := {| this_sdk := s;
                                           this_provider := sdk_provider ce s;
                                           this_debug := default false debug;
                                           this_options :=
                                             Some {| name := "MetaMask";
                                                     shimDisconnect := true;
                                                     options_getProvider := sdk_provider ce s |};
                                           this_storage := base_storage ce;
                                           this_shimDisconnectKey := base_shimDisconnectKey ce |};
                                emitters := em; log := l |})) as Ho.
    rewrite H in Ho. cbn [snd] in Ho. rewrite Ho.
    by rewrite run_options.
Qed.

Lemma constructor_captures_provider_witness :
  options_getProvider <$>
    this_options (this (connect part_000 wallet None fresh_world).2)
    = Some (Some 1%positive) ∧
  this_provider (this (connect part_000 wallet None fresh_world).2)
    = Some 2%positive.
Proof.
  assert (H : connect part_000 wallet None (run part_000 [] fresh_world) =
              (Returned (connected "0xA11ce" (Num 1) false (Some 2%positive)),
               (connect part_000 wallet None fresh_world).2))
    by (vm_compute; reflexivity).
  pose proof (proj2 (proj2 (proj2
    (constructor_captures_provider part_000 construction
       (Some {| opt_debug := None; opt_sdk := Some (prebuilt 1);
                opt_sdkOptions := None |})
       fresh_connector _ eq_refl))) [] ∅ [] wallet None _ _ H) as (H1 & H2 & _).
  split; [exact H1|exact H2].
Defined.

(** ** [connect] computes [connect_outcome] and [connect_effects] *)

Lemma runs_bind {A B} (m : Async A) (k : A → Async B) w a fx o fx' :
  runs m w (Returned a) fx →
  runs (k a) (perform_all fx w) o fx' →
  runs (bind m k) w o (fx ++ fx').
Proof.
  unfold runs, bind. intros -> ->. by rewrite perform_all_app.
Qed.

Lemma runs_bind_failed {A B} (m : Async A) (k : A → Async B) w s fx :
  (∀ a, s ≠ Fulfilled a) →
  runs m w (outcome_of s Returned) fx →
  runs (bind m k) w (outcome_of s (λ _, Pending)) fx.
Proof.
  unfold runs, bind. intros Hs ->. destruct s; simpl; [by destruct (Hs a)|done..].
Qed.

Lemma runs_perform e w : runs (perform e) w (Returned ()) [e].
Proof. done. Qed.

Lemma runs_await {A} (s : Settled A) w : runs (await s) w (outcome_of s Returned) [].
Proof. unfold runs, await. by destruct s. Qed.

Lemma debug_perform_all fx w :
  this_debug (this (perform_all fx w)) = this_debug (this w).
Proof.
  revert w. induction fx as [|e fx IH]; intros w; [done|]. simpl. by rewrite IH.
Qed.

Lemma persist_effects_perform_all fx w :
  forallb no_storage fx = true →
  persist_effects (this (perform_all fx w)) = persist_effects (this w).
Proof.
  intros H. unfold persist_effects.
  destruct (perform_all_fixed fx w) as [-> ->].
  by rewrite storage_perform_all.
Qed.

Lemma waitForSDK_run env w :
  runs (SignalDriven.waitForSDK env) w
    (if some_path_settled (sdk_connection env) (sdk_signals env)
     then Returned true else Pending)
    (waitForSDK_effects (this_debug (this w)) (sdk_connection env)).
Proof.
  destruct (waitForSDK_state (sdk_connection env) (sdk_signals env)) as (H1 & _).
  unfold runs, SignalDriven.waitForSDK, waitForSDK_effects,
    bind, read, perform, ret, await, awaited.
  rewrite H1.
  destruct (this_debug (this w)),
    (SignalDriven.once_AUTHORIZED (SignalDriven.executor (sdk_connection env))),
    (some_path_settled (sdk_connection env) (sdk_signals env)); done.
Qed.

Lemma wait_if_unauthorized_run env w :
  runs (TriggerAwaited.wait_if_unauthorized env) w
    (if authorized_in_time env then Returned () else Pending)
    (wait_if_unauthorized_effects env).
Proof.
  destruct (waitForAuthorized_state (sdk_connection env) (sdk_signals env))
    as (Hp & _).
  unfold runs, TriggerAwaited.wait_if_unauthorized, wait_if_unauthorized_effects,
    authorized_in_time, TriggerAwaited.must_wait,
    TriggerAwaited.waitForAuthorized, bind, read, perform, ret, await, awaited.
  rewrite Hp.
  destruct (sdk_isExtensionActive env), (sdk_connection env) as [[|]|];
    simpl; try done.
  by destruct (bool_decide (AUTHORIZED ∈ sdk_signals env)).
Qed.

Lemma providerChainId_run env w :
  runs (providerChainId env) w
    (outcome_of (chainId_source env (this_provider (this w))) Returned)
    (chainId_effects env (this_provider (this w))).
Proof.
  unfold runs, providerChainId, chainId_source, chainId_effects, bind, read,
    perform, ret, await.
  destruct (this_provider (this w)) as [p|]; simpl; [|done].
  destruct (truthy (provider_chainId env p)); simpl; [done|].
  by destruct (request_eth_chainId env p).
Qed.

Lemma reconcileChain_run env chainId w :
  let p := this_provider (this w) in
  runs (reconcileChain env chainId) w
    (outcome_of (chainId_source env p) (λ s,
       outcome_of (chain_result env chainId s) Returned))
    (chainId_effects env p ++
     match chainId_source env p with
     | Fulfilled s => chain_effects chainId s
     | _ => []
     end).
Proof.
  intros p. unfold runs, reconcileChain, bind.
  rewrite providerChainId_run. fold p.
  destruct (chainId_source env p) as [s| |]; simpl; try by rewrite app_nil_r.
  rewrite perform_all_app.
  unfold chain_result, chain_effects, switch_needed, perform, ret, await.
  destruct chainId as [c|]; simpl; [|done].
  destruct (strict_neq (parseInt s) c); simpl; [|done].
  by destruct (base_switchChain env c).
Qed.

Lemma persist_shimDisconnect_run w :
  runs persist_shimDisconnect w (Returned ()) (persist_effects (this w)).
Proof.
  unfold runs, persist_shimDisconnect, persist_effects, bind, read, perform, ret.
  destruct (default false (shimDisconnect <$> this_options (this w))); simpl; [|done].
  by destruct (this_storage (this w)).
Qed.

Lemma chainId_effects_neutral env p : forallb neutral (chainId_effects env p) = true.
Proof.
  unfold chainId_effects. destruct p as [p|]; [|done].
  by destruct (truthy (provider_chainId env p)).
Qed.

Lemma chain_effects_neutral chainId s : forallb neutral (chain_effects chainId s) = true.
Proof. unfold chain_effects. by destruct (switch_needed chainId s). Qed.

Lemma chainId_effects_no_storage env p :
  forallb no_storage (chainId_effects env p) = true.
Proof.
  unfold chainId_effects. destruct p as [p|]; [|done].
  by destruct (truthy (provider_chainId env p)).
Qed.

Lemma chain_effects_no_storage chainId s :
  forallb no_storage (chain_effects chainId s) = true.
Proof. unfold chain_effects. by destruct (switch_needed chainId s). Qed.

Lemma persist_effects_neutral c : forallb neutral (persist_effects c) = true.
Proof. unfold persist_effects. by destruct (_ && _). Qed.

Lemma connect_tail_run env chainId accounts w :
  runs (connect_tail env chainId accounts) w
    (tail_outcome env chainId (this_provider (this w)) accounts)
    (tail_effects env chainId (this_provider (this w)) (this w)).
Proof.
  unfold runs, connect_tail, bind. rewrite reconcileChain_run.
  unfold tail_outcome, tail_effects.
  set (p := this_provider (this w)).
  destruct (chainId_source env p) as [s| |]; simpl; try done.
  destruct (chain_result env chainId s) as [c| |]; simpl; try by rewrite app_nil_r.
  rewrite persist_shimDisconnect_run. unfold read, ret.
  rewrite persist_effects_perform_all
    by (rewrite forallb_app, chainId_effects_no_storage, chain_effects_no_storage; done).
  rewrite <- perform_all_app, <- app_assoc.
  rewrite provider_perform_all, replay_neutral; [done|].
  rewrite !forallb_app, chainId_effects_neutral, chain_effects_neutral.
  apply persist_effects_neutral.
Qed.

Lemma tail_effects_perform_all env chainId p fx w :
  forallb no_storage fx = true →
  tail_effects env chainId p (this (perform_all fx w)) = tail_effects env chainId p (this w).
Proof. intros H. unfold tail_effects. by rewrite persist_effects_perform_all. Qed.

Lemma waitForSDK_effects_quiet debug connection :
  forallb quiet (waitForSDK_effects debug connection) = true.
Proof.
  unfold waitForSDK_effects.
  by destruct debug, (SignalDriven.once_AUTHORIZED (SignalDriven.executor connection)).
Qed.

Lemma wait_if_unauthorized_effects_quiet env :
  forallb quiet (wait_if_unauthorized_effects env) = true.
Proof. unfold wait_if_unauthorized_effects. by destruct (_ && _). Qed.

Lemma init_effects_quiet env : forallb quiet (init_effects env) = true.
Proof. unfold init_effects. by destruct (sdk_isInitialized env). Qed.

Lemma quiet_neutral fx : forallb quiet fx = true → forallb neutral fx = true.
Proof. apply forallb_impl. by intros []. Qed.

Lemma quiet_no_storage fx : forallb quiet fx = true → forallb no_storage fx = true.
Proof. apply forallb_impl. by intros []. Qed.

Lemma resync_effects_no_storage cur new :
  forallb no_storage (resync_effects cur new) = true.
Proof. by apply forallb_resync_effects. Qed.

(** The resync as a run. *)
Lemma updateProviderListeners_runs env w :
  runs (updateProviderListeners env) w (Returned ())
    (resync_effects (this_provider (this w)) (sdk_getProvider env)).
Proof. apply updateProviderListeners_run. Qed.

Lemma ensure_initialized_runs env w :
  runs (ensure_initialized env) w (outcome_of (init_outcome env) Returned)
    (init_effects env).
Proof. apply ensure_initialized_run. Qed.

Lemma provider_resynced fx cur new fx' w :
  forallb neutral fx' = true →
  this_provider (this (perform_all (fx ++ resync_effects cur new ++ fx') w)) = new.
Proof.
  intros H. rewrite provider_perform_all. do 2 rewrite replay_app.
  rewrite (replay_neutral fx') by done. apply replay_resync_effects.
Qed.

Lemma perform_all_cons e l w :
  perform_all (e :: l) w = perform_all l (apply_effect e w).
Proof. done. Qed.

Lemma perform_all_nil w : perform_all [] w = w.
Proof. done. Qed.

Lemma debug_apply_effect e w : this_debug (this (apply_effect e w)) = this_debug (this w).
Proof. done. Qed.

Lemma provider_apply_effect e w :
  neutral e = true → this_provider (this (apply_effect e w)) = this_provider (this w).
Proof. by destruct e. Qed.

Lemma provider_neutral fx w :
  forallb neutral fx = true →
  this_provider (this (perform_all fx w)) = this_provider (this w).
Proof. intros H. by rewrite provider_perform_all, replay_neutral. Qed.

Lemma provider_resync cur new w :
  this_provider (this (perform_all (resync_effects cur new) w)) = new.
Proof. rewrite provider_perform_all. apply replay_resync_effects. Qed.

Lemma tail_effects_apply_effect env chainId p e w :
  no_storage e = true →
  tail_effects env chainId p (this (apply_effect e w)) = tail_effects env chainId p (this w).
Proof. intros H. by apply (tail_effects_perform_all env chainId p [e] w), andb_true_intro. Qed.

(** Nested runs of effects, one layer per list or effect. *)
Ltac layers :=
  repeat first
    [ rewrite perform_all_app | rewrite perform_all_cons | rewrite perform_all_nil ].

(** The fields of the connector, read through such layers. *)
Ltac fields :=
  repeat first
    [ rewrite debug_apply_effect
    | rewrite debug_perform_all
    | rewrite provider_resync
    | rewrite provider_apply_effect by reflexivity
    | rewrite provider_neutral
        by first [ apply init_effects_neutral
                 | apply quiet_neutral, waitForSDK_effects_quiet
                 | apply quiet_neutral, wait_if_unauthorized_effects_quiet ]
    | rewrite tail_effects_apply_effect by reflexivity
    | rewrite tail_effects_perform_all
        by first [ apply init_effects_no_storage
                 | apply resync_effects_no_storage
                 | apply quiet_no_storage, waitForSDK_effects_quiet
                 | apply quiet_no_storage, wait_if_unauthorized_effects_quiet ] ].

Lemma SignalDriven_connect_try_run env chainId w :
  runs (SignalDriven.connect_try env chainId) w
    (connect_try_outcome part_000 env chainId)
    (connect_effects part_000 env chainId (this w)).
Proof.
  unfold runs, connect_try_outcome, connect_effects, SignalDriven.connect_try,
    accounts_source, accounts_request_effects.
  cbv zeta. unfold bind at 1. rewrite ensure_initialized_run.
  destruct (init_outcome env) as [[]|e|]; simpl outcome_of; cbv iota beta;
    try by rewrite app_nil_r.
  unfold bind at 1. unfold perform at 1.
  unfold bind at 1. rewrite waitForSDK_run. fields.
  destruct (some_path_settled (sdk_connection env) (sdk_signals env));
    [|by layers].
  unfold bind at 1. unfold perform at 1.
  unfold bind at 1. rewrite updateProviderListeners_run. fields.
  unfold bind at 1. unfold bind at 1. unfold read at 1. fields.
  destruct (sdk_getProvider env) as [p|].
  - unfold bind at 1. unfold perform at 1. unfold await at 1.
    destruct (request_eth_requestAccounts env p) as [accounts|e|]; simpl outcome_of;
      [|by layers..].
    unfold bind at 1. unfold perform at 1. rewrite connect_tail_run. fields.
    by layers.
  - unfold ret at 1. simpl outcome_of.
    unfold bind at 1. unfold perform at 1. rewrite connect_tail_run. fields.
    by layers.
Qed.

Lemma TriggerAwaited_connect_try_run env chainId w :
  runs (TriggerAwaited.connect_try env chainId) w
    (connect_try_outcome metaMaskSDK_ts env chainId)
    (connect_effects metaMaskSDK_ts env chainId (this w)).
Proof.
  unfold runs, connect_try_outcome, connect_effects, TriggerAwaited.connect_try,
    accounts_source.
  cbv zeta. unfold bind at 1. rewrite ensure_initialized_run.
  destruct (init_outcome env) as [[]|e|]; simpl outcome_of; cbv iota beta;
    try by rewrite app_nil_r.
  unfold bind at 1. unfold perform at 1.
  unfold bind at 1. unfold await at 1.
  destruct (sdk_connect_result env) as [accounts|e|]; simpl outcome_of;
    [|by layers..].
  unfold bind at 1. unfold perform at 1.
  unfold bind at 1. rewrite updateProviderListeners_run. fields.
  unfold bind at 1. rewrite wait_if_unauthorized_run.
  destruct (authorized_in_time env); [|by layers].
  unfold bind at 1. unfold perform at 1. rewrite connect_tail_run. fields.
  by layers.
Qed.

(** What [connect] answers and performs. *)
Lemma connect_run v env chainId w :
  runs (connect v env chainId) w
    (connect_outcome v env chainId) (connect_effects v env chainId (this w)).
Proof.
  unfold runs, connect_outcome.
  destruct v; simpl connect;
    unfold SignalDriven.connect, TriggerAwaited.connect, try_catch.
  - rewrite SignalDriven_connect_try_run.
    by destruct (connect_try_outcome part_000 env chainId).
  - rewrite TriggerAwaited_connect_try_run.
    by destruct (connect_try_outcome metaMaskSDK_ts env chainId).
Qed.

(** ** What [connect] answers *)

(** X6. What [connect] answers is decided by what the SDK, the provider and
    the base connector answer during the call alone: the provider the
    connector held before, its listeners, its storage and its debug flag have
    no part in it, so a call gives the same answer on a fresh connector and
    after any earlier operations. *)
Theorem connect_answer_ignores_state (v : Version) (env : Env)
    (chainId : option number) (ops : list Operation) (w1 w2 : World) :
  (connect v env chainId w1).1 = (connect v env chainId w2).1 ∧
  (connect v env chainId (run v ops w1)).1 = (connect v env chainId w1).1.
Proof. by rewrite !connect_run. Qed.

(** ** The calls of one kind among the effects of [connect] *)

Lemma connect_log v env chainId w :
  log (connect v env chainId w).2 = log w ++ connect_effects v env chainId (this w).
Proof. rewrite connect_run. apply log_perform_all. Qed.

Lemma filter_class (ψ φ : Effect → bool) l :
  forallb ψ l = true → (∀ e, ψ e = true → φ e = false) → List.filter φ l = [].
Proof.
  intros Hl H. induction l as [|e l IH]; [done|].
  simpl in *. apply andb_true_iff in Hl as [He Hl]. by rewrite (H e He), IH.
Qed.

Lemma filter_class_all (ψ φ : Effect → bool) l :
  forallb ψ l = true → (∀ e, ψ e = true → φ e = true) → List.filter φ l = l.
Proof.
  intros Hl H. induction l as [|e l IH]; [done|].
  simpl in *. apply andb_true_iff in Hl as [He Hl]. by rewrite (H e He), IH.
Qed.

Lemma init_effects_class env : forallb is_sdk_init (init_effects env) = true.
Proof. unfold init_effects. by destruct (sdk_isInitialized env). Qed.

Lemma waitForSDK_effects_class debug connection :
  forallb wait_call (waitForSDK_effects debug connection) = true.
Proof.
  unfold waitForSDK_effects.
  by destruct debug, (SignalDriven.once_AUTHORIZED (SignalDriven.executor connection)).
Qed.

Lemma wait_if_unauthorized_effects_class env :
  forallb is_sdk_once (wait_if_unauthorized_effects env) = true.
Proof. unfold wait_if_unauthorized_effects. by destruct (_ && _). Qed.

Lemma resync_effects_class cur new :
  forallb resync_call (resync_effects cur new) = true.
Proof. by apply forallb_resync_effects. Qed.

Lemma accounts_request_effects_class p :
  forallb accounts_request (accounts_request_effects p) = true.
Proof. by destruct p. Qed.

Lemma chainId_effects_class env p :
  forallb chain_request (chainId_effects env p) = true.
Proof.
  unfold chainId_effects. destruct p as [p|]; [|done].
  by destruct (truthy (provider_chainId env p)).
Qed.

Lemma chain_effects_class chainId s : forallb chain_call (chain_effects chainId s) = true.
Proof. unfold chain_effects. by destruct (switch_needed chainId s). Qed.

Lemma persist_effects_class c : forallb is_storage_setItem (persist_effects c) = true.
Proof. unfold persist_effects. by destruct (_ && _). Qed.

(** Each block of effects is kept whole or dropped whole by a filter on the
    kind of call. *)
Ltac filter_block φ l :=
  lazymatch l with
  | init_effects ?env =>
      first [ rewrite (filter_class is_sdk_init φ l (init_effects_class env))
                by (by intros [])
            | rewrite (filter_class_all is_sdk_init φ l (init_effects_class env))
                by (by intros []) ]
  | waitForSDK_effects ?d ?c =>
      rewrite (filter_class wait_call φ l (waitForSDK_effects_class d c))
        by (by intros [])
  | wait_if_unauthorized_effects ?env =>
      rewrite (filter_class is_sdk_once φ l (wait_if_unauthorized_effects_class env))
        by (by intros [])
  | resync_effects ?cur ?new =>
      rewrite (filter_class resync_call φ l (resync_effects_class cur new))
        by (by intros [])
  | accounts_request_effects ?p =>
      first [ rewrite (filter_class accounts_request φ l (accounts_request_effects_class p))
                by (by intros [])
            | rewrite (filter_class_all accounts_request φ l
                         (accounts_request_effects_class p))
                by (by intros []) ]
  | chainId_effects ?env ?p =>
      first [ rewrite (filter_class chain_request φ l (chainId_effects_class env p))
                by (by intros [])
            | rewrite (filter_class_all chain_request φ l (chainId_effects_class env p))
                by (by intros []) ]
  | chain_effects ?chainId ?s =>
      first [ rewrite (filter_class chain_call φ l (chain_effects_class chainId s))
                by (by intros [])
            | rewrite (filter_class_all chain_call φ l (chain_effects_class chainId s))
                by (by intros []) ]
  | persist_effects ?c =>
      first [ rewrite (filter_class is_storage_setItem φ l (persist_effects_class c))
                by (by intros [])
            | rewrite (filter_class_all is_storage_setItem φ l (persist_effects_class c))
                by (by intros []) ]
  end.

Ltac filter_blocks :=
  repeat first
    [ rewrite List.filter_app
    | progress cbn [List.filter sdk_trigger is_console_log is_request chain_call
                    is_switchChain on_storage rebinds no_storage neutral negb]
    | match goal with
      | |- context [List.filter ?φ ?l] => filter_block φ l
      end ];
  rewrite ?app_nil_r; cbn [app].

(** The branches a [connect] can take. *)
Ltac unfold_connect :=
  unfold connect_effects, connect_outcome, connect_try_outcome, reaches_resync,
    tail_effects, tail_outcome, caught;
  cbv zeta.

Ltac branches v env :=
  unfold_connect;
  destruct v;
  destruct (init_outcome env) as [[]|?|]; cbn [outcome_of];
  try change (accounts_source metaMaskSDK_ts env) with (sdk_connect_result env);
  repeat match goal with
  | |- context [match sdk_connect_result env with _ => _ end] =>
      destruct (sdk_connect_result env); cbn [outcome_of]
  | |- context [outcome_of (sdk_connect_result env) _] =>
      destruct (sdk_connect_result env); cbn [outcome_of]
  | |- context [if some_path_settled ?c ?s then _ else _] =>
      destruct (some_path_settled c s)
  | |- context [match accounts_source ?v' env with _ => _ end] =>
      destruct (accounts_source v' env); cbn [outcome_of]
  | |- context [outcome_of (accounts_source ?v' env) _] =>
      destruct (accounts_source v' env); cbn [outcome_of]
  | |- context [if authorized_in_time env then _ else _] =>
      destruct (authorized_in_time env)
  | |- context [match chainId_source env ?p with _ => _ end] =>
      destruct (chainId_source env p); cbn [outcome_of]
  | |- context [match chain_result env ?c ?s with _ => _ end] =>
      destruct (chain_result env c s); cbn [outcome_of]
  end.

Lemma connect_sdk_triggers v env chainId c :
  List.filter sdk_trigger (connect_effects v env chainId c) =
    init_effects env ++
    match init_outcome env with
    | Fulfilled _ => [sdk_connect]
    | _ => []
    end.
Proof. branches v env; filter_blocks; done. Qed.

Lemma connect_console_logs v env chainId c :
  List.filter is_console_log (connect_effects v env chainId c) =
    match v, init_outcome env with
    | part_000, Fulfilled _ =>
        if this_debug c
        then [console_log "MetaMaskSDKConnector waiting for SDK validation"]
        else []
    | _, _ => []
    end.
Proof.
  assert (Hw : ∀ d k,
            List.filter is_console_log (waitForSDK_effects d k) =
              if d then [console_log "MetaMaskSDKConnector waiting for SDK validation"]
              else []).
  { intros d k. unfold waitForSDK_effects.
    by destruct d, (SignalDriven.once_AUTHORIZED (SignalDriven.executor k)). }
  branches v env;
    repeat first
      [ rewrite List.filter_app
      | rewrite Hw
      | progress cbn [List.filter is_console_log]
      | match goal with
        | |- context [List.filter ?φ ?l] => filter_block φ l
        end ];
    rewrite ?app_nil_r; by destruct (this_debug c).
Qed.

Lemma connect_storage_calls v env chainId c :
  List.filter on_storage (connect_effects v env chainId c) =
    match connect_outcome v env chainId with
    | Returned _ => persist_effects c
    | _ => []
    end.
Proof. branches v env; filter_blocks; done. Qed.

Lemma filter_rebinds_resync cur new :
  List.filter rebinds (resync_effects cur new) = resync_tail cur new.
Proof. by destruct cur, new. Qed.

Lemma connect_rebinds v env chainId c :
  List.filter rebinds (connect_effects v env chainId c) =
    if reaches_resync v env then resync_tail (this_provider c) (sdk_getProvider env)
    else [].
Proof.
  branches v env;
    repeat first
      [ rewrite List.filter_app
      | rewrite filter_rebinds_resync
      | progress cbn [List.filter rebinds neutral negb]
      | match goal with
        | |- context [List.filter ?φ ?l] => filter_block φ l
        end ];
    rewrite ?app_nil_r; done.
Qed.

(** The calls of [parseInt] and [switchChain]: none, or what follows the
    discovery of [s]. *)
Lemma connect_chain_calls v env chainId c :
  (List.filter chain_call (connect_effects v env chainId c) = [] ∧
   ∀ r, connect_outcome v env chainId ≠ Returned r) ∨
  ∃ s,
    chainId_source env (sdk_getProvider env) = Fulfilled s ∧
    List.filter chain_call (connect_effects v env chainId c) = chain_effects chainId s.
Proof.
  unfold_connect.
  destruct (chainId_source env (sdk_getProvider env)) as [s| |] eqn:Es;
    branches v env; filter_blocks; eauto.
Qed.

(** The requests: the one for the accounts, the one for the chain id. *)
Lemma connect_requests v env chainId c :
  ∃ a b : bool,
    List.filter is_request (connect_effects v env chainId c) =
      (if a then accounts_request_effects (sdk_getProvider env) else []) ++
      (if b then chainId_effects env (sdk_getProvider env) else []) ∧
    (v = metaMaskSDK_ts → a = false) ∧
    (∀ r, connect_outcome v env chainId = Returned r →
          b = true ∧ (v = part_000 → a = true)).
Proof.
  branches v env; filter_blocks.
  all: first
    [ by exists true, true | by exists false, true | by exists false, false
    | exists true, false; by rewrite app_nil_r ].
Qed.

(** ** The storage *)

Lemma storage_fold fx w :
  this_storage (this (perform_all fx w)) =
    fold_left (λ st e, step_storage e st) fx (this_storage (this w)).
Proof. revert w. induction fx as [|e fx IH]; intros w; [done|]. simpl. by rewrite IH. Qed.

Lemma storage_fold_filter fx st :
  fold_left (λ st e, step_storage e st) fx st =
    fold_left (λ st e, step_storage e st) (List.filter on_storage fx) st.
Proof.
  revert st. induction fx as [|e fx IH]; intros st; [done|].
  simpl. destruct (on_storage e) eqn:E; simpl; rewrite IH; [done|].
  by destruct e.
Qed.

Lemma storage_persist_effects c :
  fold_left (λ st e, step_storage e st) (persist_effects c) (this_storage c) =
    if default false (shimDisconnect <$> this_options c)
    then (λ m, <[this_shimDisconnectKey c := true]> m) <$> this_storage c
    else this_storage c.
Proof.
  unfold persist_effects.
  destruct (default false (shimDisconnect <$> this_options c)); [|done].
  by destruct (this_storage c).
Qed.

(** X7. The shim-disconnect flag is written by a [connect] exactly when the
    call returns, and then as the last thing it does to the storage: a call
    that throws or never settles leaves the storage as it found it, and one
    that returns leaves it with the flag set and nothing else changed, or
    unchanged when the options do not ask for the shim (or there is no
    storage object). *)
Theorem connect_persists_only_when_it_returns (v : Version) (env : Env)
    (chainId : option number) (w : World) :
  this_storage (this (connect v env chainId w).2) =
    match (connect v env chainId w).1 with
    | Returned _ =>
        if default false (shimDisconnect <$> this_options (this w))
        then (λ m, <[this_shimDisconnectKey (this w) := true]> m)
               <$> this_storage (this w)
        else this_storage (this w)
    | _ => this_storage (this w)
    end.
Proof.
  rewrite connect_run. cbn [fst snd].
  rewrite storage_fold, storage_fold_filter, connect_storage_calls.
  destruct (connect_outcome v env chainId); [|done..].
  apply storage_persist_effects.
Qed.

(** ** The bindings *)

Lemma replay_filter fx b : replay fx b = replay (List.filter rebinds fx) b.
Proof.
  revert b. induction fx as [|e fx IH]; intros b; [done|].
  unfold rebinds in *. simpl. destruct (neutral e) eqn:E; simpl; rewrite IH; [|done].
  by destruct e.
Qed.

Lemma returned_reaches_resync v env chainId r :
  connect_outcome v env chainId = Returned r → reaches_resync v env = true.
Proof. branches v env; done. Qed.

Lemma connect_bindings v env chainId w :
  bindings (connect v env chainId w).2 =
    if reaches_resync v env then bindings (updateProviderListeners env w).2
    else bindings w.
Proof.
  rewrite connect_run, updateProviderListeners_run. cbn [snd].
  rewrite !bindings_perform_all, replay_filter, connect_rebinds.
  by destruct (reaches_resync v env).
Qed.

(** X8. For the provider the connector holds and for the listeners, a
    [connect] that gets as far as the resync does exactly what one call of
    [#updateProviderListeners] does, whether it then returns, throws or never
    settles; a [connect] that ends before leaves both untouched. So when the
    account request or [switchChain] is rejected, or metaMaskSDK.ts waits for
    ever for the [authorized] signal, the handlers are already bound to the
    provider the SDK handed out. *)
Theorem connect_rebinds_as_one_resync (v : Version) (env : Env)
    (chainId : option number) (w : World) :
  bindings (connect v env chainId w).2 =
    (if reaches_resync v env then bindings (updateProviderListeners env w).2
     else bindings w) ∧
  (∀ r, (connect v env chainId w).1 = Returned r → reaches_resync v env = true) ∧
  (single_set (bindings w) → reaches_resync v env = true →
     this_provider (this (connect v env chainId w).2) = sdk_getProvider env ∧
     bound_once (sdk_getProvider env) (emitters (connect v env chainId w).2)).
Proof.
  pose proof (connect_bindings v env chainId w) as Hb.
  split_and!.
  - exact Hb.
  - intros r. rewrite connect_run. apply returned_reaches_resync.
  - intros Hs Hr. rewrite Hr in Hb.
    destruct (resync_bound_once env w Hs) as [Hp Hbound].
    unfold bindings in Hb. injection Hb as -> ->. done.
Qed.

Lemma connect_rebinds_as_one_resync_witness :
  (connect part_000 wallet_declining None fresh_world).1 =
    Thrown (UserRejectedRequestError declined) ∧
  this_provider (this (connect part_000 wallet_declining None fresh_world).2)
    = Some 2%positive ∧
  bound_once (Some 2%positive)
    (emitters (connect part_000 wallet_declining None fresh_world).2).
Proof.
  split; [vm_compute; reflexivity|].
  apply (proj2 (proj2 (connect_rebinds_as_one_resync part_000 wallet_declining
                         None fresh_world))).
  - apply single_set_detached. intros p ev h _. reflexivity.
  - reflexivity.
Defined.

(** ** The calls [connect] makes *)

(** X9. Of [sdk.init()] and [sdk.connect()], a [connect] calls [init()]
    once and first when the SDK is not initialized, never when it is, and
    then [sdk.connect()] exactly once when the initialization did not fail
    or hang; it calls neither a second time, whatever happens later in the
    call. *)
Theorem connect_calls_init_and_connect_once (v : Version) (env : Env)
    (chainId : option number) (w : World) :
  ∃ fx,
    log (connect v env chainId w).2 = log w ++ fx ∧
    List.filter sdk_trigger fx =
      (if sdk_isInitialized env then [] else [sdk_init]) ++
      match init_outcome env with
      | Fulfilled _ => [sdk_connect]
      | _ => []
      end.
Proof.
  eexists. split; [apply connect_log|]. apply connect_sdk_triggers.
Qed.

Lemma chain_effects_strict_eq chainId s :
  chain_effects chainId s =
    parseInt_called s ::
    match chainId with
    | Some requested =>
        if strict_eq (parseInt s) requested then []
        else [switchChain_called requested]
    | None => []
    end.
Proof.
  unfold chain_effects, switch_needed, strict_neq.
  destruct chainId as [c|]; [|done]. by destruct (strict_eq (parseInt s) c).
Qed.

(** X10. [parseInt] and [switchChain] in a [connect]: either neither is
    called, and then the call does not return, or [parseInt] is called once
    and [switchChain] at most once, after it, with the requested chain and
    exactly when a chain was requested that is not strictly equal to the
    parsed id (a [NaN] id never is). A [connect] that is given no chain
    never switches. *)
Theorem connect_parses_then_switches_if_needed (v : Version) (env : Env)
    (chainId : option number) (w : World) :
  ∃ fx,
    log (connect v env chainId w).2 = log w ++ fx ∧
    ((List.filter chain_call fx = [] ∧
      ∀ r, (connect v env chainId w).1 ≠ Returned r) ∨
     ∃ s,
       List.filter chain_call fx =
         parseInt_called s ::
         match chainId with
         | Some requested =>
             if strict_eq (parseInt s) requested then []
             else [switchChain_called requested]
         | None => []
         end).
Proof.
  eexists. split; [apply connect_log|].
  rewrite connect_run. cbn [fst].
  destruct (connect_chain_calls v env chainId (this w)) as [H|(s & _ & Hs)].
  - by left.
  - right. exists s. by rewrite Hs, chain_effects_strict_eq.
Qed.

Lemma In_filter_request p method fx :
  In (request p method) fx ↔ In (request p method) (List.filter is_request fx).
Proof. rewrite filter_In. simpl. tauto. Qed.

(** X11. The requests a [connect] sends all go to the provider the SDK hands
    out during the call, never to the one the connector held before, and no
    request is sent twice: [eth_requestAccounts] is sent by part_000 only,
    and [eth_chainId] only to a provider whose [chainId] field is not
    populated. When the call returns and the SDK handed out a provider,
    part_000 has sent [eth_requestAccounts], and [eth_chainId] has been sent
    if the field is not populated. *)
Theorem connect_requests_go_to_the_current_provider (v : Version) (env : Env)
    (chainId : option number) (w : World) :
  ∃ fx,
    log (connect v env chainId w).2 = log w ++ fx ∧
    NoDup (List.filter is_request fx) ∧
    (∀ p method, In (request p method) fx →
       sdk_getProvider env = Some p ∧
       (method = "eth_requestAccounts" ∧ v = part_000 ∨
        method = "eth_chainId" ∧ truthy (provider_chainId env p) = false)) ∧
    (∀ r p, (connect v env chainId w).1 = Returned r →
       sdk_getProvider env = Some p →
       (v = part_000 → In (request p "eth_requestAccounts") fx) ∧
       (truthy (provider_chainId env p) = false → In (request p "eth_chainId") fx)).
Proof.
  eexists. split; [apply connect_log|].
  rewrite connect_run. cbn [fst].
  destruct (connect_requests v env chainId (this w)) as (a & b & Hfx & Ha & Hr).
  split_and!.
  - rewrite Hfx. unfold accounts_request_effects, chainId_effects.
    destruct a, b, (sdk_getProvider env) as [q|]; simpl;
      try destruct (truthy (provider_chainId env q)); simpl;
      repeat first
        [ apply NoDup_nil_2
        | apply NoDup_cons_2;
          [ let H := fresh in
            rewrite ?elem_of_cons, elem_of_nil; intros H;
            repeat destruct H as [H|H]; done |] ].
  - intros p method Hin. apply In_filter_request in Hin. rewrite Hfx in Hin.
    unfold accounts_request_effects, chainId_effects in Hin.
    destruct v, a, b, (sdk_getProvider env) as [q|]; simpl in Hin;
      try specialize (Ha eq_refl); try discriminate;
      try destruct (truthy (provider_chainId env q)) eqn:Et; simpl in Hin;
      repeat destruct Hin as [Hin|Hin]; try done; simplify_eq; auto.
  - intros r p Hret Hp. destruct (Hr r Hret) as [-> Ha'].
    split.
    + intros ->. rewrite (Ha' eq_refl) in Hfx.
      apply In_filter_request. rewrite Hfx, Hp. simpl. by left.
    + intros Ht. apply In_filter_request. rewrite Hfx, Hp.
      apply in_or_app. right. unfold chainId_effects. rewrite Ht. by left.
Qed.

Lemma connect_requests_go_to_the_current_provider_witness :
  ∃ fx,
    log (connect part_000 wallet_without_chainId None fresh_world).2
      = log fresh_world ++ fx ∧
    In (request 2%positive "eth_requestAccounts") fx ∧
    In (request 2%positive "eth_chainId") fx.
Proof.
  destruct (connect_requests_go_to_the_current_provider part_000
              wallet_without_chainId None fresh_world)
    as (fx & Hlog & _ & _ & Hr).
  exists fx. split; [exact Hlog|].
  destruct (Hr (connected "0xA11ce" NaN false (Some 2%positive)) 2%positive) as [H1 H2].
  - vm_compute. reflexivity.
  - reflexivity.
  - split; [by apply H1|by apply H2].
Defined.

(** ** Edges: no connection object, no provider *)

(** X12. When [sdk._getConnection()] yields no connection object, the
    optional call that subscribes to the [authorized] signal subscribes to
    nothing, so that signal is never heard. After a successful
    initialization, part_000 then depends on the provider-update signal
    alone: without it [connect] never settles, having called only the SDK
    (and the console, when debugging).
    In metaMaskSDK.ts, unless the extension is active, [connect] never
    settles whatever is emitted, and by then it has taken the accounts from
    [sdk.connect()] and rebound the listeners. *)
Theorem connect_without_connection_object (env : Env) (chainId : option number)
    (w : World) :
  sdk_connection env = None →
  init_outcome env = Fulfilled () →
  (PROVIDER_UPDATE ∉ sdk_signals env →
     (connect part_000 env chainId w).1 = Pending ∧
     log (connect part_000 env chainId w).2 =
       log w ++ init_effects env ++
       sdk_connect ::
       (if this_debug (this w)
        then [console_log "MetaMaskSDKConnector waiting for SDK validation"]
        else []) ++
       [sdk_once PROVIDER_UPDATE]) ∧
  (∀ accounts,
     sdk_isExtensionActive env = false →
     sdk_connect_result env = Fulfilled accounts →
     (connect metaMaskSDK_ts env chainId w).1 = Pending ∧
     log (connect metaMaskSDK_ts env chainId w).2 =
       log w ++ init_effects env ++
       sdk_connect :: accounts_obtained accounts ::
       resync_effects (this_provider (this w)) (sdk_getProvider env)).
Proof.
  intros Hc Hi. split.
  - intros Hpu. rewrite connect_log, connect_run. cbn [fst].
    unfold connect_outcome, connect_try_outcome, connect_effects,
      waitForSDK_effects, some_path_settled.
    rewrite Hi, Hc. simpl. rewrite bool_decide_false by done. simpl.
    split; [done|]. by rewrite app_nil_r.
  - intros accounts He Ha. rewrite connect_log, connect_run. cbn [fst].
    unfold connect_outcome, connect_try_outcome, connect_effects,
      wait_if_unauthorized_effects, authorized_in_time, accounts_source,
      TriggerAwaited.must_wait.
    rewrite Hi, Hc, He, Ha. simpl. split; [done|]. by rewrite app_nil_r.
Qed.

Lemma connect_without_connection_object_witness :
  (connect part_000 (wallet_with (Some 2%positive) None [AUTHORIZED; AUTHORIZED]
                       (Some ["0xA11ce"]) (Some "0x1") (Some "0x1"))
     None fresh_world).1 = Pending ∧
  (connect metaMaskSDK_ts
     (wallet_with (Some 2%positive) None [AUTHORIZED; PROVIDER_UPDATE]
        (Some ["0xA11ce"]) (Some "0x1") (Some "0x1"))
     None fresh_world).1 = Pending.
Proof.
  split.
  - refine (proj1 (proj1
      (connect_without_connection_object
         (wallet_with (Some 2%positive) None [AUTHORIZED; AUTHORIZED]
            (Some ["0xA11ce"]) (Some "0x1") (Some "0x1"))
         None fresh_world eq_refl eq_refl) _)).
    apply (bool_decide_eq_false_1 (PROVIDER_UPDATE ∈ [AUTHORIZED; AUTHORIZED])).
    reflexivity.
  - exact (proj1 (proj2
      (connect_without_connection_object
         (wallet_with (Some 2%positive) None [AUTHORIZED; PROVIDER_UPDATE]
            (Some ["0xA11ce"]) (Some "0x1") (Some "0x1"))
         None fresh_world eq_refl eq_refl) _ eq_refl eq_refl)).
Defined.

(** X13. A [connect] on an SDK that hands out no provider does not fail for
    that. Once initialization and the wait are through, it sends no request,
    hands a missing value to [parseInt], and answers with provider
    [undefined]: chain id [NaN] when no chain is requested; a requested chain
    always counts as different from [NaN], so [switchChain] is called with it
    and decides the answer. The account is ['0x'] in part_000 and the first
    of the accounts [sdk.connect()] resolved to in metaMaskSDK.ts. *)
Theorem connect_without_provider (v : Version) (env : Env)
    (chainId : option number) (w : World) (accounts : option (list Address)) :
  sdk_getProvider env = None →
  init_outcome env = Fulfilled () →
  match v with
  | part_000 =>
      some_path_settled (sdk_connection env) (sdk_signals env) = true ∧
      accounts = None
  | metaMaskSDK_ts =>
      sdk_connect_result env = Fulfilled accounts ∧ authorized_in_time env = true
  end →
  (connect v env chainId w).1 =
    match chainId with
    | None => Returned (connected (selectedAccount accounts) NaN false None)
    | Some requested =>
        match base_switchChain env requested with
        | Fulfilled n =>
            Returned (connected (selectedAccount accounts) n
                        (base_isChainUnsupported env n) None)
        | Rejected e => Thrown (classify env e)
        | Never => Pending
        end
    end ∧
  this_provider (this (connect v env chainId w).2) = None ∧
  ∃ fx,
    log (connect v env chainId w).2 = log w ++ fx ∧
    In (parseInt_called None) fx ∧
    ∀ p method, ¬ In (request p method) fx.
Proof.
  intros Hq Hi Hv. split_and!.
  - rewrite connect_run. cbn [fst].
    unfold connect_outcome, connect_try_outcome, tail_outcome, accounts_source,
      chainId_source, chain_result, switch_needed.
    rewrite Hi, Hq. simpl.
    destruct v; destruct Hv as [Hv1 Hv2]; rewrite ?Hv1, ?Hv2; subst; simpl.
    all: destruct chainId as [c|]; simpl; [|done].
    all: by destruct (base_switchChain env c).
  - assert (Hr : reaches_resync v env = true).
    { unfold reaches_resync. rewrite Hi.
      destruct v; destruct Hv as [Hv1 Hv2]; by rewrite ?Hv1. }
    pose proof (connect_bindings v env chainId w) as Hb.
    rewrite Hr in Hb.
    change (this_provider (this (connect v env chainId w).2))
      with (bindings (connect v env chainId w).2).1.
    rewrite Hb. rewrite <- Hq. apply holding_updateProviderListeners.
  - eexists. split; [apply connect_log|]. split.
    + unfold connect_effects, tail_effects, accounts_source, chainId_source,
        chainId_effects, accounts_request_effects, chain_effects.
      rewrite Hi, Hq. cbv zeta.
      destruct v; destruct Hv as [Hv1 Hv2]; rewrite ?Hv1, ?Hv2; cbn [app].
      all: repeat first
             [ apply in_eq
             | apply in_or_app; left; apply in_eq
             | apply in_cons
             | apply in_or_app; right ].
    + intros p method Hin. apply In_filter_request in Hin.
      destruct (connect_requests v env chainId (this w)) as (a & b & Hfx & _).
      rewrite Hfx, Hq in Hin. by destruct a, b.
Qed.

Lemma connect_without_provider_witness :
  (connect part_000 wallet_without_provider (Some (Num 137)) fresh_world).1 =
    Returned (connected "0x" (Num 137) true None) ∧
  (connect metaMaskSDK_ts wallet_without_provider None fresh_world).1 =
    Returned (connected "0xA11ce" NaN false None).
Proof.
  split.
  - exact (proj1 (connect_without_provider part_000 wallet_without_provider
                    (Some (Num 137)) fresh_world None eq_refl eq_refl
                    (conj eq_refl eq_refl))).
  - exact (proj1 (connect_without_provider metaMaskSDK_ts wallet_without_provider
                    None fresh_world (Some ["0xA11ce"; "0xB0b"]) eq_refl eq_refl
                    (conj eq_refl eq_refl))).
Defined.

(** ** Sequences of operations *)

Lemma run_operation_run v o w :
  run_operation v o w = perform_all (operation_effects v o (this w)) w.
Proof.
  destruct o as [env chainId|env| |env]; simpl.
  - by rewrite connect_run.
  - by rewrite getProvider_run.
  - by rewrite disconnect_run.
  - by rewrite updateProviderListeners_run.
Qed.

(** Every operation performs effects of the kind [φ]. *)
Lemma logged_run (φ : Effect → bool) v :
  (∀ o c, forallb φ (operation_effects v o c) = true) →
  ∀ ops w, logged φ w (run v ops w).
Proof.
  intros H ops. induction ops as [|o ops IH] using rev_ind; intros w.
  - apply logged_refl.
  - rewrite run_app. simpl. rewrite run_operation_run.
    destruct (IH w) as (fx & -> & Hfx).
    exists (fx ++ operation_effects v o (this (perform_all fx w))). split.
    + by rewrite perform_all_app.
    + by rewrite forallb_app, Hfx, H.
Qed.

Lemma forallb_connect_effects (φ : Effect → bool) v env chainId c :
  (∀ e, quiet e = true → φ e = true) →
  (∀ cur new, forallb φ (resync_effects cur new) = true) →
  (∀ e, is_request e = true → φ e = true) →
  (∀ e, chain_call e = true → φ e = true) →
  (∀ e, is_storage_setItem e = true → φ e = true) →
  φ authorization_confirmed = true →
  (∀ a, φ (accounts_obtained a) = true) →
  forallb φ (connect_effects v env chainId c) = true.
Proof.
  intros Hq Hr Hreq Hc Hs Ha Hacc.
  assert (H1 : forallb φ (init_effects env) = true)
    by (eapply forallb_impl; [|apply init_effects_quiet]; done).
  assert (H2 : ∀ d k, forallb φ (waitForSDK_effects d k) = true)
    by (intros; eapply forallb_impl; [|apply waitForSDK_effects_quiet]; done).
  assert (H3 : forallb φ (wait_if_unauthorized_effects env) = true)
    by (eapply forallb_impl; [|apply wait_if_unauthorized_effects_quiet]; done).
  pose proof Hr as H4.
  assert (H5 : ∀ p, forallb φ (accounts_request_effects p) = true).
  { intros p. eapply forallb_impl; [|apply accounts_request_effects_class].
    intros [] ?; try done. by apply Hreq. }
  assert (H6 : ∀ p, forallb φ (chainId_effects env p) = true).
  { intros p. eapply forallb_impl; [|apply chainId_effects_class].
    intros [] ?; try done. by apply Hreq. }
  assert (H7 : ∀ s, forallb φ (chain_effects chainId s) = true)
    by (intros; eapply forallb_impl; [|apply chain_effects_class]; done).
  assert (H8 : forallb φ (persist_effects c) = true)
    by (eapply forallb_impl; [|apply persist_effects_class]; done).
  assert (H9 : φ sdk_connect = true) by (by apply Hq).
  branches v env;
    repeat first
      [ rewrite forallb_app
      | progress cbn [forallb]
      | rewrite H1 | rewrite H2 | rewrite H3 | rewrite H4 | rewrite H5
      | rewrite H6 | rewrite H7 | rewrite H8 | rewrite H9 | rewrite Ha
      | rewrite Hacc ];
    done.
Qed.

Lemma forallb_operation_effects (φ : Effect → bool) v o c :
  (∀ e, quiet e = true → φ e = true) →
  (∀ cur new, forallb φ (resync_effects cur new) = true) →
  (∀ p, φ (set_provider p) = true) →
  (∀ p, forallb φ (removals p) = true) →
  (∀ e, is_request e = true → φ e = true) →
  (∀ e, chain_call e = true → φ e = true) →
  (∀ e, is_storage_setItem e = true → φ e = true) →
  φ authorization_confirmed = true →
  (∀ a, φ (accounts_obtained a) = true) →
  φ sdk_terminate = true →
  (∀ k, φ (storage_removeItem k) = true) →
  forallb φ (operation_effects v o c) = true.
Proof.
  intros Hq Hr Hset Hrem Hreq Hc Hs Ha Hacc Ht Hrm.
  destruct o as [env chainId|env| |env]; cbn [operation_effects].
  - by apply forallb_connect_effects.
  - unfold getProvider_effects. rewrite forallb_app. apply andb_true_intro. split.
    + eapply forallb_impl; [|apply init_effects_quiet]. done.
    + destruct (init_outcome env), (this_provider c); simpl; try done.
      by rewrite Hset.
  - unfold disconnect_effects. cbn [forallb]. rewrite Ht, forallb_app. cbn [forallb].
    rewrite Hrm. destruct (this_provider c) as [p|]; cbn [from_option]; [|done].
    by rewrite Hrem.
  - apply Hr.
Qed.

(** ** Listeners of others *)

Lemma filter_remove_first (f : handler → bool) h l :
  f h = false → List.filter f (remove_first h l) = List.filter f l.
Proof.
  intros Hh. induction l as [|x l IH]; [done|].
  simpl. destruct (decide (x = h)) as [->|Hx]; simpl.
  - by rewrite Hh.
  - by rewrite IH.
Qed.

Lemma filter_rev_list (f : handler → bool) l :
  List.filter f (rev l) = rev (List.filter f l).
Proof.
  induction l as [|x l IH]; [done|].
  simpl. rewrite List.filter_app, IH. simpl. destruct (f x); simpl; [done|].
  by rewrite app_nil_r.
Qed.

Lemma others_step e b p ev :
  own_subscriptions e = true →
  others ev (listeners (step_bindings e b).2 p ev) = others ev (listeners b.2 p ev).
Proof.
  intros He. destruct e as [| | | | | | |p' ev' h'| |p' ev' h'| | | | | |]; try done.
  - simpl in *. unfold emitter_removeListener. rewrite listeners_insert.
    destruct (decide ((p', ev') = (p, ev))) as [[= -> ->]|]; [|done].
    unfold others. rewrite filter_rev_list, filter_remove_first, <- filter_rev_list.
    + by rewrite rev_involutive.
    + by rewrite He.
  - simpl in *. unfold emitter_on. rewrite listeners_insert.
    destruct (decide ((p', ev') = (p, ev))) as [[= -> ->]|]; [|done].
    unfold others. rewrite List.filter_app. simpl. rewrite He. simpl.
    by rewrite app_nil_r.
Qed.

Lemma others_replay fx p ev : ∀ b,
  forallb own_subscriptions fx = true →
  others ev (listeners (replay fx b).2 p ev) = others ev (listeners b.2 p ev).
Proof.
  induction fx as [|e fx IH]; intros b H; [done|].
  simpl in *. apply andb_true_iff in H as [He H].
  rewrite IH by done. by apply others_step.
Qed.

Lemma own_subscriptions_operation v o c :
  forallb own_subscriptions (operation_effects v o c) = true.
Proof.
  apply forallb_operation_effects; try done; try by intros [].
  intros [cur|] [new|]; reflexivity.
Qed.

(** X14. The connector subscribes and unsubscribes nothing but its own three
    handlers, each under its own event. Through any sequence of operations,
    on every provider and for every event, the listeners that are not the
    connector's handler for that event stay the same and in the same order;
    the listeners of an event the connector does not manage are not touched
    at all. *)
Theorem foreign_listeners_are_left_alone (v : Version) (ops : list Operation)
    (w : World) (p : pid) (ev : string) :
  others ev (listeners (emitters (run v ops w)) p ev)
    = others ev (listeners (emitters w) p ev) ∧
  (ev ∉ fst <$> tracked →
     listeners (emitters (run v ops w)) p ev = listeners (emitters w) p ev).
Proof.
  assert (H : ∀ ev,
            others ev (listeners (emitters (run v ops w)) p ev)
              = others ev (listeners (emitters w) p ev)).
  { intros ev'.
    destruct (logged_run own_subscriptions v (own_subscriptions_operation v) ops w)
      as (fx & -> & Hfx).
    rewrite emitters_perform_all. by apply others_replay. }
  split; [apply H|].
  intros Hev.
  assert (Hall : ∀ l, others ev l = l).
  { intros l. unfold others. induction l as [|h l IH]; [done|].
    simpl. rewrite IH.
    assert (manages ev h = false) as ->; [|done].
    unfold manages, tracked in *. simpl in *.
    apply not_elem_of_cons in Hev as [H1 Hev].
    apply not_elem_of_cons in Hev as [H2 Hev].
    apply not_elem_of_cons in Hev as [H3 _].
    apply String.eqb_neq in H1, H2, H3. by rewrite H1, H2, H3. }
  specialize (H ev). by rewrite !Hall in H.
Qed.

Lemma foreign_listeners_are_left_alone_witness :
  listeners
    (emitters
       (run metaMaskSDK_ts session
          {| this := fresh_connector;
             emitters := {[ (1%positive, "message") := [foreign 7] ]};
             log := [] |}))
    1%positive "message" = [foreign 7].
Proof.
  refine (eq_trans
    (proj2 (foreign_listeners_are_left_alone metaMaskSDK_ts session
              {| this := fresh_connector;
                 emitters := {[ (1%positive, "message") := [foreign 7] ]};
                 log := [] |} 1%positive "message") _) _).
  - apply (bool_decide_eq_false_1 ("message" ∈ fst <$> tracked)). reflexivity.
  - vm_compute. reflexivity.
Defined.

(** ** The console *)

(** The effects of a sequence of operations are effects of its operations,
    on a connector with the debug flag it started with. *)
Lemma run_effects v ops : ∀ w,
  ∃ fx, run v ops w = perform_all fx w ∧
    ∀ e, In e fx →
      ∃ o c, In o ops ∧ this_debug c = this_debug (this w) ∧
             In e (operation_effects v o c).
Proof.
  induction ops as [|o ops IH] using rev_ind; intros w.
  - by exists [].
  - destruct (IH w) as (fx & Hfx & Hin).
    exists (fx ++ operation_effects v o (this (run v ops w))). split.
    + by rewrite run_app, perform_all_app, <- Hfx, <- run_operation_run.
    + intros e [He|He]%in_app_or.
      * destruct (Hin e He) as (o' & c & Ho' & Hc & He').
        exists o', c. split; [apply in_or_app; by left|done].
      * exists o, (this (run v ops w)). split; [apply in_or_app; right; by left|].
        split; [|done]. rewrite Hfx. apply debug_perform_all.
Qed.

Lemma In_console_log_operation v o c m :
  In (console_log m) (operation_effects v o c) →
  v = part_000 ∧ this_debug c = true ∧
  m = "MetaMaskSDKConnector waiting for SDK validation".
Proof.
  destruct o as [env chainId|env| |env]; cbn [operation_effects]; intros H.
  - assert (Hf : In (console_log m)
                   (List.filter is_console_log (connect_effects v env chainId c)))
      by (by apply filter_In).
    rewrite connect_console_logs in Hf.
    destruct v, (init_outcome env), (this_debug c); simpl in Hf; try done.
    by destruct Hf as [[= <-]|[]].
  - exfalso. unfold getProvider_effects in H.
    apply in_app_or in H as [H|H].
    + by apply In_init_effects in H.
    + destruct (init_outcome env), (this_provider c); simpl in H; intuition discriminate.
  - exfalso. unfold disconnect_effects in H.
    destruct (this_provider c); simpl in H; intuition discriminate.
  - exfalso. destruct (this_provider c), (sdk_getProvider env);
      simpl in H; intuition discriminate.
Qed.

(** X15. The console is written to by part_000 only, by a connector built
    with [debug: true] only, and then only with the line that announces the
    wait: a connector built without the option, or by metaMaskSDK.ts, writes
    nothing in any sequence of operations. A debugging connector writes the
    line once in every [connect] whose initialization succeeds. *)
Theorem console_only_when_debugging (v : Version) (ce : Construction)
    (options_ : option MetaMaskSDKConnectorOptions) (c : Connector)
    (steps : list ConstructorStep) :
  constructor v ce options_ = (instance c, steps) →
  ∀ ops em l,
    let w := run v ops {| this := c; emitters := em; log := l |} in
    (∀ m, In (console_log m) (log w) →
       In (console_log m) l ∨
       (v = part_000 ∧ options_ ≫= opt_debug = Some true ∧
        m = "MetaMaskSDKConnector waiting for SDK validation")) ∧
    ∀ env chainId,
      ∃ fx,
        log (connect v env chainId w).2 = log w ++ fx ∧
        List.filter is_console_log fx =
          match v, options_ ≫= opt_debug, init_outcome env with
          | part_000, Some true, Fulfilled _ =>
              [console_log "MetaMaskSDKConnector waiting for SDK validation"]
          | _, _, _ => []
          end.
Proof.
  intros Hc ops em l w.
  assert (Hd : this_debug c =
               match v, options_ ≫= opt_debug with
               | part_000, Some true => true
               | _, _ => false
               end).
  { destruct v; simpl in Hc;
      unfold SignalDriven.constructor, TriggerAwaited.constructor, construct in Hc;
      destruct (invalid_parameters options_); try discriminate;
      destruct (options_ ≫= opt_sdk); destruct (options_ ≫= opt_sdkOptions);
      simplify_eq; simpl; try done.
    all: by destruct (options_ ≫= opt_debug) as [[|]|]. }
  destruct (run_effects v ops {| this := c; emitters := em; log := l |})
    as (fx & Hfx & Hin).
  assert (Hw : this_debug (this w) = this_debug c).
  { unfold w. rewrite Hfx. apply debug_perform_all. }
  split.
  - intros m Hm. unfold w in Hm. rewrite Hfx, log_perform_all in Hm.
    apply in_app_or in Hm as [Hm|Hm]; [by left|right].
    destruct (Hin _ Hm) as (o & c' & _ & Hc' & Ho).
    apply In_console_log_operation in Ho as (-> & Hdebug & ->).
    simpl in Hc'. rewrite Hc', Hd in Hdebug.
    split; [done|]. split; [|done].
    by destruct (options_ ≫= opt_debug) as [[|]|].
  - intros env chainId. eexists. split; [apply connect_log|].
    rewrite connect_console_logs, Hw, Hd.
    by destruct v, (options_ ≫= opt_debug) as [[|]|], (init_outcome env).
Qed.

Lemma console_only_when_debugging_witness :
  Forall (λ e, e ≠ console_log "MetaMaskSDKConnector waiting for SDK validation")
    (log (run part_000 session fresh_world)).
Proof.
  apply Forall_forall. intros e He%list_elem_of_In ->.
  destruct (console_only_when_debugging part_000 construction
              (Some {| opt_debug := None; opt_sdk := Some (prebuilt 1);
                       opt_sdkOptions := None |})
              fresh_connector _ eq_refl session ∅ []) as [H _].
  destruct (H _ He) as [[]|(_ & Hd & _)]. discriminate Hd.
Defined.

(** ** Reading a chain id back *)

Lemma hex_prefix_digits d acc :
  hex_prefix (HexadecimalString.NilEmpty.string_of_uint d) (Some (Z.pos acc)) =
    Some (Z.pos (Pos.of_hex_uint_acc d acc)).
Proof.
  revert acc. induction d; intros acc; [done|..];
    cbn [HexadecimalString.NilEmpty.string_of_uint hex_prefix Pos.of_hex_uint_acc];
    match goal with
    | |- context [hex_digit ?c] =>
        let d := eval vm_compute in (hex_digit c) in
        change (hex_digit c) with d
    end;
    cbv iota beta; rewrite <- IHd; f_equal; f_equal; simpl; lia.
Qed.

Lemma hex_prefix_leading_zeros d :
  hex_prefix (HexadecimalString.NilEmpty.string_of_uint d) (Some 0) =
    Some (Z.of_N (Pos.of_hex_uint d)).
Proof.
  induction d; [done|..];
    cbn [HexadecimalString.NilEmpty.string_of_uint hex_prefix Pos.of_hex_uint];
    match goal with
    | |- context [hex_digit ?c] =>
        let d := eval vm_compute in (hex_digit c) in
        change (hex_digit c) with d
    end;
    cbv iota beta; simpl default; try (rewrite Z.mul_0_r, Z.add_0_l); try done;
    simpl Z.add; apply hex_prefix_digits.
Qed.

Lemma hex_prefix_whole d :
  d ≠ Hexadecimal.Nil →
  hex_prefix (HexadecimalString.NilEmpty.string_of_uint d) None =
    Some (Z.of_N (Pos.of_hex_uint d)).
Proof.
  intros Hd. destruct d; [done|..];
    cbn [HexadecimalString.NilEmpty.string_of_uint hex_prefix Pos.of_hex_uint];
    match goal with
    | |- context [hex_digit ?c] =>
        let d := eval vm_compute in (hex_digit c) in
        change (hex_digit c) with d
    end;
    cbv iota beta; simpl default; simpl Z.add;
    first [apply hex_prefix_leading_zeros | apply hex_prefix_digits].
Qed.

Lemma to_hex_uint_not_Nil n : N.to_hex_uint n ≠ Hexadecimal.Nil.
Proof.
  intros H. pose proof (HexadecimalN.Unsigned.of_to n) as Hn.
  rewrite H in Hn. simpl in Hn. subst n. discriminate.
Qed.

Lemma to_double_exact m : 0 ≤ m < 2 ^ 53 → to_double m = Num m.
Proof.
  intros [H0 H]. unfold to_double.
  assert (Z.log2 m + 1 ≤ 53) as Hb.
  { destruct (Z.eq_dec m 0) as [->|Hm]; [done|].
    assert (Z.log2 m < 53) by (apply Z.log2_lt_pow2; lia). lia. }
  apply Z.leb_le in Hb. by rewrite Hb.
Qed.

Lemma trim_start_zero t : trim_start (String "0" t) = String "0" t.
Proof. destruct t as [|b [|c v]]; reflexivity. Qed.

Lemma parseInt_hex n : (n < 2 ^ 53)%N → parseInt (Some (hex n)) = Num (Z.of_N n).
Proof.
  intros Hn. unfold parseInt, hex, ToString, parseInt16.
  change ("0x" ++ ?s)%string with (String "0" (String "x" s)).
  rewrite trim_start_zero.
  rewrite hex_prefix_whole by apply to_hex_uint_not_Nil.
  rewrite HexadecimalN.Unsigned.of_to. apply to_double_exact. lia.
Qed.

Lemma truthy_hex n : truthy (Some (hex n)) = true.
Proof. done. Qed.

Lemma connect_outcome_returned v env chainId r :
  connect_outcome v env chainId = Returned r →
  ∃ accounts, tail_outcome env chainId (sdk_getProvider env) accounts = Returned r.
Proof.
  unfold connect_outcome, connect_try_outcome, caught.
  destruct v; destruct (init_outcome env) as [[]|?|]; cbn [outcome_of]; try done.
  - destruct (some_path_settled _ _); [|done].
    destruct (accounts_source part_000 env) as [a| |]; cbn [outcome_of]; try done.
    destruct (tail_outcome env chainId (sdk_getProvider env) a) eqn:E; try done.
    intros [= <-]. eauto.
  - destruct (accounts_source metaMaskSDK_ts env) as [a| |]; cbn [outcome_of]; try done.
    destruct (authorized_in_time env); [|done].
    destruct (tail_outcome env chainId (sdk_getProvider env) a) eqn:E; try done.
    intros [= <-]. eauto.
Qed.

(** X16. [parseInt(…, 16)] reads back the notation wallets use for chain
    ids: on [0x] followed by the hexadecimal digits of [n], for [n] below
    2^53, it gives [n]. So when the provider the SDK hands out reports such a
    chain [n] in its [chainId] field and the caller asks for no chain or for
    chain [n], a [connect] that returns answers chain [n], supported, without
    calling [switchChain] and without asking the provider for
    [eth_chainId]. *)
Theorem connect_reads_back_hex_chain_id (v : Version) (env : Env)
    (chainId : option number) (w : World) (p : pid) (n : N) :
  (n < 2 ^ 53)%N →
  parseInt (Some (hex n)) = Num (Z.of_N n) ∧
  ∀ r w',
    connect v env chainId w = (Returned r, w') →
    sdk_getProvider env = Some p →
    provider_chainId env p = Some (hex n) →
    chainId = None ∨ chainId = Some (Num (Z.of_N n)) →
    chain r = {| id := Num (Z.of_N n); unsupported := false |} ∧
    ∃ fx,
      log w' = log w ++ fx ∧
      (∀ c, ¬ In (switchChain_called c) fx) ∧
      ¬ In (request p "eth_chainId") fx.
Proof.
  intros Hn. pose proof (parseInt_hex n Hn) as Hparse.
  split; [exact Hparse|].
  intros r w' H Hp Hfield Hc.
  rewrite connect_run in H. injection H as Ho Hw.
  assert (Hsrc : chainId_source env (sdk_getProvider env) = Fulfilled (Some (hex n))).
  { unfold chainId_source. by rewrite Hp, Hfield, truthy_hex. }
  assert (Hsw : switch_needed chainId (Some (hex n)) = None).
  { unfold switch_needed, strict_neq. rewrite Hparse.
    destruct Hc as [->| ->]; [done|]. simpl. by rewrite Z.eqb_refl. }
  split.
  - apply connect_outcome_returned in Ho as (accounts & Ho).
    unfold tail_outcome, chain_result in Ho.
    rewrite Hsrc in Ho. cbn [outcome_of] in Ho. rewrite Hsw in Ho.
    cbn [outcome_of] in Ho. injection Ho as <-. simpl. by rewrite Hparse.
  - exists (connect_effects v env chainId (this w)). split_and!.
    + rewrite <- Hw. apply log_perform_all.
    + intros c Hin.
      assert (Hf : In (switchChain_called c)
                     (List.filter chain_call (connect_effects v env chainId (this w))))
        by (by apply filter_In).
      destruct (connect_chain_calls v env chainId (this w))
        as [[Hnil _]|(s & Hs & Hfx)].
      * by rewrite Hnil in Hf.
      * rewrite Hfx in Hf. rewrite Hsrc in Hs. injection Hs as <-.
        unfold chain_effects in Hf. rewrite Hsw in Hf.
        by destruct Hf as [|[]].
    + intros Hin. apply In_filter_request in Hin.
      destruct (connect_requests v env chainId (this w)) as (a & b & Hfx & _).
      rewrite Hfx, Hp in Hin. unfold chainId_effects in Hin.
      rewrite Hfield, truthy_hex in Hin.
      destruct a, b; simpl in Hin; intuition discriminate.
Qed.

Lemma connect_reads_back_hex_chain_id_witness :
  chain (connected "0xA11ce" (Num 137) false (Some 2%positive)) =
    {| id := Num (Z.of_N 137); unsupported := false |}.
Proof.
  refine (proj1 (proj2 (connect_reads_back_hex_chain_id metaMaskSDK_ts
    (wallet_with (Some 2%positive) (Some true) [] (Some ["0xA11ce"])
       (Some (hex 137)) None)
    (Some (Num 137)) fresh_world 2%positive 137 eq_refl)
    (connected "0xA11ce" (Num 137) false (Some 2%positive))
    (connect metaMaskSDK_ts
       (wallet_with (Some 2%positive) (Some true) [] (Some ["0xA11ce"])
          (Some (hex 137)) None)
       (Some (Num 137)) fresh_world).2 _ eq_refl eq_refl (or_intror eq_refl))).
  vm_compute. reflexivity.
Defined.

(** ** One-shot listeners of [#waitForSDK] *)

(** X17. The one-shot listeners of [#waitForSDK] are removed by nothing but
    their own signal. The provider-update listener is registered in every
    call and stays registered until the first provider update, also after the
    promise has been settled by the authorization; the [authorized] listener
    is registered exactly when a connection exists that is not authorized,
    and stays until the first [authorized]. A signal that has been heard once
    changes nothing when it comes again. *)
Theorem waitForSDK_listeners_outlive_the_wait (connection : option bool)
    (signals : list Signal) :
  let st := SignalDriven.wait connection signals in
  (SignalDriven.once_PROVIDER_UPDATE st = true ↔ PROVIDER_UPDATE ∉ signals) ∧
  (SignalDriven.once_AUTHORIZED st = true ↔
     connection = Some false ∧ AUTHORIZED ∉ signals) ∧
  (∀ s, s ∈ signals → SignalDriven.deliver st s = st) ∧
  (isAuthorized connection = true → PROVIDER_UPDATE ∉ signals →
     settled (SignalDriven.outer st) = Some true ∧
     SignalDriven.once_PROVIDER_UPDATE st = true).
Proof.
  intros st.
  destruct (waitForSDK_state connection signals) as (H1 & H2 & H3 & _).
  fold st in H1, H2, H3.
  assert (Hpu : SignalDriven.once_PROVIDER_UPDATE st = true ↔ PROVIDER_UPDATE ∉ signals).
  { rewrite H2, negb_true_iff. apply bool_decide_eq_false. }
  split_and!.
  - exact Hpu.
  - rewrite H3, !andb_true_iff, !negb_true_iff, bool_decide_eq_false.
    destruct connection as [[|]|]; simpl; intuition (discriminate || auto).
  - intros s Hs. destruct s; simpl.
    + rewrite H2. by rewrite bool_decide_true.
    + rewrite H3. rewrite (bool_decide_true (AUTHORIZED ∈ signals)) by done.
      by rewrite andb_false_r.
  - intros Ha Hn. split; [|by apply Hpu].
    rewrite H1. unfold some_path_settled. by rewrite Ha.
Qed.

Lemma waitForSDK_listeners_outlive_the_wait_witness :
  settled (SignalDriven.outer (SignalDriven.wait (Some true) [AUTHORIZED])) = Some true ∧
  SignalDriven.once_PROVIDER_UPDATE (SignalDriven.wait (Some true) [AUTHORIZED]) = true.
Proof.
  apply (proj2 (proj2 (proj2
    (waitForSDK_listeners_outlive_the_wait (Some true) [AUTHORIZED])))).
  - reflexivity.
  - apply (bool_decide_eq_false_1 (PROVIDER_UPDATE ∈ [AUTHORIZED])). reflexivity.
Defined.

(** ** Where the outcome of [connect] comes from *)

(** ** Where the outcome of [connect] comes from *)

Lemma tail_outcome_cause v env chainId accounts :
  match tail_outcome env chainId (sdk_getProvider env) accounts with
  | Returned r => isConnected r = true ∧ provider r = sdk_getProvider env
  | Thrown e => awaited_ends v env chainId (λ _ s, s = Rejected e)
  | Pending => awaited_ends v env chainId (λ _ s, s = Never)
  end.
Proof.
  unfold tail_outcome, chainId_source, chain_result, switch_needed, awaited_ends.
  destruct (sdk_getProvider env) as [p|]; cbn [outcome_of].
  - destruct (truthy (provider_chainId env p)) eqn:Et; cbn [outcome_of].
    + destruct chainId as [c|]; [|done].
      destruct (strict_neq _ c); [|done].
      destruct (base_switchChain env c) eqn:Es; cbn [outcome_of]; [done|..];
        right; right; right; eauto.
    + destruct (request_eth_chainId env p) as [s| |] eqn:Er; cbn [outcome_of].
      * destruct chainId as [c|]; [|done].
        destruct (strict_neq _ c); [|done].
        destruct (base_switchChain env c) eqn:Es; cbn [outcome_of]; [done|..];
          right; right; right; eauto.
      * right; right; left. eauto 10.
      * right; right; left. eauto 10.
  - destruct chainId as [c|]; [|done].
    destruct (strict_neq _ c); [|done].
    destruct (base_switchChain env c) eqn:Es; cbn [outcome_of]; [done|..];
      right; right; right; eauto.
Qed.

Lemma connect_cause v env chainId w :
  match (connect v env chainId w).1 with
  | Returned r => isConnected r = true ∧ provider r = sdk_getProvider env
  | Thrown t =>
      ∃ e, t = classify env e ∧
           awaited_ends v env chainId (λ _ s, s = Rejected e)
  | Pending =>
      awaited_ends v env chainId (λ _ s, s = Never) ∨
      match v with
      | part_000 => some_path_settled (sdk_connection env) (sdk_signals env) = false
      | metaMaskSDK_ts => authorized_in_time env = false
      end
  end.
Proof.
  rewrite connect_run. cbn [fst].
  assert (Htail : ∀ accounts,
            match caught env (tail_outcome env chainId (sdk_getProvider env) accounts) with
            | Returned r => isConnected r = true ∧ provider r = sdk_getProvider env
            | Thrown t =>
                ∃ e, t = classify env e ∧
                     awaited_ends v env chainId (λ _ s, s = Rejected e)
            | Pending =>
                awaited_ends v env chainId (λ _ s, s = Never) ∨
                match v with
                | part_000 =>
                    some_path_settled (sdk_connection env) (sdk_signals env) = false
                | metaMaskSDK_ts => authorized_in_time env = false
                end
            end).
  { intros accounts. pose proof (tail_outcome_cause v env chainId accounts) as H.
    destruct (tail_outcome env chainId (sdk_getProvider env) accounts);
      simpl; eauto. }
  unfold connect_outcome, connect_try_outcome, init_outcome.
  destruct (sdk_isInitialized env) eqn:Ei; cbn [outcome_of].
  2: destruct (sdk_init_result env) as [[]|e|] eqn:Er; cbn [outcome_of caught].
  3: { exists e. split; [done|]. left. done. }
  3: { left. left. done. }
  all: destruct v.
  - destruct (some_path_settled _ _); [|by right].
    unfold accounts_source.
    destruct (sdk_getProvider env) as [p|] eqn:Ep.
    + destruct (request_eth_requestAccounts env p) as [a|e|] eqn:Ea;
        cbn [outcome_of caught].
      * apply Htail.
      * exists e. split; [done|]. right; right; left. exists p. eauto.
      * left. right; right; left. exists p. eauto.
    + cbn [outcome_of]. apply Htail.
  - unfold accounts_source.
    destruct (sdk_connect_result env) as [a|e|] eqn:Ec; cbn [outcome_of caught].
    + destruct (authorized_in_time env); [apply Htail|by right].
    + exists e. split; [done|]. right; left. done.
    + left. right; left. done.
  - destruct (some_path_settled _ _); [|by right].
    unfold accounts_source.
    destruct (sdk_getProvider env) as [p|] eqn:Ep.
    + destruct (request_eth_requestAccounts env p) as [a|e|] eqn:Ea;
        cbn [outcome_of caught].
      * apply Htail.
      * exists e. split; [done|]. right; right; left. exists p. eauto.
      * left. right; right; left. exists p. eauto.
    + cbn [outcome_of]. apply Htail.
  - unfold accounts_source.
    destruct (sdk_connect_result env) as [a|e|] eqn:Ec; cbn [outcome_of caught].
    + destruct (authorized_in_time env); [apply Htail|by right].
    + exists e. split; [done|]. right; left. done.
    + left. right; left. done.
Qed.

Lemma awaited_ends_impl v env chainId (P Q : ∀ A, Settled A → Prop) :
  (∀ A s, P A s → Q A s) →
  awaited_ends v env chainId P → awaited_ends v env chainId Q.
Proof.
  intros H. unfold awaited_ends.
  intros [[? ?]|[[? ?]|[(p & ? & [[? ?]|[? ?]])|(c & ? & ?)]]]; eauto 10.
Qed.

(** X18. Every way a [connect] ends has its cause among the collaborators.
    What it throws is the classification of an error that one of the promises
    it awaits was rejected with ([init()], [sdk.connect()] in metaMaskSDK.ts,
    [eth_requestAccounts] in part_000, [eth_chainId], [switchChain]): it
    raises no error of its own, and in part_000 a rejection of
    [sdk.connect()] is never the cause. When it never settles, one of those
    promises never settles or the authorization wait is not over. When it
    returns, the answer says [isConnected: true] and carries the provider the
    SDK handed out; and it does return whenever the wait is over and each of
    those promises is fulfilled. *)
Theorem connect_outcome_has_a_cause (v : Version) (env : Env)
    (chainId : option number) (w : World) :
  match (connect v env chainId w).1 with
  | Returned r => isConnected r = true ∧ provider r = sdk_getProvider env
  | Thrown t =>
      ∃ e, t = classify env e ∧
           awaited_ends v env chainId (λ _ s, s = Rejected e)
  | Pending =>
      awaited_ends v env chainId (λ _ s, s = Never) ∨
      match v with
      | part_000 => some_path_settled (sdk_connection env) (sdk_signals env) = false
      | metaMaskSDK_ts => authorized_in_time env = false
      end
  end ∧
  (match v with
   | part_000 => some_path_settled (sdk_connection env) (sdk_signals env) = true
   | metaMaskSDK_ts => authorized_in_time env = true
   end →
   ¬ awaited_ends v env chainId (λ _ s, ∀ a, s ≠ Fulfilled a) →
   ∃ r, (connect v env chainId w).1 = Returned r).
Proof.
  pose proof (connect_cause v env chainId w) as H. split; [exact H|].
  intros Hwait Hok.
  destruct (connect v env chainId w).1 as [r|t|]; [by exists r|..]; exfalso.
  - destruct H as (e & _ & H). apply Hok.
    eapply awaited_ends_impl; [|exact H]. by intros A s -> a.
  - destruct H as [H|H].
    + apply Hok. eapply awaited_ends_impl; [|exact H]. by intros A s -> a.
    + destruct v; congruence.
Qed.

Lemma connect_outcome_has_a_cause_witness :
  ∃ r, (connect part_000 wallet (Some (Num 137)) fresh_world).1 = Returned r.
Proof.
  destruct (connect_outcome_has_a_cause part_000 wallet (Some (Num 137)) fresh_world)
    as [_ H].
  apply H; clear H.
  - vm_compute. reflexivity.
  - unfold awaited_ends.
    intros [[H _]|[[H _]|[(p & _ & [[_ H]|[_ H]])|(c & _ & H)]]].
    + vm_compute in H. discriminate H.
    + discriminate H.
    + apply (H (Some ["0xA11ce"; "0xB0b"])). vm_compute. reflexivity.
    + apply (H (Some "0x1")). vm_compute. reflexivity.
    + apply (H c). vm_compute. reflexivity.
Defined.

(** ** The two versions side by side *)

Lemma accounts_source_account_list v env accounts :
  account_list v env accounts → accounts_source v env = Fulfilled accounts.
Proof.
  destruct v; simpl; [|done].
  destruct (sdk_getProvider env); [done|]. by intros ->.
Qed.

(** X19. The two versions answer alike whenever both get through their wait
    and [sdk.connect()] resolves in metaMaskSDK.ts to the accounts that
    [eth_requestAccounts] gives part_000: the same response, error or hang,
    on any two connectors. And whenever metaMaskSDK.ts gets through its wait
    without the extension being active, part_000 gets through its own. *)
Theorem versions_answer_alike (env : Env) (chainId : option number)
    (w1 w2 : World) (accounts : option (list Address)) :
  (sdk_isExtensionActive env = false →
   authorized_in_time env = true →
   some_path_settled (sdk_connection env) (sdk_signals env) = true) ∧
  (account_list part_000 env accounts →
   account_list metaMaskSDK_ts env accounts →
   some_path_settled (sdk_connection env) (sdk_signals env) = true →
   authorized_in_time env = true →
   (connect part_000 env chainId w1).1 = (connect metaMaskSDK_ts env chainId w2).1).
Proof.
  split.
  - unfold authorized_in_time, some_path_settled. intros ->. simpl.
    destruct (isAuthorized (sdk_connection env)); [done|]. simpl.
    intros ->. by rewrite orb_true_r.
  - intros H1%accounts_source_account_list H2%accounts_source_account_list Hs Ha.
    rewrite !connect_run. cbn [fst].
    unfold connect_outcome, connect_try_outcome. by rewrite H1, H2, Hs, Ha.
Qed.

Lemma versions_answer_alike_witness :
  (connect part_000 wallet (Some (Num 137)) fresh_world).1 =
    (connect metaMaskSDK_ts wallet (Some (Num 137)) fresh_world).1.
Proof.
  exact (proj2 (versions_answer_alike wallet (Some (Num 137)) fresh_world fresh_world
                  (Some ["0xA11ce"; "0xB0b"])) eq_refl eq_refl eq_refl eq_refl).
Defined.
